(** * halfpike: a shallow embedding of the lexer/parser framework

    The development follows the Go sources: package [halfpike]
    (the tokenizer [untilSpace], the line-buffering [Parser] and the
    [Parse] driver) and package [line] (the single-line [Lexer] and
    [DecodeList]).

    Conventions of the embedding:
    - a Go [string] is the sequence of runes that [range] yields over it
      ([gostring := list rune], a rune being its code point in [Z]);
    - a Go [int] index is a [Z]; slice indexing checks its bounds and
      panics outside them;
    - a call that may not return normally has an [outcome]: it [Returns]
      a value, or it [Panics] (a run-time panic, or [log.Fatalf]), or the
      model's loop counter ran out ([OutOfFuel]); loops that are shown to
      terminate are given enough fuel by their callers;
    - functions of the Go standard library that the package calls but
      does not define ([unicode.IsNumber], [strconv.Atoi],
      [strconv.ParseFloat]) are parameters of the definitions. *)

From Stdlib Require Import String Ascii ZArith List Bool Lia.
Import ListNotations.
Local Open Scope Z_scope.

(** ** Go values *)

Definition rune := Z.
Definition gostring := list rune.

(** The runes of an ASCII literal, to write examples. *)
Definition runes (s : String.string) : gostring :=
  map (fun a => Z.of_N (N_of_ascii a)) (list_ascii_of_string s).

Definition len {A : Type} (l : list A) : Z := Z.of_nat (length l).

Definition gostring_eqb (a b : gostring) : bool :=
  if list_eq_dec Z.eq_dec a b then true else false.

Inductive outcome (A : Type) : Type :=
| Returns (a : A)
| Panics
| OutOfFuel.
Arguments Returns {A} a.
Arguments Panics {A}.
Arguments OutOfFuel {A}.

Definition bind {A B : Type} (m : outcome A) (k : A -> outcome B) : outcome B :=
  match m with
  | Returns a => k a
  | Panics => Panics
  | OutOfFuel => OutOfFuel
  end.

Notation "x <- m ;; k" := (bind m (fun x => k))
  (at level 61, m at next level, right associativity).
Notation "' pat <- m ;; k" := (bind m (fun x => match x with pat => k end))
  (at level 61, pat pattern, m at next level, right associativity).

(** [l[i]] with Go's bounds check. *)
Definition index_at {A : Type} (l : list A) (i : Z) : outcome A :=
  if i <? 0 then Panics
  else match nth_error l (Z.to_nat i) with
       | Some a => Returns a
       | None => Panics
       end.

(** ** Package unicode *)

Module Unicode.

(** [unicode.IsSpace]: the Latin-1 switch, then the White_Space table. *)
Definition IsSpace (r : rune) : bool :=
  if (0 <=? r) && (r <=? 0xFF) then
    (r =? 9) || (r =? 10) || (r =? 11) || (r =? 12) || (r =? 13)
    || (r =? 32) || (r =? 0x85) || (r =? 0xA0)
  else
    (r =? 0x1680) || ((0x2000 <=? r) && (r <=? 0x200a))
    || (r =? 0x2028) || (r =? 0x2029) || (r =? 0x202f)
    || (r =? 0x205f) || (r =? 0x3000).

(** [unicode.IsNumber] on Latin-1 (the digits and the six No characters
    of that block); used as the instance of the [IsNumber] parameter in
    the ASCII examples. *)
Definition IsNumberLatin1 (r : rune) : bool :=
  ((48 <=? r) && (r <=? 57))
  || (r =? 0xB2) || (r =? 0xB3) || (r =? 0xB9)
  || (r =? 0xBC) || (r =? 0xBD) || (r =? 0xBE).

End Unicode.

(** ** Package line: the single-line lexer *)

Module Line.

Inductive ItemType : Type :=
| Unknown
| ItemEOF
| ItemText
| ItemInt
| ItemFloat
| ItemEOL
| ItemSpace.

Definition ItemType_eqb (a b : ItemType) : bool :=
  match a, b with
  | Unknown, Unknown | ItemEOF, ItemEOF | ItemText, ItemText
  | ItemInt, ItemInt | ItemFloat, ItemFloat | ItemEOL, ItemEOL
  | ItemSpace, ItemSpace => true
  | _, _ => false
  end.

Record Item : Type := mkItem { Type_ : ItemType; Val : gostring }.

Record Lexer : Type := mkLexer { index : Z; items : list Item }.

Section New.

Variable IsNumber : rune -> bool.

(** The local variables of [New]'s loop. *)
Record scan : Type := mkScan {
  s_items : list Item;
  buff : gostring;
  isNumber : bool;
  isFloat : bool
}.

(** The three-way switch that closes the pending buffer. *)
Definition buffItem (s : scan) : Item :=
  if isNumber s && isFloat s then mkItem ItemFloat (buff s)
  else if isNumber s then mkItem ItemInt (buff s)
  else mkItem ItemText (buff s).

(** [items[len(items)-1].Type == ItemSpace]; the test is made behind
    [len(items) == 0 ||], on a slice that is not empty. *)
Definition lastIsSpace (its : list Item) : bool :=
  match index_at its (len its - 1) with
  | Returns it => ItemType_eqb (Type_ it) ItemSpace
  | _ => false
  end.

(** One iteration of [for _, r := range line]. *)
Definition New_step (s : scan) (r : rune) : scan :=
  if Unicode.IsSpace r then
    let s1 :=
      if 0 <? len (buff s)
      then mkScan (s_items s ++ [buffItem s]) [] false false
      else s in
    if r =? 10
    then mkScan (s_items s1 ++ [mkItem ItemEOL [r]])
                (buff s1) (isNumber s1) (isFloat s1)
    else mkScan (s_items s1 ++ [mkItem ItemSpace [r]])
                (buff s1) (isNumber s1) (isFloat s1)
  else if IsNumber r then
    mkScan (s_items s) (buff s ++ [r])
           (if len (buff s) =? 0 then true else isNumber s) (isFloat s)
  else if r =? 46 then
    mkScan (s_items s) (buff s ++ [r])
           (isNumber s) (if isNumber s then true else isFloat s)
  else
    let isNumber' :=
      if (len (s_items s) =? 0)
         || (lastIsSpace (s_items s) && (len (buff s) =? 0))
      then (if r =? 45 then true else false)
      else false in
    mkScan (s_items s) (buff s ++ [r]) isNumber' false.

Definition New_loop (line : gostring) : scan :=
  fold_left New_step line (mkScan [] [] false false).

(** [New]: the loop, the closing of the last buffer, and the terminal
    item; [items[len(items)-1]] panics on an empty slice. *)
Definition New (line : gostring) : outcome Lexer :=
  let s := New_loop line in
  let its :=
    if 0 <? len (buff s) then s_items s ++ [buffItem s] else s_items s in
  lastItem <- index_at its (len its - 1) ;;
  if negb (ItemType_eqb (Type_ lastItem) ItemEOL)
  then Returns (mkLexer 0 (its ++ [mkItem ItemEOF []]))
  else Returns (mkLexer 0 its).

End New.

(** [Lexer.Next] *)
Definition Next (l : Lexer) : outcome (Item * Lexer) :=
  if index l <? len (items l) then
    item <- index_at (items l) (index l) ;;
    if negb (ItemType_eqb (Type_ item) ItemEOL)
    then Returns (item, mkLexer (index l + 1) (items l))
    else Returns (item, l)
  else
    item <- index_at (items l) (len (items l) - 1) ;;
    Returns (item, l).

(** [Lexer.Backup] *)
Definition Backup (l : Lexer) : Lexer :=
  if 0 <=? index l - 1 then mkLexer (index l - 1) (items l) else l.

(** [Lexer.Peek] *)
Definition Peek (l : Lexer) : outcome (Item * Lexer) :=
  '(n, l1) <- Next l ;;
  Returns (n, Backup l1).

(** [Lexer.SetIndex]; [log.Fatalf] ends the process. *)
Definition SetIndex (l : Lexer) (i : Z) : outcome Lexer :=
  if i <? 0 then Panics
  else if len (items l) <=? i then Panics
  else Returns (mkLexer i (items l)).

Definition Len (l : Lexer) : Z := len (items l).

Definition Index (l : Lexer) : Z := index l.

(** A call on a lexer, and a sequence of calls. *)
Inductive call : Type :=
| CallNext
| CallBackup
| CallPeek
| CallSetIndex (i : Z).

Definition do_call (c : call) (l : Lexer) : outcome Lexer :=
  match c with
  | CallNext => '(_, l1) <- Next l ;; Returns l1
  | CallBackup => Returns (Backup l)
  | CallPeek => '(_, l1) <- Peek l ;; Returns l1
  | CallSetIndex i => SetIndex l i
  end.

Fixpoint do_calls (cs : list call) (l : Lexer) : outcome Lexer :=
  match cs with
  | [] => Returns l
  | c :: cs' => l1 <- do_call c l ;; do_calls cs' l1
  end.

(** *** DecodeList *)

Record DecodeList : Type := mkDecodeList {
  LeftConstraint : gostring;
  RightConstraint : gostring;
  Separator : gostring;
  EntryQuote : gostring;
  EscapeCharacter : gostring
}.

(** The errors [setup] and [Decode] build, one constructor per message. *)
Inductive DecodeError : Type :=
| ErrLeftConstraintEmpty
| ErrRightConstraintEmpty
| ErrSeparatorLength
| ErrSeparatorSpace
| ErrEntryQuote
| ErrNoEndingCharacter
| ErrFirstCharacter (r : rune)
| ErrTwoLeftConstraints
| ErrSeparatorWeirdPlace
| ErrCloseFirst
| ErrCannotCloseWith (r x : rune).

(** [len(s)] of a Go string counts the bytes of its UTF-8 encoding. *)
Definition RuneLen (r : rune) : Z :=
  if r <? 0x80 then 1 else if r <? 0x800 then 2
  else if r <? 0x10000 then 3 else 4.

Definition byteLen (s : gostring) : Z :=
  fold_right (fun r n => RuneLen r + n) 0 s.

(** [[]rune(s)[0]] *)
Definition firstRune (s : gostring) : outcome rune := index_at s 0.

(** [DecodeList.setup]; [None] is the nil error. *)
Definition setup (d : DecodeList) : outcome (option DecodeError) :=
  if gostring_eqb (LeftConstraint d) [] then
    Returns (Some ErrLeftConstraintEmpty)
  else if gostring_eqb (RightConstraint d) [] then
    Returns (Some ErrRightConstraintEmpty)
  else if negb (byteLen (Separator d) =? 1) then
    Returns (Some ErrSeparatorLength)
  else
    sep <- firstRune (Separator d) ;;
    if Unicode.IsSpace sep then Returns (Some ErrSeparatorSpace)
    else if gostring_eqb (EntryQuote d) [] then Returns (Some ErrEntryQuote)
    else if negb (gostring_eqb (EntryQuote d) [34])
            && negb (gostring_eqb (EntryQuote d) [39])
    then Returns (Some ErrEntryQuote)
    else Returns None.

(** The runes [Decode] extracts from the configuration. *)
Record chars : Type := mkChars {
  lc : rune;
  rc : rune;
  sep : rune;
  q : rune;
  escape : rune
}.

Definition decodeChars (d : DecodeList) : outcome chars :=
  lc <- firstRune (LeftConstraint d) ;;
  rc <- firstRune (RightConstraint d) ;;
  sep <- firstRune (Separator d) ;;
  q <- firstRune (EntryQuote d) ;;
  escape <- (if negb (gostring_eqb (EscapeCharacter d) [])
             then firstRune (EscapeCharacter d) else Returns 0) ;;
  Returns (mkChars lc rc sep q escape).

(** The variables [Decode] keeps across runes, with [d.results]. *)
Record dstate : Type := mkDstate {
  foundLeftConstraint : bool;
  foundRightConstraint : bool;
  inQuote : bool;
  entry : gostring;
  read : Z;
  last : rune;
  lastNonSpace : rune;
  results : list gostring
}.

Definition dstate0 : dstate := mkDstate false false false [] 0 0 0 [].

Definition set_foundLeftConstraint (s : dstate) : dstate :=
  mkDstate true (foundRightConstraint s) (inQuote s) (entry s) (read s)
           (last s) (lastNonSpace s) (results s).

Definition set_foundRightConstraint (s : dstate) : dstate :=
  mkDstate (foundLeftConstraint s) true (inQuote s) (entry s) (read s)
           (last s) (lastNonSpace s) (results s).

(** [entry.WriteRune(r)] *)
Definition entry_WriteRune (r : rune) (s : dstate) : dstate :=
  mkDstate (foundLeftConstraint s) (foundRightConstraint s) (inQuote s)
           (entry s ++ [r]) (read s) (last s) (lastNonSpace s) (results s).

(** The quote case past the escape test: an open entry is appended to
    the results, and [inQuote] is toggled. *)
Definition toggleQuote (s : dstate) : dstate :=
  if inQuote s
  then mkDstate (foundLeftConstraint s) (foundRightConstraint s) false
                [] (read s) (last s) (lastNonSpace s)
                (results s ++ [entry s])
  else mkDstate (foundLeftConstraint s) (foundRightConstraint s) true
                (entry s) (read s) (last s) (lastNonSpace s) (results s).

Definition incr_read (s : dstate) : dstate :=
  mkDstate (foundLeftConstraint s) (foundRightConstraint s) (inQuote s)
           (entry s) (read s + 1) (last s) (lastNonSpace s) (results s).

(** The deferred function of the closure. *)
Definition deferred (r : rune) (s : dstate) : dstate :=
  mkDstate (foundLeftConstraint s) (foundRightConstraint s) (inQuote s)
           (entry s) (read s) r
           (if negb (Unicode.IsSpace r) then r else lastNonSpace s)
           (results s).

(** The body of the closure after [reader.ReadRune()] gave [r];
    [rest] is what the reader still holds. *)
Definition decode_switch (c : chars) (r : rune) (rest : gostring)
  (s : dstate) : dstate * option DecodeError :=
  let s := incr_read s in
  if (read s =? 2) && negb (foundLeftConstraint s) then
    (s, Some (ErrFirstCharacter r))
  else if r =? lc c then
    if foundLeftConstraint s && negb (inQuote s) then
      (s, Some ErrTwoLeftConstraints)
    else if inQuote s then (entry_WriteRune r s, None)
    else (set_foundLeftConstraint s, None)
  else if Unicode.IsSpace r then
    if inQuote s then (entry_WriteRune r s, None) else (s, None)
  else if r =? q c then
    if negb (escape c =? 0) && (last s =? escape c) then
      (entry_WriteRune r s, None)
    else (toggleQuote s, None)
  else if r =? sep c then
    if inQuote s then (entry_WriteRune r s, None)
    else if lastNonSpace s =? q c then (s, None)
    else if Unicode.IsSpace (last s) && (lastNonSpace s =? q c) then (s, None)
    else (s, Some ErrSeparatorWeirdPlace)
  else if r =? rc c then
    if read s =? 1 then (s, Some ErrCloseFirst)
    else if inQuote s then (entry_WriteRune r s, None)
    else match rest with
         | x :: _ => (s, Some (ErrCannotCloseWith r x))
         | [] => (set_foundRightConstraint s, None)
         end
  else (entry_WriteRune r s, None).

Definition decode_rune (c : chars) (r : rune) (rest : gostring)
  (s : dstate) : dstate * option DecodeError :=
  let '(s1, e) := decode_switch c r rest s in (deferred r s1, e).

(** [for reader.Len() > 0 { ... }] over the runes of one item. *)
Fixpoint decode_reader (c : chars) (rs : gostring) (s : dstate)
  : dstate * option DecodeError :=
  match rs with
  | [] => (s, None)
  | r :: rest =>
    match decode_rune c r rest s with
    | (s1, Some e) => (s1, Some e)
    | (s1, None) => decode_reader c rest s1
    end
  end.

(** The outer [for] of [Decode]; the result pairs the lexer as the call
    leaves it with Go's [(items, err)]. *)
Fixpoint decode_loop (fuel : nat) (c : chars) (l : Lexer) (s : dstate)
  : outcome (Lexer * (list gostring + DecodeError)) :=
  match fuel with
  | O => OutOfFuel
  | S fuel' =>
    if foundRightConstraint s then Returns (l, inl (results s))
    else
      '(i, l1) <- Next l ;;
      match Type_ i with
      | ItemEOF | ItemEOL => Returns (l1, inr ErrNoEndingCharacter)
      | _ =>
        match decode_reader c (Val i) s with
        | (_, Some e) => Returns (l1, inr e)
        | (s1, None) => decode_loop fuel' c l1 s1
        end
      end
  end.

(** [DecodeList.Decode]. Every round of the outer loop but the last
    moves the lexer one item forward, so the number of items bounds the
    rounds. *)
Definition Decode (d : DecodeList) (l : Lexer)
  : outcome (Lexer * (list gostring + DecodeError)) :=
  e <- setup d ;;
  match e with
  | Some err => Returns (l, inr err)
  | None =>
    c <- decodeChars d ;;
    decode_loop (S (S (length (items l)))) c l dstate0
  end.

(** *** Joining and skipping items *)

(** [ItemJoin]: the values of the items, written to one builder. *)
Definition ItemJoin (its : list Item) : gostring :=
  fold_left (fun b i => b ++ Val i) its [].

(** The [for] of [SkipAllSpaces]: [Next] until an item is not an
    [ItemSpace]; [fuel] bounds the rounds. *)
Fixpoint SkipAllSpaces_loop (fuel : nat) (l : Lexer) : outcome Lexer :=
  match fuel with
  | O => OutOfFuel
  | S fuel' =>
    '(r, l1) <- Next l ;;
    match Type_ r with
    | ItemSpace => SkipAllSpaces_loop fuel' l1
    | _ => Returns l1
    end
  end.

(** [SkipAllSpaces] *)
Definition SkipAllSpaces (fuel : nat) (l : Lexer) : outcome Lexer :=
  l1 <- SkipAllSpaces_loop fuel l ;;
  Returns (Backup l1).

(** The inner [for _, m := range strs] of [Skip]: the value of [cont]. *)
Definition matchesAny (strs : list gostring) (i : Item) : bool :=
  existsb (fun m => gostring_eqb (Val i) m) strs.

(** The outer [for] of [Skip]. *)
Fixpoint Skip_loop (fuel : nat) (strs : list gostring) (l : Lexer)
  : outcome Lexer :=
  match fuel with
  | O => OutOfFuel
  | S fuel' =>
    '(i, l1) <- Next l ;;
    if negb (matchesAny strs i) then Returns l1
    else Skip_loop fuel' strs l1
  end.

(** [Skip] *)
Definition Skip (fuel : nat) (strs : list gostring) (l : Lexer)
  : outcome Lexer :=
  l1 <- Skip_loop fuel strs l ;;
  Returns (Backup l1).

(** [Lexer.Range] with a context that is never cancelled and a reader
    that reads the channel to its end: the items the channel carries,
    and the lexer as the goroutine leaves it. *)
Fixpoint Range (fuel : nat) (l : Lexer) : outcome (list Item * Lexer) :=
  match fuel with
  | O => OutOfFuel
  | S fuel' =>
    '(i, l1) <- Next l ;;
    match Type_ i with
    | ItemEOL | ItemEOF => Returns ([i], l1)
    | _ =>
      '(rest, l2) <- Range fuel' l1 ;;
      Returns (i :: rest, l2)
    end
  end.

End Line.

(** ** Package strconv

    An instance of the [isInt] and [isFloat] parameters for the
    examples. [Atoi_ok] is [strconv.Atoi] succeeding on a 64-bit [int];
    [ParseFloat_ok] is [strconv.ParseFloat] succeeding on the decimal
    grammar and on the spellings of infinity and NaN (hexadecimal
    mantissas and the range error of huge exponents are left out: no
    example uses them). *)

Module Strconv.

Definition isDigit (r : rune) : bool := (48 <=? r) && (r <=? 57).

Definition digitsValue (s : gostring) : Z :=
  fold_left (fun n r => 10 * n + (r - 48)) s 0.

Definition Atoi_ok (s : gostring) : bool :=
  match s with
  | [] => false
  | c :: t =>
    if (c =? 45) then
      negb (len t =? 0) && forallb isDigit t && (digitsValue t <=? 2 ^ 63)
    else if (c =? 43) then
      negb (len t =? 0) && forallb isDigit t && (digitsValue t <? 2 ^ 63)
    else forallb isDigit s && (digitsValue s <? 2 ^ 63)
  end.

(** [strconv.Atoi] on decimal digits with an optional sign, for the
    64-bit [int]; [None] is the error. *)
Definition Atoi (s : gostring) : option Z :=
  if Atoi_ok s then
    Some (match s with
          | 45 :: t => - digitsValue t
          | 43 :: t => digitsValue t
          | _ => digitsValue s
          end)
  else None.

Fixpoint dropDigits (s : gostring) : gostring :=
  match s with
  | r :: t => if isDigit r then dropDigits t else s
  | [] => []
  end.

Definition lower (r : rune) : rune :=
  if (65 <=? r) && (r <=? 90) then r + 32 else r.

Definition exponent_ok (s : gostring) : bool :=
  match s with
  | [] => true
  | e :: t =>
    (lower e =? 101) &&
    let t' := match t with
              | c :: u => if (c =? 43) || (c =? 45) then u else t
              | [] => t
              end in
    negb (len t' =? 0) && forallb isDigit t'
  end.

Definition unsigned_ok (s : gostring) : bool :=
  let ls := map lower s in
  if gostring_eqb ls (runes "inf") || gostring_eqb ls (runes "infinity")
  then true
  else
    let s1 := dropDigits s in
    let intDigits := len s - len s1 in
    match s1 with
    | 46 :: s2 =>
      let s3 := dropDigits s2 in
      (0 <? intDigits + (len s2 - len s3)) && exponent_ok s3
    | _ => (0 <? intDigits) && exponent_ok s1
    end.

Definition ParseFloat_ok (s : gostring) : bool :=
  match s with
  | [] => false
  | c :: t =>
    if (c =? 43) || (c =? 45) then unsigned_ok t
    else gostring_eqb (map lower s) (runes "nan") || unsigned_ok s
  end.

(** [strconv.ParseFloat] without the value it gives. *)
Definition ParseFloat (s : gostring) : option unit :=
  if ParseFloat_ok s then Some tt else None.

End Strconv.

(** ** Package halfpike *)

Module Halfpike.

Inductive ItemType : Type :=
| ItemUnknown
| ItemEOF
| ItemText
| ItemInt
| ItemFloat
| ItemEOL
| itemSpace.

Definition ItemType_eqb (a b : ItemType) : bool :=
  match a, b with
  | ItemUnknown, ItemUnknown | ItemEOF, ItemEOF | ItemText, ItemText
  | ItemInt, ItemInt | ItemFloat, ItemFloat | ItemEOL, ItemEOL
  | itemSpace, itemSpace => true
  | _, _ => false
  end.

(** [rune(ItemEOF)], the value [next] returns at the end of the input. *)
Definition runeEOF : rune := 1.

Record Item : Type := mkItem {
  Type_ : ItemType;
  Val : gostring;
  lineNum : Z;
  raw : gostring
}.

Record Line : Type := mkLine {
  Items : list Item;
  LineNum : Z;
  Raw : gostring
}.

(** *** The lexer

    Positions count runes. [l_items] is what has been sent on the
    [items] channel, oldest first: the lexer's context is never
    cancelled, so [addItemsChannel] always sends. *)

Record lexer : Type := mkLexer {
  l_input : gostring;
  l_start : Z;
  l_pos : Z;
  l_width : Z;
  l_items : list Item
}.

Record rawInfo : Type := mkRawInfo { str : gostring; num : Z }.

(** [s[a:b]] with Go's bounds check. *)
Definition slice (s : gostring) (a b : Z) : outcome gostring :=
  if (0 <=? a) && (a <=? b) && (b <=? len s)
  then Returns (firstn (Z.to_nat (b - a)) (skipn (Z.to_nat a) s))
  else Panics.

Definition newLexer (s : gostring) : lexer := mkLexer s 0 0 0 [].

Definition addItemsChannel (l : lexer) (item : Item) : lexer :=
  mkLexer (l_input l) (l_start l) (l_pos l) (l_width l) (l_items l ++ [item]).

(** [lexer.emit]; the type it returns is its argument. *)
Definition emit (l : lexer) (t : ItemType) (ri : list rawInfo) : outcome lexer :=
  v <- slice (l_input l) (l_start l) (l_pos l) ;;
  item <- match t with
          | ItemEOL | ItemEOF =>
            ri0 <- index_at ri 0 ;;
            Returns (mkItem t v (num ri0) (str ri0))
          | _ => Returns (mkItem t v 0 [])
          end ;;
  let l := addItemsChannel l item in
  Returns (mkLexer (l_input l) (l_pos l) (l_pos l) (l_width l) (l_items l)).

(** [lexer.current] *)
Definition current (l : lexer) : outcome gostring :=
  if (len (l_input l) <=? l_start l) || (l_start l =? l_pos l)
  then Returns []
  else slice (l_input l) (l_start l) (l_pos l).

(** [lexer.ignore] *)
Definition ignore (l : lexer) : lexer :=
  mkLexer (l_input l) (l_pos l) (l_pos l) (l_width l) (l_items l).

(** [lexer.backup] *)
Definition backup (l : lexer) : lexer :=
  mkLexer (l_input l) (l_start l) (l_pos l - l_width l) (l_width l) (l_items l).

(** [lexer.next]; every rune is one position wide. *)
Definition next (l : lexer) : outcome (rune * lexer) :=
  if len (l_input l) <=? l_pos l then
    Returns (runeEOF,
             mkLexer (l_input l) (l_start l) (l_pos l) 0 (l_items l))
  else
    r <- index_at (l_input l) (l_pos l) ;;
    Returns (r, mkLexer (l_input l) (l_start l) (l_pos l + 1) 1 (l_items l)).

Section Lexer.

Variables isInt isFloat : gostring -> bool.

(** The [switch] that emits the pending text before a newline
    ([beforeNewline := true]) or before another space. *)
Definition emitPending (beforeNewline : bool) (last : ItemType) (l : lexer)
  : outcome lexer :=
  cur <- current l ;;
  if isInt cur then emit l ItemInt []
  else if isFloat cur then emit l ItemFloat []
  else if beforeNewline && ItemType_eqb last itemSpace then Returns l
  else emit l ItemText [].

(** [untilSpace]: each round of its [for] takes the rune [l.next()]
    gives. The function returns (nil) after emitting [ItemEOF]. *)
Fixpoint untilSpace_loop (fuel : nat) (l : lexer) (lineNum : Z)
  (raw : gostring) (last : ItemType) : outcome lexer :=
  match fuel with
  | O => OutOfFuel
  | S fuel' =>
    '(r, l) <- next l ;;
    let raw := raw ++ [r] in
    if r =? 10 then
      match last with
      | ItemUnknown | ItemEOL =>
        untilSpace_loop fuel' (ignore l) (lineNum + 1) raw last
      | _ =>
        l <- emitPending true last (backup l) ;;
        '(_, l) <- next l ;;
        l <- emit l ItemEOL [mkRawInfo raw lineNum] ;;
        untilSpace_loop fuel' l (lineNum + 1) [] ItemEOL
      end
    else if r =? runeEOF then
      emit l ItemEOF [mkRawInfo raw lineNum]
    else if Unicode.IsSpace r then
      match last with
      | ItemUnknown | ItemEOL | itemSpace =>
        untilSpace_loop fuel' (ignore l) lineNum raw last
      | _ =>
        l <- emitPending false last (backup l) ;;
        '(_, l) <- next l ;;
        untilSpace_loop fuel' (ignore l) lineNum raw itemSpace
      end
    else untilSpace_loop fuel' l lineNum raw ItemText
  end.

(** [untilSpace] reads one rune a round, and one more call of [next]
    finds the end of the input. *)
Definition untilSpace (l : lexer) : outcome lexer :=
  untilSpace_loop (S (length (l_input l))) l 0 [] ItemUnknown.

(** [lexer.run] with [untilSpace] as the start state: what the channel
    carries before it is closed. *)
Definition run (l : lexer) : outcome (list Item) :=
  l' <- untilSpace l ;;
  Returns (l_items l').

End Lexer.

(** *** The parser *)

Inductive any : Type :=
| AnyString (s : gostring)
| AnyInt (n : Z).

(** An error value, as [fmt.Errorf] was called to build it. *)
Inductive error : Type :=
| fmt_Errorf (format : gostring) (args : list any).

(** [recv] holds the items still to be received; the channel is closed
    behind them. *)
Record Parser : Type := mkParser {
  lines : list Line;
  pos : Z;
  recv : list Item;
  err : option error
}.

(** [newParser] followed by [go p.lex.run()], as [Parse] does. *)
Definition newParser (isInt isFloat : gostring -> bool) (input : gostring)
  : outcome Parser :=
  its <- run isInt isFloat (newLexer input) ;;
  Returns (mkParser [] 0 its None).

(** The closure of [Parser.pull], over what the channel still holds. *)
Fixpoint pull_loop (ch : list Item) (line : Line) : Line * list Item :=
  match ch with
  | [] => (line, [])
  | item :: ch' =>
    match Type_ item with
    | ItemEOF | ItemEOL =>
      (mkLine (Items line ++ [mkItem (Type_ item) (Val item) 0 []])
              (lineNum item) (raw item),
       ch')
    | _ => pull_loop ch' (mkLine (Items line ++ [item]) (LineNum line) (Raw line))
    end
  end.

Definition pull (p : Parser) : Line * Parser :=
  let '(line, ch) := pull_loop (recv p) (mkLine [] 0 []) in
  (line, mkParser (lines p) (pos p) ch (err p)).

(** [Parser.HasError] *)
Definition HasError (p : Parser) : option error := err p.

(** [Parser.Errorf]; the [ParseFn] it returns is always nil, so only the
    parser is given back. *)
Definition Errorf (p : Parser) (str : gostring) (args : list any) : Parser :=
  mkParser (lines p) (pos p) (recv p) (Some (fmt_Errorf str args)).

(** A sequence of [Errorf] calls, each given by its format and its
    arguments. *)
Definition Errorfs (p : Parser) (calls : list (gostring * list any)) : Parser :=
  fold_left (fun p c => Errorf p (fst c) (snd c)) calls p.

(** [Parser.Backup] *)
Definition Backup (p : Parser) : outcome (Line * Parser) :=
  let p := mkParser (lines p) (pos p - 1) (recv p) (err p) in
  if pos p <? 0 then Panics
  else
    line <- index_at (lines p) (pos p) ;;
    Returns (line, p).

(** [Parser.EOF] *)
Definition EOF (line : Line) : outcome bool :=
  it <- index_at (Items line) (len (Items line) - 1) ;;
  Returns (ItemType_eqb (Type_ it) ItemEOF).

Definition set_pos (p : Parser) (n : Z) : Parser :=
  mkParser (lines p) n (recv p) (err p).

Definition append_line (p : Parser) (line : Line) : Parser :=
  mkParser (lines p ++ [line]) (pos p) (recv p) (err p).

(** [Parser.Next] *)
Definition Next (p : Parser) : outcome (Line * Parser) :=
  if len (lines p) =? 0 then
    let '(line, p) := pull p in
    let p := set_pos (append_line p line) 1 in
    line0 <- index_at (lines p) 0 ;;
    Returns (line0, p)
  else
    atEnd <- (if len (lines p) <=? pos p
              then lastLine <- index_at (lines p) (len (lines p) - 1) ;;
                   EOF lastLine
              else Returns false) ;;
    if atEnd then
      lastLine <- index_at (lines p) (len (lines p) - 1) ;;
      Returns (lastLine, p)
    else if len (lines p) <=? pos p then
      let '(line, p) := pull p in
      let p := append_line p line in
      let p := set_pos p (pos p + 1) in
      line' <- index_at (lines p) (pos p - 1) ;;
      Returns (line', p)
    else
      let p := set_pos p (pos p + 1) in
      line' <- index_at (lines p) (pos p - 1) ;;
      Returns (line', p).

(** [Parser.Peek] *)
Definition Peek (p : Parser) : outcome (Line * Parser) :=
  '(i, p) <- Next p ;;
  '(_, p) <- Backup p ;;
  Returns (i, p).

(** [n] calls of [Next], and [n] calls of [Backup], each with the lines
    the calls returned, in the order of the calls. *)
Fixpoint NextN (n : nat) (p : Parser) : outcome (list Line * Parser) :=
  match n with
  | O => Returns ([], p)
  | S n' =>
    '(line, p1) <- Next p ;;
    '(ls, p2) <- NextN n' p1 ;;
    Returns (line :: ls, p2)
  end.

Fixpoint BackupN (n : nat) (p : Parser) : outcome (list Line * Parser) :=
  match n with
  | O => Returns ([], p)
  | S n' =>
    '(line, p1) <- Backup p ;;
    '(ls, p2) <- BackupN n' p1 ;;
    Returns (line :: ls, p2)
  end.

(** The items that end a line, and the number of lines an input has for
    the parser: the [ItemEOL] and [ItemEOF] items the lexer sends. *)
Definition isTerminal (it : Item) : bool :=
  match Type_ it with
  | ItemEOL | ItemEOF => true
  | _ => false
  end.

Definition lineCount (its : list Item) : nat := length (filter isTerminal its).

Definition inputLines (isInt isFloat : gostring -> bool) (input : gostring)
  : nat :=
  match run isInt isFloat (newLexer input) with
  | Returns its => lineCount its
  | _ => O
  end.

(** [Skip] *)
Definition Skip : gostring := runes "$.<skip>.$".

(** The [range find] loop of [IsAtStart], from index [i]. *)
Fixpoint IsAtStart_loop (line : Line) (i : Z) (find : list gostring)
  : outcome bool :=
  match find with
  | [] => Returns true
  | f :: find' =>
    if gostring_eqb f Skip then IsAtStart_loop line (i + 1) find'
    else
      it <- index_at (Items line) i ;;
      if negb (gostring_eqb (Val it) f) then Returns false
      else IsAtStart_loop line (i + 1) find'
  end.

(** [Parser.IsAtStart] *)
Definition IsAtStart (line : Line) (find : list gostring) : outcome bool :=
  if len find =? 0 then Returns true
  else if len (Items line) <? len find then Returns false
  else IsAtStart_loop line 0 find.

(** *** The driver

    A parse object has a state of type [Obj] and [ParseFn] methods named
    by [Fn]; running one of them on the object and the parser gives the
    next one, or none (the nil [ParseFn]). *)

Section Parse.

Variables Obj Fn : Type.

Record ParseObject : Type := mkParseObject {
  Start : Fn;
  call : Fn -> Obj -> Parser -> outcome (Obj * Parser * option Fn);
  Validate : Obj -> option error
}.

(** What [Parse] did: the error it returned, whether it called
    [Validate], and the object and the parser as it left them. *)
Record parsed : Type := mkParsed {
  returned : option error;
  validated : bool;
  object : Obj;
  parser : Parser
}.

(** [for state := parseObject.Start; state != nil; { state = state(ctx, p) }] *)
Fixpoint steps (fuel : nat) (po : ParseObject) (state : option Fn)
  (o : Obj) (p : Parser) : outcome (Obj * Parser) :=
  match state with
  | None => Returns (o, p)
  | Some f =>
    match fuel with
    | O => OutOfFuel
    | S fuel' =>
      '(o1, p1, state1) <- call po f o p ;;
      steps fuel' po state1 o1 p1
    end
  end.

Definition finish (po : ParseObject) (o : Obj) (p : Parser) : parsed :=
  match HasError p with
  | Some e => mkParsed (Some e) false o p
  | None =>
    match Validate po o with
    | Some e => mkParsed (Some e) true o p
    | None => mkParsed None true o p
    end
  end.

(** [Parse]; [fuel] bounds the number of [ParseFn] calls. *)
Definition Parse (isInt isFloat : gostring -> bool) (fuel : nat)
  (content : gostring) (po : ParseObject) (o : Obj) : outcome parsed :=
  p <- newParser isInt isFloat content ;;
  '(o1, p1) <- steps fuel po (Some (Start po)) o p ;;
  Returns (finish po o1 p1).

End Parse.

Arguments mkParseObject {Obj Fn}.
Arguments Start {Obj Fn}.
Arguments call {Obj Fn}.
Arguments Validate {Obj Fn}.
Arguments mkParsed {Obj}.
Arguments returned {Obj}.
Arguments validated {Obj}.
Arguments object {Obj}.
Arguments parser {Obj}.
Arguments steps {Obj Fn}.
Arguments finish {Obj Fn}.
Arguments Parse {Obj Fn}.

(** *** Searching for a line *)

(** The errors of the search functions, one constructor per message. *)
Inductive FindError : Type :=
| ErrEndOfFile (find : list gostring)
| ErrEmptyRegexps
| ErrREEndOfFile.

(** The [for] of [FindStart]: a round calls [Next] once. *)
Fixpoint FindStart_loop (fuel : nat) (p : Parser) (find : list gostring)
  : outcome (Line * option FindError * Parser) :=
  match fuel with
  | O => OutOfFuel
  | S fuel' =>
    '(line, p) <- Next p ;;
    found <- IsAtStart line find ;;
    if found then Returns (line, None, p)
    else
      atEnd <- EOF line ;;
      if atEnd then Returns (mkLine [] 0 [], Some (ErrEndOfFile find), p)
      else FindStart_loop fuel' p find
  end.

(** [Parser.FindStart]. Every round but the last moves the cursor over
    a line, buffered or still to come, so their number bounds the
    rounds. *)
Definition FindStart (p : Parser) (find : list gostring)
  : outcome (Line * option FindError * Parser) :=
  FindStart_loop (S (length (lines p) + length (recv p))) p find.

(** The [for] of [FindUntil]; the result is Go's
    [(matchFound, untilFound, err)]. *)
Fixpoint FindUntil_loop (fuel : nat) (p : Parser) (find until : list gostring)
  : outcome (Line * bool * option FindError * Parser) :=
  match fuel with
  | O => OutOfFuel
  | S fuel' =>
    '(line, p) <- Next p ;;
    found <- IsAtStart line find ;;
    if found then Returns (line, false, None, p)
    else
      stop <- IsAtStart line until ;;
      if stop then
        '(_, p) <- Backup p ;;
        Returns (mkLine [] 0 [], true, None, p)
      else
        atEnd <- EOF line ;;
        if atEnd
        then Returns (mkLine [] 0 [], false, Some (ErrEndOfFile find), p)
        else FindUntil_loop fuel' p find until
  end.

(** [Parser.FindUntil] *)
Definition FindUntil (p : Parser) (find until : list gostring)
  : outcome (Line * bool * option FindError * Parser) :=
  FindUntil_loop (S (length (lines p) + length (recv p))) p find until.

(** The regexp forms. A [*regexp.Regexp] is a value of type [Regexp],
    and [MatchString re s] is [re.MatchString(s)]. *)
Section Regexp.

Variable Regexp : Type.
Variable MatchString : Regexp -> gostring -> bool.

(** The [range find] loop of [IsREStart], from index [i]. *)
Fixpoint IsREStart_loop (line : Line) (i : Z) (find : list Regexp)
  : outcome bool :=
  match find with
  | [] => Returns true
  | f :: find' =>
    it <- index_at (Items line) i ;;
    if negb (MatchString f (Val it)) then Returns false
    else IsREStart_loop line (i + 1) find'
  end.

(** [Parser.IsREStart] *)
Definition IsREStart (line : Line) (find : list Regexp) : outcome bool :=
  if len find =? 0 then Returns false
  else if len (Items line) <? len find then Returns false
  else IsREStart_loop line 0 find.

Fixpoint FindREStart_loop (fuel : nat) (p : Parser) (find : list Regexp)
  : outcome (Line * option FindError * Parser) :=
  match fuel with
  | O => OutOfFuel
  | S fuel' =>
    '(line, p) <- Next p ;;
    found <- IsREStart line find ;;
    if found then Returns (line, None, p)
    else
      atEnd <- EOF line ;;
      if atEnd then Returns (mkLine [] 0 [], Some ErrREEndOfFile, p)
      else FindREStart_loop fuel' p find
  end.

(** [Parser.FindREStart] *)
Definition FindREStart (p : Parser) (find : list Regexp)
  : outcome (Line * option FindError * Parser) :=
  if len find =? 0 then Returns (mkLine [] 0 [], Some ErrEmptyRegexps, p)
  else FindREStart_loop (S (length (lines p) + length (recv p))) p find.

End Regexp.

Arguments IsREStart_loop {Regexp}.
Arguments IsREStart {Regexp}.
Arguments FindREStart_loop {Regexp}.
Arguments FindREStart {Regexp}.

(** *** Converting items *)

(** [strconv.Atoi] and [strconv.ParseFloat] give a value or an error;
    [float64] values are of type [F]. *)
Section Convert.

Variable F : Type.
Variable Atoi : gostring -> option Z.
Variable ParseFloat : gostring -> option F.

(** [isInt] and [isFloat] *)
Definition isInt (s : gostring) : bool :=
  match Atoi s with Some _ => true | None => false end.

Definition isFloat (s : gostring) : bool :=
  match ParseFloat s with Some _ => true | None => false end.

Inductive ConvertError : Type :=
| ErrNotInt (val : gostring)
| ErrNotFloat (val : gostring)
| ErrStrconv.

(** [Item.ToInt] *)
Definition ToInt (i : Item) : Z * option ConvertError :=
  if negb (ItemType_eqb (Type_ i) ItemInt) then (0, Some (ErrNotInt (Val i)))
  else match Atoi (Val i) with
       | None => (0, Some ErrStrconv)
       | Some n => (n, None)
       end.

(** [Item.ToFloat]; the value is [None] where Go returns [0.0] with the
    error. *)
Definition ToFloat (i : Item) : option F * option ConvertError :=
  if negb (ItemType_eqb (Type_ i) ItemFloat)
  then (None, Some (ErrNotFloat (Val i)))
  else match ParseFloat (Val i) with
       | None => (None, Some ErrStrconv)
       | Some f => (Some f, None)
       end.

End Convert.

Arguments isFloat {F}.
Arguments ToFloat {F}.

End Halfpike.

(** * The vocabulary of the statements *)

(** ** Package line *)

Module LineSpec.
Import Line.

Section Runs.

Variable IsNumber : rune -> bool.

(** *** The items of a line, run by run

    [tokens classify negOk run line] lists the items of [line] when
    [run] is the pending run of non-space runes: every space rune is an
    item of its own ([ItemEOL] for a newline, [ItemSpace] otherwise) and
    every maximal run of other runes is one item, of the type
    [classify negOk run]. [negOk] tells whether a leading minus sign may
    open a number: at the start of the line and after an [ItemSpace]
    item, not after an [ItemEOL] item. *)

Definition spaceItem (r : rune) : Item :=
  if r =? 10 then mkItem ItemEOL [r] else mkItem ItemSpace [r].

Definition closeRun (classify : bool -> gostring -> ItemType)
  (negOk : bool) (run : gostring) : list Item :=
  match run with
  | [] => []
  | _ :: _ => [mkItem (classify negOk run) run]
  end.

Fixpoint tokens (classify : bool -> gostring -> ItemType)
  (negOk : bool) (run : gostring) (line : gostring) : list Item :=
  match line with
  | [] => closeRun classify negOk run
  | r :: rest =>
    if Unicode.IsSpace r
    then closeRun classify negOk run ++ [spaceItem r]
         ++ tokens classify (negb (r =? 10)) [] rest
    else tokens classify negOk (run ++ [r]) rest
  end.

(** The terminal item: [ItemEOF] is appended unless the last item is an
    [ItemEOL]. *)
Definition withTerminal (its : list Item) : list Item :=
  match List.last (map Some its) None with
  | Some it =>
    if ItemType_eqb (Type_ it) ItemEOL then its else its ++ [mkItem ItemEOF []]
  | None => its ++ [mkItem ItemEOF []]
  end.

(** The runes that the switch of [New] takes as a decimal point. *)
Definition isPoint (r : rune) : bool := negb (IsNumber r) && (r =? 46).

(** The type [New] gives a run: a number when the run opens with a
    number rune, or with a minus sign where one is allowed, and goes on
    with number runes and points only; a float when it is a number with
    a point after its first rune. *)
Definition classify (negOk : bool) (run : gostring) : ItemType :=
  match run with
  | [] => ItemText
  | c :: t =>
    if (IsNumber c || (negOk && negb (c =? 46) && (c =? 45)))
       && forallb (fun r => IsNumber r || (r =? 46)) t
    then if existsb isPoint t then ItemFloat else ItemInt
    else ItemText
  end.

(** The first run of the line, up to its first space rune. *)
Fixpoint firstRun (line : gostring) : gostring :=
  match line with
  | [] => []
  | r :: rest => if Unicode.IsSpace r then [] else r :: firstRun rest
  end.

(** The classification in the words of the specification: a run of
    digits is an integer, unless it has a single embedded point, which
    makes it a float; a leading minus sign before such a run, where one
    is allowed, keeps its type; every other run is text. *)
Fixpoint takeDigits (s : gostring) : gostring :=
  match s with
  | r :: t => if IsNumber r then r :: takeDigits t else []
  | [] => []
  end.

Fixpoint dropDigits (s : gostring) : gostring :=
  match s with
  | r :: t => if IsNumber r then dropDigits t else s
  | [] => []
  end.

Definition spec_unsigned (run : gostring) : ItemType :=
  match takeDigits run, dropDigits run with
  | [], _ => ItemText
  | _ :: _, [] => ItemInt
  | _ :: _, 46 :: frac =>
    match frac, dropDigits frac with
    | _ :: _, [] => ItemFloat
    | _, _ => ItemText
    end
  | _ :: _, _ :: _ => ItemText
  end.

Definition spec_classify (negOk : bool) (run : gostring) : ItemType :=
  match run with
  | 45 :: t => if negOk then spec_unsigned t else ItemText
  | _ => spec_unsigned run
  end.

(** *** The loop of [New], seen from the runs *)

(** After a rune has been read, an item or a pending buffer exists. *)
Definition started (s : scan) : Prop := s_items s <> [] \/ buff s <> [].

(** The items of [New], the terminal item left aside. *)
Definition closed_items (line : gostring) : list Item :=
  let s := New_loop IsNumber line in
  if 0 <? len (buff s) then s_items s ++ [buffItem s] else s_items s.

(** The flags [classify] computes for a pending run. *)
Definition numOk (negOk : bool) (run : gostring) : bool :=
  match run with
  | [] => false
  | c :: t =>
    (IsNumber c || (negOk && negb (c =? 46) && (c =? 45)))
    && forallb (fun r => IsNumber r || (r =? 46)) t
  end.

Definition hasPoint (run : gostring) : bool :=
  match run with
  | [] => false
  | _ :: t => existsb isPoint t
  end.

(** The flags say what [classify] computes from the buffer. *)
Definition agrees (s : scan) (negOk : bool) : Prop :=
  isNumber s = numOk negOk (buff s) /\
  isFloat s = numOk negOk (buff s) && hasPoint (buff s) /\
  negOk = (len (s_items s) =? 0) || lastIsSpace (s_items s).

(** While no item exists, the pending run and what follows it up to the
    next space hold no minus sign past the first rune. *)
Definition noInnerMinus (s : scan) (line : gostring) : Prop :=
  s_items s = [] -> ~ In 45 (tl (buff s ++ firstRun line)).

Definition closeScan (s : scan) : list Item :=
  if 0 <? len (buff s) then s_items s ++ [buffItem s] else s_items s.

(** *** The first run of a line

    While no item exists the test of the default case of [New] holds
    for every rune, whatever the buffer holds: a minus sign anywhere in
    the first run sets [isNumber]. *)

Definition numOrPoint (r : rune) : bool := IsNumber r || (r =? 46).

(** The last rune of the run that is neither a number rune nor a
    point, and the runes behind it (the whole run when there is none). *)
Fixpoint lastOther (run : gostring) : option rune :=
  match run with
  | [] => None
  | r :: t =>
    match lastOther t with
    | Some x => Some x
    | None => if numOrPoint r then None else Some r
    end
  end.

Fixpoint numTail (run : gostring) : gostring :=
  match run with
  | [] => []
  | r :: t => if forallb numOrPoint (r :: t) then r :: t else numTail t
  end.

(** The first run is a number when its last rune that is neither a
    number rune nor a point is a minus sign, wherever it stands; and,
    in a run of number runes and points only, when its first rune is a
    number rune. *)
Definition numFirst (run : gostring) : bool :=
  match lastOther run with
  | Some x => x =? 45
  | None => match run with
            | c :: _ => IsNumber c
            | [] => false
            end
  end.

(** The type [New] gives the first run: a float when the run is a
    number and a point stands behind its last other rune. *)
Definition classifyFirst (run : gostring) : ItemType :=
  if numFirst run
  then if existsb isPoint (numTail run) then ItemFloat else ItemInt
  else ItemText.

(** The items of a line: the first run by [classifyFirst], the runs
    behind the first space rune by [classify]. *)
Fixpoint lineTokens (run : gostring) (line : gostring) : list Item :=
  match line with
  | [] => closeRun (fun _ => classifyFirst) true run
  | r :: rest =>
    if Unicode.IsSpace r
    then closeRun (fun _ => classifyFirst) true run ++ [spaceItem r]
         ++ tokens classify (negb (r =? 10)) [] rest
    else lineTokens (run ++ [r]) rest
  end.

(** The flags while the first run is pending. *)
Definition agreesFirst (s : scan) : Prop :=
  s_items s = [] /\
  isNumber s = numFirst (buff s) /\
  isFloat s = numFirst (buff s) && existsb isPoint (numTail (buff s)).

End Runs.

(** *** The cursor of the lexer *)

Definition cursor_ok (l : Lexer) : Prop :=
  items l <> [] /\ 0 <= index l <= len (items l).

Definition in_range (l : Lexer) (c : call) : Prop :=
  match c with
  | CallSetIndex i => 0 <= i < Len l
  | _ => True
  end.

(** The types of the items that end a line, and of those that hold a
    run. *)
Definition isTerminalType (t : ItemType) : Prop := t = ItemEOL \/ t = ItemEOF.

Definition isWord (t : ItemType) : Prop :=
  t = ItemText \/ t = ItemInt \/ t = ItemFloat.

(** The lexer has the items [pre ++ run ++ it :: post] and its index is
    on the first item of [run]. *)
Definition at_run (l : Lexer) (pre run : list Item) (it : Item)
  (post : list Item) : Prop :=
  items l = pre ++ run ++ it :: post /\ index l = len pre.

(** Where [Next] leaves the index when it returns the item at [k]. *)
Definition after (it : Item) (k : Z) : Z :=
  if ItemType_eqb (Type_ it) ItemEOL then k else k + 1.

(** The lexers of [New]: the last item ends the line, and no item in
    front of it is an [ItemEOF]. *)
Definition ends_line (l : Lexer) : Prop :=
  exists its t,
    items l = its ++ [t] /\ isTerminalType (Type_ t) /\
    Forall (fun it => Type_ it <> ItemEOF) its.

(** *** The runes of a list *)

(** A rune that no case of the switch but the default takes. *)
Definition ordinary (c : chars) (r : rune) : Prop :=
  Unicode.IsSpace r = false /\ r <> lc c /\ r <> rc c /\ r <> sep c /\ r <> q c.

(** The runes of the configuration are told apart by the switch. *)
Definition distinct_chars (c : chars) : Prop :=
  escape c <> 0 /\ ordinary c (escape c) /\
  Unicode.IsSpace (lc c) = false /\
  Unicode.IsSpace (q c) = false /\ q c <> lc c /\
  Unicode.IsSpace (rc c) = false /\ rc c <> lc c /\ rc c <> q c /\ rc c <> sep c.

Definition write (s : dstate) (r : rune) : dstate :=
  deferred r (entry_WriteRune r (incr_read s)).

(** A list as it is written: the left delimiter, the entries in
    quotes with the separator between them, the right delimiter. *)
Fixpoint quotedEntries (c : chars) (ws : list gostring) : gostring :=
  match ws with
  | [] => []
  | w :: ws' =>
    q c :: w ++ q c :: match ws' with
                       | [] => []
                       | _ => sep c :: quotedEntries c ws'
                       end
  end.

Definition formatList (c : chars) (ws : list gostring) : gostring :=
  lc c :: quotedEntries c ws ++ [rc c].

(** An entry the decoder gives back as it is: its runes are ordinary
    and the one in front of the closing quote is not the escape
    character. *)
Definition plainEntry (c : chars) (w : gostring) : Prop :=
  Forall (ordinary c) w /\ List.last w (q c) <> escape c.

(** The separator is told apart from the delimiters and the quote. *)
Definition separator_ok (c : chars) : Prop :=
  Unicode.IsSpace (sep c) = false /\ sep c <> lc c /\ sep c <> q c.

(** The configuration of the package's decoder test, with a backslash as
    the escape character. *)
Definition escapedList : DecodeList :=
  mkDecodeList (runes "[") (runes "]") (runes ",") [34] [92].

End LineSpec.

(** ** Package halfpike *)

Module HalfpikeSpec.
Import Halfpike.

(** *** What the lexer sends *)

Definition isWordItem (it : Item) : Prop :=
  Type_ it = ItemText \/ Type_ it = ItemInt \/ Type_ it = ItemFloat.

(** The line number carried by the first terminal item. *)
Definition firstTerminalNum (its : list Item) : option Z :=
  option_map lineNum (find isTerminal its).

(** What a run of the loop appends to the channel: items that are not
    [ItemEOF], then one [ItemEOF]; and when the line at hand already has
    text, the first terminal item carries the current line number. *)
Definition appended (its : list Item) (lineNum : Z) (last : ItemType)
  (l' : lexer) : Prop :=
  exists new eof,
    l_items l' = its ++ new ++ [eof] /\
    Type_ eof = ItemEOF /\
    Forall (fun it => Type_ it <> ItemEOF) new /\
    (last = ItemText \/ last = itemSpace ->
     firstTerminalNum (new ++ [eof]) = Some lineNum).

(** What the channel holds while the lexer has lines to send. *)
Definition ends_EOF (ch : list Item) : Prop :=
  exists pre eof, ch = pre ++ [eof] /\ Type_ eof = ItemEOF /\
                  Forall (fun it => Type_ it <> ItemEOF) pre.

(** *** Line numbers and newlines *)

(** The number of newline runes of a text. *)
Definition newlines (s : gostring) : Z := len (filter (fun r => r =? 10) s).

(** The newlines of the input in front of position [k]. *)
Definition newlinesBefore (input : gostring) (k : Z) : Z :=
  newlines (firstn (Z.to_nat k) input).

(** A terminal item carries the number of newlines in front of the
    position where its line ends; an [ItemEOL] ends at a newline. *)
Definition numbered (input : gostring) (it : Item) : Prop :=
  isTerminal it = true ->
  exists k, 0 <= k <= len input /\
            lineNum it = newlinesBefore input k /\
            (Type_ it = ItemEOL -> nth_error input (Z.to_nat k) = Some 10).

(** The same for a line, told by its last item. *)
Definition numberedLine (input : gostring) (line : Line) : Prop :=
  exists k, 0 <= k <= len input /\
            LineNum line = newlinesBefore input k /\
            (forall its it, Items line = its ++ [it] -> Type_ it = ItemEOL ->
                            nth_error input (Z.to_nat k) = Some 10).

(** What [Next] keeps: the buffered lines are numbered, and so are the
    terminal items still to come. *)
Definition all_numbered (input : gostring) (p : Parser) : Prop :=
  Forall (numberedLine input) (lines p) /\ Forall (numbered input) (recv p).

(** *** Parsers and parse objects of the examples *)

(** The parser of the one-line input [a] after one [Next]. *)
Definition lineA : Line := mkLine [mkItem ItemEOF [97] 0 []] 0 [97; 1].

Definition parserAtEnd : Parser := mkParser [lineA] 1 [] None.

(** A parse object that counts the lines of the input: its one
    [ParseFn] reads a line and runs again until the end of the input;
    an object that saw no line does not validate. *)
Definition lineCounter : ParseObject nat unit :=
  mkParseObject tt
    (fun _ seen p =>
       '(line, p1) <- Next p ;;
       atEnd <- EOF line ;;
       Returns (S seen, p1, if atEnd then None else Some tt))
    (fun seen => match seen with
                 | O => Some (fmt_Errorf (runes "no line") [])
                 | S _ => None
                 end).

Definition twoLinesParsed : Parser :=
  mkParser
    [mkLine [mkItem ItemText [97] 0 []; mkItem ItemInt [49] 0 [];
             mkItem ItemEOL [10] 0 []] 0 [97; 32; 49; 10];
     mkLine [mkItem ItemEOF [98] 0 []] 1 [98; 1]] 2 [] None.

(** The new parser of the same input, with what the lexer sent. *)
Definition twoLinesFresh : Parser :=
  mkParser [] 0
    [mkItem ItemText [97] 0 []; mkItem ItemInt [49] 0 [];
     mkItem ItemEOL [10] 0 [97; 32; 49; 10];
     mkItem ItemEOF [98] 1 [98; 1]] None.

(** *** Parsers the calls reach *)

(** A line that is not the end of the input. *)
Definition notEnd (l : Line) : Prop := EOF l = Returns false.

(** The cursor is inside the buffer or right behind it; while the
    channel has items, none of the buffered lines ends the input; once
    the channel is empty, the last buffered line does, and it alone. *)
Definition parser_wf (p : Parser) : Prop :=
  0 <= pos p <= len (lines p) /\
  ((ends_EOF (recv p) /\ Forall notEnd (lines p)) \/
   (recv p = [] /\
    exists front lastLine,
      lines p = front ++ [lastLine] /\ EOF lastLine = Returns true /\
      Forall notEnd front)).

(** The lines [Next] can still move the cursor over. *)
Definition remaining (p : Parser) : nat :=
  (Z.to_nat (len (lines p) - pos p) + lineCount (recv p))%nat.

(** *** The words of an input *)

(** [input[a:b]] inside the bounds. *)
Definition between (s : gostring) (a b : Z) : gostring :=
  firstn (Z.to_nat (b - a)) (skipn (Z.to_nat a) s).

(** [strings.Fields]: the maximal runs of runes that are not spaces;
    [cur] is the run at hand. *)
Fixpoint fields_acc (s : gostring) (cur : gostring) : list gostring :=
  match s with
  | [] => match cur with [] => [] | _ => [cur] end
  | r :: s' =>
    if Unicode.IsSpace r
    then match cur with
         | [] => fields_acc s' []
         | _ => cur :: fields_acc s' []
         end
    else fields_acc s' (cur ++ [r])
  end.

Definition fields (s : gostring) : list gostring := fields_acc s [].

Definition isWordB (it : Item) : bool :=
  match Type_ it with
  | ItemText | ItemInt | ItemFloat => true
  | _ => false
  end.

(** The values of the word items, and behind them the value of the
    last item where it is not empty. *)
Definition nonEmpty (v : gostring) : list gostring :=
  match v with [] => [] | _ => [v] end.

Definition wordVals (its : list Item) : list gostring :=
  map Val (filter isWordB its).

(** The type of a word by what it parses as. *)
Definition classifyWord (isInt isFloat : gostring -> bool) (v : gostring)
  : ItemType :=
  if isInt v then ItemInt else if isFloat v then ItemFloat else ItemText.

(** An item in front of the last one: the newline that ends a line,
    with the line number and the raw text, or a word typed by what it
    parses as, without them. *)
Definition classified (isInt isFloat : gostring -> bool) (it : Item) : Prop :=
  (Type_ it = ItemEOL /\ Val it = [10]) \/
  (Type_ it = classifyWord isInt isFloat (Val it) /\
   lineNum it = 0 /\ raw it = [] /\
   Forall (fun r => Unicode.IsSpace r = false) (Val it)).

(** The raw texts of the items, joined. *)
Definition raws (its : list Item) : gostring := concat (map raw its).

(** The words an item and a line carry: the value of a word item, and
    the value of the [ItemEOF] item where it is not empty. *)
Definition itemWords (it : Item) : list gostring :=
  match Type_ it with
  | ItemEOL => []
  | ItemEOF => nonEmpty (Val it)
  | _ => [Val it]
  end.

Definition lineWords (l : Line) : list gostring :=
  concat (map itemWords (Items l)).

End HalfpikeSpec.

(** * Properties *)

(** ** Go values *)

Lemma len_nonneg {A : Type} (l : list A) : 0 <= len l.
Proof. unfold len. lia. Qed.

Lemma len_app {A : Type} (l1 l2 : list A) : len (l1 ++ l2) = len l1 + len l2.
Proof. unfold len. rewrite length_app. lia. Qed.

Lemma len_nil_iff {A : Type} (l : list A) : len l = 0 <-> l = [].
Proof.
  unfold len. destruct l as [|a l]; simpl; split; intros H;
    try reflexivity; try discriminate; lia.
Qed.

Lemma index_at_Returns {A : Type} (l : list A) (i : Z) :
  0 <= i < len l -> exists a, index_at l i = Returns a
                              /\ nth_error l (Z.to_nat i) = Some a.
Proof.
  intros [H0 H1]. unfold index_at.
  destruct (i <? 0) eqn:E; [apply Z.ltb_lt in E; lia|].
  destruct (nth_error l (Z.to_nat i)) as [a|] eqn:N.
  - exists a. split; reflexivity.
  - apply nth_error_None in N. unfold len in H1. lia.
Qed.

Lemma index_at_last {A : Type} (l : list A) (a : A) :
  index_at (l ++ [a]) (len (l ++ [a]) - 1) = Returns a.
Proof.
  assert (H : len (l ++ [a]) - 1 = len l).
  { rewrite len_app. unfold len. simpl. lia. }
  rewrite H. unfold index_at.
  pose proof (len_nonneg l) as Hl.
  destruct (len l <? 0) eqn:E; [apply Z.ltb_lt in E; lia|].
  unfold len. rewrite Nat2Z.id.
  rewrite nth_error_app2 by apply Nat.le_refl.
  rewrite Nat.sub_diag. reflexivity.
Qed.

Lemma last_default {A : Type} (l : list A) (d d' : A) :
  l <> [] -> last l d = last l d'.
Proof.
  induction l as [|a l IH]; [congruence|]. intros _.
  destruct l as [|b l]; [reflexivity|].
  change (last (b :: l) d = last (b :: l) d'). apply IH. discriminate.
Qed.

Lemma gostring_eqb_eq (a b : gostring) : gostring_eqb a b = true <-> a = b.
Proof.
  unfold gostring_eqb. destruct (list_eq_dec Z.eq_dec a b); split;
    intros; try assumption; try reflexivity; try discriminate; contradiction.
Qed.

(** ** Package line *)

Module LineProps.
Import Line LineSpec.

Lemma ItemType_eqb_eq (a b : ItemType) : ItemType_eqb a b = true <-> a = b.
Proof. destruct a, b; simpl; split; intros; congruence. Qed.

Section NewProps.

Variable IsNumber : rune -> bool.

Lemma New_step_started (s : scan) (r : rune) : started (New_step IsNumber s r).
Proof.
  unfold started, New_step.
  destruct (Unicode.IsSpace r).
  - left. destruct (r =? 10); simpl; intros H; apply app_eq_nil in H;
      destruct H; discriminate.
  - right. destruct (IsNumber r); [|destruct (r =? 46)]; simpl;
      intros H; apply app_eq_nil in H; destruct H; discriminate.
Qed.

Lemma fold_New_step_started (line : gostring) (s : scan) :
  started s -> started (fold_left (New_step IsNumber) line s).
Proof.
  revert s. induction line as [|r line IH]; intros s Hs; simpl.
  - exact Hs.
  - apply IH. apply New_step_started.
Qed.

Lemma New_loop_started (line : gostring) :
  line <> [] -> started (New_loop IsNumber line).
Proof.
  destruct line as [|r line]; [congruence|]. intros _.
  unfold New_loop. simpl. apply fold_New_step_started, New_step_started.
Qed.

Lemma closed_items_nonempty (line : gostring) :
  line <> [] -> closed_items IsNumber line <> [].
Proof.
  intros H. apply New_loop_started in H. unfold closed_items.
  destruct (0 <? len (buff (New_loop IsNumber line))) eqn:E.
  - intros C. apply app_eq_nil in C. destruct C; discriminate.
  - destruct H as [H|H]; [exact H|].
    apply Z.ltb_ge in E. pose proof (len_nonneg (buff (New_loop IsNumber line))).
    exfalso. apply H. apply len_nil_iff. lia.
Qed.

(** On a line that is not empty [New] returns, and the items end with
    the one terminal item that the last statement of [New] settles. *)
Lemma New_Returns (line : gostring) :
  line <> [] ->
  exists its it,
    closed_items IsNumber line = its ++ [it] /\
    New IsNumber line =
      Returns (mkLexer 0 (if ItemType_eqb (Type_ it) ItemEOL
                          then its ++ [it]
                          else its ++ [it] ++ [mkItem ItemEOF []])).
Proof.
  intros H. pose proof (closed_items_nonempty line H) as Hne.
  destruct (exists_last Hne) as [its [it Hc]].
  exists its, it. split; [exact Hc|].
  unfold New. fold (closed_items IsNumber line). rewrite Hc.
  rewrite index_at_last. simpl.
  destruct (ItemType_eqb (Type_ it) ItemEOL); simpl.
  - reflexivity.
  - rewrite <- app_assoc. reflexivity.
Qed.

Lemma New_items_nonempty (line : gostring) (l : Lexer) :
  New IsNumber line = Returns l -> items l <> [] /\ index l = 0.
Proof.
  unfold New. fold (closed_items IsNumber line).
  destruct (index_at (closed_items IsNumber line) (len (closed_items IsNumber line) - 1))
    as [it| |] eqn:E; simpl; try discriminate.
  destruct (negb (ItemType_eqb (Type_ it) ItemEOL)); intros H;
    inversion H; subst; simpl; split; try reflexivity.
  - intros C. apply app_eq_nil in C. destruct C; discriminate.
  - intros C. rewrite C in E. discriminate.
Qed.

(** *** The flags of the loop and the type of a run *)

Lemma classify_flags (negOk : bool) (run : gostring) :
  run <> [] ->
  classify IsNumber negOk run =
    if numOk IsNumber negOk run && hasPoint IsNumber run then ItemFloat
    else if numOk IsNumber negOk run then ItemInt else ItemText.
Proof.
  destruct run as [|c t]; [congruence|]. intros _. simpl.
  destruct ((IsNumber c || negOk && negb (c =? 46) && (c =? 45))
            && forallb (fun r => IsNumber r || (r =? 46)) t); simpl;
    [destruct (existsb (isPoint IsNumber) t)|]; reflexivity.
Qed.

Lemma closeScan_closeRun (s : scan) (negOk : bool) :
  agrees IsNumber s negOk ->
  closeScan s = s_items s ++ closeRun (classify IsNumber) negOk (buff s).
Proof.
  intros [HN [HF _]]. unfold closeScan, closeRun, buffItem.
  destruct (buff s) as [|c t] eqn:B.
  - simpl. rewrite app_nil_r. reflexivity.
  - replace (0 <? len (c :: t)) with true
      by (symmetry; apply Z.ltb_lt; unfold len; simpl; lia).
    rewrite classify_flags by discriminate.
    rewrite HN, HF.
    destruct (numOk IsNumber negOk (c :: t)); destruct (hasPoint IsNumber (c :: t)); reflexivity.
Qed.

Lemma lastIsSpace_snoc (its : list Item) (it : Item) :
  lastIsSpace (its ++ [it]) = ItemType_eqb (Type_ it) ItemSpace.
Proof. unfold lastIsSpace. rewrite index_at_last. reflexivity. Qed.

Lemma len_snoc_eqb {A : Type} (l : list A) (a : A) : (len (l ++ [a]) =? 0) = false.
Proof.
  apply Z.eqb_neq. rewrite len_app. pose proof (len_nonneg l).
  unfold len at 2. simpl. lia.
Qed.

Lemma numOk_snoc (negOk : bool) (c : rune) (t : gostring) (r : rune) :
  numOk IsNumber negOk ((c :: t) ++ [r]) = numOk IsNumber negOk (c :: t) && (IsNumber r || (r =? 46)).
Proof.
  simpl. rewrite forallb_app. simpl. rewrite andb_true_r, andb_assoc. reflexivity.
Qed.

Lemma hasPoint_snoc (c : rune) (t : gostring) (r : rune) :
  hasPoint IsNumber ((c :: t) ++ [r]) = hasPoint IsNumber (c :: t) || isPoint IsNumber r.
Proof. simpl. rewrite existsb_app. simpl. rewrite orb_false_r. reflexivity. Qed.

(** A space rune closes the pending run and adds its own item. *)
Lemma New_step_space (s : scan) (negOk : bool) (r : rune) :
  Unicode.IsSpace r = true -> agrees IsNumber s negOk ->
  let s' := New_step IsNumber s r in
  s_items s' = s_items s ++ closeRun (classify IsNumber) negOk (buff s)
                         ++ [spaceItem r]
  /\ buff s' = [] /\ agrees IsNumber s' (negb (r =? 10)).
Proof.
  intros Hsp Hag. pose proof (closeScan_closeRun s negOk Hag) as Hc.
  unfold closeScan in Hc. unfold New_step. rewrite Hsp.
  unfold agrees, spaceItem.
  destruct (0 <? len (buff s)) eqn:B.
  - rewrite Hc. destruct (r =? 10); simpl; rewrite <- app_assoc;
      (split; [reflexivity|]); (split; [reflexivity|]);
      rewrite app_assoc, lastIsSpace_snoc, len_snoc_eqb; simpl; auto.
  - apply Z.ltb_ge in B. pose proof (len_nonneg (buff s)).
    assert (Hb : buff s = []) by (apply len_nil_iff; lia).
    destruct Hag as [HN [HF _]]. rewrite Hb in HN, HF. simpl in HN, HF.
    destruct (r =? 10); simpl; rewrite ?Hb; simpl;
      (split; [reflexivity|]); (split; [reflexivity|]);
      rewrite lastIsSpace_snoc, len_snoc_eqb, HN, HF; simpl; auto.
Qed.

(** Any other rune joins the pending run, and the flags follow. *)
Lemma New_step_run (s : scan) (negOk : bool) (r : rune) (rest : gostring) :
  Unicode.IsSpace r = false -> agrees IsNumber s negOk ->
  noInnerMinus s (r :: rest) ->
  let s' := New_step IsNumber s r in
  s_items s' = s_items s /\ buff s' = buff s ++ [r]
  /\ agrees IsNumber s' negOk /\ noInnerMinus s' rest.
Proof.
  intros Hsp [HN [HF HO]] Hno. simpl.
  assert (Hno' : s_items s = [] -> ~ In 45 (tl ((buff s ++ [r]) ++ firstRun rest))).
  { intros E. specialize (Hno E). simpl in Hno. rewrite Hsp in Hno.
    rewrite <- app_assoc. exact Hno. }
  assert (Hitems : s_items (New_step IsNumber s r) = s_items s).
  { unfold New_step. rewrite Hsp.
    destruct (IsNumber r); [|destruct (r =? 46)]; reflexivity. }
  assert (Hbuff : buff (New_step IsNumber s r) = buff s ++ [r]).
  { unfold New_step. rewrite Hsp.
    destruct (IsNumber r); [|destruct (r =? 46)]; reflexivity. }
  split; [exact Hitems|]. split; [exact Hbuff|]. split.
  - unfold agrees. rewrite Hbuff, Hitems. split; [|split; [|exact HO]].
    + unfold New_step. rewrite Hsp.
      destruct (buff s) as [|c t] eqn:B.
      * simpl. destruct (IsNumber r) eqn:Nr; simpl; [reflexivity|].
        destruct (r =? 46) eqn:Pr; simpl.
        { rewrite HN. simpl. rewrite andb_false_r. reflexivity. }
        { rewrite (andb_true_r (lastIsSpace (s_items s))), <- HO.
          destruct negOk; destruct (r =? 45); reflexivity. }
      * rewrite numOk_snoc.
        replace (len (c :: t) =? 0) with false
          by (symmetry; apply Z.eqb_neq; unfold len; simpl; lia).
        destruct (IsNumber r) eqn:Nr; cbn [isFloat isNumber negb andb orb].
        { rewrite HN, andb_true_r. reflexivity. }
        destruct (r =? 46) eqn:Pr; cbn [isFloat isNumber negb andb orb].
        { rewrite HN, andb_true_r. reflexivity. }
        { rewrite !andb_false_r, orb_false_r.
          destruct (len (s_items s) =? 0) eqn:L; [|reflexivity].
          apply Z.eqb_eq, len_nil_iff in L. specialize (Hno' L).
          destruct (r =? 45) eqn:Mr; [|reflexivity].
          apply Z.eqb_eq in Mr. subst r. exfalso. apply Hno'. simpl.
          rewrite <- app_assoc. apply in_or_app. right. left. reflexivity. }
    + unfold New_step. rewrite Hsp.
      destruct (buff s) as [|c t] eqn:B.
      * simpl. destruct (IsNumber r) eqn:Nr; simpl.
        { rewrite HF. simpl. reflexivity. }
        destruct (r =? 46) eqn:Pr; simpl.
        { rewrite HN, HF. simpl. rewrite andb_false_r. reflexivity. }
        { rewrite andb_false_r. reflexivity. }
      * rewrite numOk_snoc, hasPoint_snoc. unfold isPoint.
        destruct (IsNumber r) eqn:Nr; cbn [isFloat isNumber negb andb orb].
        { rewrite HF, andb_true_r, orb_false_r. reflexivity. }
        destruct (r =? 46) eqn:Pr; cbn [isFloat isNumber negb andb orb].
        { rewrite HN, HF, andb_true_r, orb_true_r, andb_true_r.
          destruct (numOk IsNumber negOk (c :: t)); reflexivity. }
        { rewrite andb_false_r. reflexivity. }
  - unfold noInnerMinus. rewrite Hitems, Hbuff. exact Hno'.
Qed.

Lemma fold_tokens (line : gostring) : forall (s : scan) (negOk : bool),
  agrees IsNumber s negOk -> noInnerMinus s line ->
  closeScan (fold_left (New_step IsNumber) line s)
  = s_items s ++ tokens (classify IsNumber) negOk (buff s) line.
Proof.
  induction line as [|r rest IH]; intros s negOk Hag Hno; simpl.
  - apply closeScan_closeRun. exact Hag.
  - destruct (Unicode.IsSpace r) eqn:Hsp.
    + destruct (New_step_space s negOk r Hsp Hag) as [Hi [Hb Hag']].
      rewrite (IH _ (negb (r =? 10)) Hag').
      * rewrite Hi, Hb. rewrite <- !app_assoc. reflexivity.
      * unfold noInnerMinus. rewrite Hi. intros C.
        apply app_eq_nil in C. destruct C as [_ C].
        apply app_eq_nil in C. destruct C as [_ C]. discriminate.
    + destruct (New_step_run s negOk r rest Hsp Hag Hno) as [Hi [Hb [Hag' Hno']]].
      rewrite (IH _ negOk Hag' Hno'). rewrite Hi, Hb. reflexivity.
Qed.

(** *** The first run *)

Lemma lastOther_snoc (run : gostring) (r : rune) :
  lastOther IsNumber (run ++ [r])
  = if numOrPoint IsNumber r then lastOther IsNumber run else Some r.
Proof.
  induction run as [|c run IH]; cbn [app lastOther].
  - destruct (numOrPoint IsNumber r); reflexivity.
  - rewrite IH. destruct (numOrPoint IsNumber r); [reflexivity|reflexivity].
Qed.

Lemma numTail_snoc (run : gostring) (r : rune) :
  numTail IsNumber (run ++ [r])
  = if numOrPoint IsNumber r then numTail IsNumber run ++ [r] else [].
Proof.
  induction run as [|c run IH].
  - cbn [app numTail forallb]. rewrite andb_true_r.
    destruct (numOrPoint IsNumber r); reflexivity.
  - change ((c :: run) ++ [r]) with (c :: (run ++ [r])).
    cbn [numTail]. rewrite IH.
    change (forallb (numOrPoint IsNumber) (c :: run ++ [r]))
      with (numOrPoint IsNumber c && forallb (numOrPoint IsNumber) (run ++ [r])).
    change (forallb (numOrPoint IsNumber) (c :: run))
      with (numOrPoint IsNumber c && forallb (numOrPoint IsNumber) run).
    rewrite forallb_app. cbn [forallb]. rewrite andb_true_r.
    destruct (numOrPoint IsNumber r).
    + rewrite andb_true_r.
      destruct (numOrPoint IsNumber c && forallb (numOrPoint IsNumber) run);
        reflexivity.
    + rewrite !andb_false_r. reflexivity.
Qed.

Lemma numFirst_snoc (run : gostring) (r : rune) :
  numFirst IsNumber (run ++ [r])
  = if numOrPoint IsNumber r
    then match run with
         | [] => IsNumber r
         | _ :: _ => numFirst IsNumber run
         end
    else r =? 45.
Proof.
  unfold numFirst. rewrite lastOther_snoc.
  destruct (numOrPoint IsNumber r); [|reflexivity].
  destruct run as [|c run]; reflexivity.
Qed.

(** A rune of the first run joins the buffer, and the flags follow. *)
Lemma New_step_first (s : scan) (r : rune) :
  Unicode.IsSpace r = false -> agreesFirst IsNumber s ->
  buff (New_step IsNumber s r) = buff s ++ [r] /\
  agreesFirst IsNumber (New_step IsNumber s r).
Proof.
  intros Hsp [Hi [HN HF]]. unfold agreesFirst, New_step. rewrite Hsp.
  destruct (IsNumber r) eqn:Nr.
  - cbn [s_items buff isNumber isFloat].
    split; [reflexivity|]. split; [exact Hi|].
    rewrite numFirst_snoc, numTail_snoc. unfold numOrPoint. rewrite Nr.
    cbn [orb]. rewrite existsb_app. cbn [existsb]. unfold isPoint at 2.
    rewrite Nr. cbn [negb andb orb]. rewrite orb_false_r.
    destruct (buff s) as [|c t] eqn:B.
    + cbn [len length Z.of_nat Z.eqb]. split; [reflexivity|].
      rewrite HF. reflexivity.
    + replace (len (c :: t) =? 0) with false
        by (symmetry; apply Z.eqb_neq; unfold len; simpl; lia).
      split; [exact HN|exact HF].
  - destruct (r =? 46) eqn:Pr.
    + cbn [s_items buff isNumber isFloat].
      split; [reflexivity|]. split; [exact Hi|].
      rewrite numFirst_snoc, numTail_snoc. unfold numOrPoint. rewrite Nr, Pr.
      cbn [orb]. rewrite existsb_app. cbn [existsb]. unfold isPoint at 2.
      rewrite Nr, Pr. cbn [negb andb orb]. rewrite orb_true_r, andb_true_r.
      destruct (buff s) as [|c t] eqn:B.
      * rewrite HF, HN. split; reflexivity.
      * split; [exact HN|]. rewrite HF, HN.
        destruct (numFirst IsNumber (c :: t)); reflexivity.
    + cbn [s_items buff isNumber isFloat].
      split; [reflexivity|]. split; [exact Hi|].
      rewrite numFirst_snoc, numTail_snoc. unfold numOrPoint. rewrite Nr, Pr.
      cbn [orb existsb]. rewrite andb_false_r, Hi.
      cbn [len length Z.of_nat Z.eqb orb].
      split; [destruct (r =? 45); reflexivity|reflexivity].
Qed.

(** The pending first run is closed with the type [classifyFirst]
    gives it. *)
Lemma closeScan_first (s : scan) :
  agreesFirst IsNumber s ->
  closeScan s = closeRun (fun _ => classifyFirst IsNumber) true (buff s).
Proof.
  intros [Hi [HN HF]]. unfold closeScan, closeRun, buffItem, classifyFirst.
  rewrite Hi. destruct (buff s) as [|c t] eqn:B.
  - reflexivity.
  - replace (0 <? len (c :: t)) with true
      by (symmetry; apply Z.ltb_lt; unfold len; simpl; lia).
    rewrite HN, HF. cbn [app].
    destruct (numFirst IsNumber (c :: t));
      destruct (existsb (isPoint IsNumber) (numTail IsNumber (c :: t)));
      reflexivity.
Qed.

(** The first space rune closes the first run and adds its own item. *)
Lemma New_step_first_space (s : scan) (r : rune) :
  Unicode.IsSpace r = true -> agreesFirst IsNumber s ->
  s_items (New_step IsNumber s r)
  = closeRun (fun _ => classifyFirst IsNumber) true (buff s) ++ [spaceItem r]
  /\ buff (New_step IsNumber s r) = []
  /\ agrees IsNumber (New_step IsNumber s r) (negb (r =? 10)).
Proof.
  intros Hsp Hag. pose proof (closeScan_first s Hag) as Hc.
  destruct Hag as [Hi [HN HF]].
  unfold closeScan in Hc. unfold New_step. rewrite Hsp.
  unfold agrees, spaceItem.
  destruct (0 <? len (buff s)) eqn:B.
  - rewrite Hc. destruct (r =? 10); cbn [s_items buff isNumber isFloat];
      (split; [reflexivity|]); (split; [reflexivity|]);
      rewrite lastIsSpace_snoc, len_snoc_eqb; simpl; auto.
  - apply Z.ltb_ge in B. pose proof (len_nonneg (buff s)).
    assert (Hb : buff s = []) by (apply len_nil_iff; lia).
    rewrite Hb in HN, HF. cbn in HN, HF. rewrite Hb, Hi.
    destruct (r =? 10); cbn [s_items buff isNumber isFloat closeRun];
      (split; [reflexivity|]); (split; [reflexivity|]);
      rewrite (lastIsSpace_snoc []), (len_snoc_eqb []), HN, HF; simpl; auto.
Qed.

Lemma fold_lineTokens (line : gostring) : forall s : scan,
  agreesFirst IsNumber s ->
  closeScan (fold_left (New_step IsNumber) line s)
  = lineTokens IsNumber (buff s) line.
Proof.
  induction line as [|r rest IH]; intros s Hag; cbn [fold_left lineTokens].
  - apply closeScan_first. exact Hag.
  - destruct (Unicode.IsSpace r) eqn:Hsp.
    + destruct (New_step_first_space s r Hsp Hag) as [Hi [Hb Hag']].
      rewrite (fold_tokens rest _ (negb (r =? 10)) Hag').
      * rewrite Hi, Hb, <- app_assoc. reflexivity.
      * unfold noInnerMinus. rewrite Hi. intros C.
        apply app_eq_nil in C. destruct C as [_ C]. discriminate.
    + destruct (New_step_first s r Hsp Hag) as [Hb Hag'].
      rewrite (IH _ Hag'), Hb. reflexivity.
Qed.

Lemma withTerminal_snoc (its : list Item) (it : Item) :
  withTerminal (its ++ [it]) =
    if ItemType_eqb (Type_ it) ItemEOL then its ++ [it]
    else its ++ [it] ++ [mkItem ItemEOF []].
Proof.
  unfold withTerminal. rewrite map_app. simpl. rewrite last_last.
  destruct (ItemType_eqb (Type_ it) ItemEOL); [reflexivity|].
  rewrite <- app_assoc. reflexivity.
Qed.

End NewProps.

(** *** The cursor of the lexer *)

Lemma Next_cursor_ok (l : Lexer) :
  cursor_ok l ->
  exists it l', Next l = Returns (it, l') /\ items l' = items l
                /\ cursor_ok l'
                /\ (Type_ it = ItemEOL -> index l' = index l).
Proof.
  intros [Hne [H0 H1]]. unfold Next.
  destruct (index l <? len (items l)) eqn:E.
  - apply Z.ltb_lt in E.
    destruct (index_at_Returns (items l) (index l)) as [it [Hit _]]; [lia|].
    rewrite Hit. simpl.
    destruct (ItemType_eqb (Type_ it) ItemEOL) eqn:T; simpl.
    + exists it, l. unfold cursor_ok. intuition auto.
    + exists it, (mkLexer (index l + 1) (items l)). unfold cursor_ok. simpl.
      split; [reflexivity|]. split; [reflexivity|].
      split; [split; [exact Hne|lia]|].
      intros C. apply ItemType_eqb_eq in C. congruence.
  - assert (0 < len (items l)).
    { pose proof (len_nonneg (items l)).
      destruct (Z.eq_dec (len (items l)) 0) as [C|C]; [|lia].
      apply len_nil_iff in C. contradiction. }
    destruct (index_at_Returns (items l) (len (items l) - 1)) as [it [Hit _]];
      [lia|].
    rewrite Hit. simpl. exists it, l. unfold cursor_ok. intuition auto.
Qed.

Lemma Backup_cursor_ok (l : Lexer) :
  cursor_ok l -> items (Backup l) = items l /\ cursor_ok (Backup l).
Proof.
  intros [Hne [H0 H1]]. unfold Backup, cursor_ok.
  destruct (0 <=? index l - 1) eqn:E; simpl.
  - apply Z.leb_le in E. split; [reflexivity|]. split; [exact Hne|lia].
  - intuition auto.
Qed.

Lemma do_call_cursor_ok (c : call) (l : Lexer) :
  cursor_ok l -> in_range l c ->
  exists l', do_call c l = Returns l' /\ items l' = items l /\ cursor_ok l'.
Proof.
  intros Hok Hr. destruct c as [| | |i]; simpl.
  - destruct (Next_cursor_ok l Hok) as [it [l' [HN [Hi [Hok' _]]]]].
    rewrite HN. simpl. eauto.
  - destruct (Backup_cursor_ok l Hok) as [Hi Hok']. eauto.
  - unfold Peek.
    destruct (Next_cursor_ok l Hok) as [it [l' [HN [Hi [Hok' _]]]]].
    rewrite HN. simpl.
    destruct (Backup_cursor_ok l' Hok') as [Hi' Hok''].
    exists (Backup l'). split; [reflexivity|]. split; [congruence|exact Hok''].
  - simpl in Hr. unfold Len in Hr. unfold SetIndex.
    destruct (i <? 0) eqn:E0; [apply Z.ltb_lt in E0; lia|].
    destruct (len (items l) <=? i) eqn:E1; [apply Z.leb_le in E1; lia|].
    exists (mkLexer i (items l)). destruct Hok as [Hne _].
    unfold cursor_ok. simpl. split; [reflexivity|]. split; [reflexivity|].
    split; [exact Hne|lia].
Qed.

(** Every [SetIndex] of the sequence is in range when it is made. The
    items never change, so the range is that of the first lexer. *)
Lemma do_calls_cursor_ok (cs : list call) (l : Lexer) :
  cursor_ok l -> Forall (in_range l) cs ->
  exists l', do_calls cs l = Returns l' /\ items l' = items l /\ cursor_ok l'.
Proof.
  revert l. induction cs as [|c cs IH]; intros l Hok Hr; simpl.
  - eauto.
  - inversion Hr as [|c' cs' Hc Hcs]; subst.
    destruct (do_call_cursor_ok c l Hok Hc) as [l1 [H1 [Hi1 Hok1]]].
    rewrite H1. simpl.
    destruct (IH l1 Hok1) as [l' [H' [Hi' Hok']]].
    + eapply Forall_impl; [|exact Hcs].
      intros a. destruct a; simpl; auto. unfold Len. rewrite Hi1. auto.
    + exists l'. split; [exact H'|]. split; [congruence|exact Hok'].
Qed.

(** *** A line without spaces is one item *)

Lemma fold_New_step_run (IsNumber : rune -> bool) (line : gostring) :
  forall s : scan,
  Forall (fun r => Unicode.IsSpace r = false) line ->
  s_items (fold_left (New_step IsNumber) line s) = s_items s /\
  buff (fold_left (New_step IsNumber) line s) = buff s ++ line.
Proof.
  induction line as [|r rest IH]; intros s H; simpl.
  - rewrite app_nil_r. auto.
  - inversion H as [|r' rest' Hr Hrest]; subst.
    destruct (IH (New_step IsNumber s r) Hrest) as [Hi Hb].
    rewrite Hi, Hb. unfold New_step. rewrite Hr.
    destruct (IsNumber r); [|destruct (r =? 46)]; simpl;
      rewrite <- app_assoc; auto.
Qed.

Lemma New_single_run (IsNumber : rune -> bool) (line : gostring) :
  line <> [] ->
  Forall (fun r => Unicode.IsSpace r = false) line ->
  exists t, isWord t /\
    New IsNumber line = Returns (mkLexer 0 [mkItem t line; mkItem ItemEOF []]).
Proof.
  intros Hne Hns.
  destruct (fold_New_step_run IsNumber line (mkScan [] [] false false) Hns)
    as [Hi Hb].
  simpl in Hi, Hb. unfold New. fold (New_loop IsNumber line) in Hi, Hb.
  rewrite Hi, Hb.
  replace (0 <? len line) with true.
  - simpl.
    exists (Type_ (buffItem (New_loop IsNumber line))). unfold buffItem, isWord.
    rewrite Hb.
    destruct (isNumber (New_loop IsNumber line) && isFloat (New_loop IsNumber line));
      [|destruct (isNumber (New_loop IsNumber line))]; simpl; auto.
  - symmetry. apply Z.ltb_lt. pose proof (len_nonneg line).
    destruct (Z.eq_dec (len line) 0) as [C|C]; [|lia].
    apply len_nil_iff in C. contradiction.
Qed.

(** *** Decoding inside a quoted entry *)

Section DecodeProps.

Variable c : chars.

Lemma decode_rune_ordinary (r : rune) (rest : gostring) (s : dstate) :
  ordinary c r -> inQuote s = true -> foundLeftConstraint s = true ->
  decode_rune c r rest s = (write s r, None).
Proof.
  intros [Hsp [Hlc [Hrc [Hsep Hq]]]] HQ HL.
  unfold decode_rune, decode_switch. cbn [incr_read foundLeftConstraint read inQuote].
  rewrite HL, HQ, Hsp. cbn [negb]. rewrite andb_false_r.
  apply Z.eqb_neq in Hlc, Hrc, Hsep, Hq. rewrite Hlc, Hrc, Hsep, Hq.
  reflexivity.
Qed.

Lemma write_fields (s : dstate) (r : rune) :
  inQuote (write s r) = inQuote s /\
  foundLeftConstraint (write s r) = foundLeftConstraint s /\
  foundRightConstraint (write s r) = foundRightConstraint s /\
  results (write s r) = results s /\
  entry (write s r) = entry s ++ [r] /\
  last (write s r) = r /\
  read (write s r) = read s + 1.
Proof. unfold write. simpl. repeat split; reflexivity. Qed.

Lemma fold_write_fields (w : gostring) : forall s : dstate,
  inQuote (fold_left write w s) = inQuote s /\
  foundLeftConstraint (fold_left write w s) = foundLeftConstraint s /\
  foundRightConstraint (fold_left write w s) = foundRightConstraint s /\
  results (fold_left write w s) = results s /\
  entry (fold_left write w s) = entry s ++ w /\
  last (fold_left write w s) = List.last w (last s) /\
  read (fold_left write w s) = read s + len w.
Proof.
  induction w as [|r w IH]; intros s.
  - simpl. rewrite app_nil_r. unfold len. simpl. rewrite Z.add_0_r.
    repeat split; reflexivity.
  - cbn [fold_left].
    destruct (IH (write s r)) as [H1 [H2 [H3 [H4 [H5 [H6 H7]]]]]].
    destruct (write_fields s r) as [W1 [W2 [W3 [W4 [W5 [W6 W7]]]]]].
    rewrite H1, H2, H3, H4, H5, H6, H7, W1, W2, W3, W4, W5, W6, W7.
    repeat split; try reflexivity.
    + rewrite <- app_assoc. reflexivity.
    + destruct w as [|r' w']; [reflexivity|].
      change (List.last (r :: r' :: w') (last s))
        with (List.last (r' :: w') (last s)).
      apply last_default. discriminate.
    + unfold len. simpl length. lia.
Qed.

Lemma decode_reader_ordinary (w rest : gostring) : forall s : dstate,
  Forall (ordinary c) w -> inQuote s = true -> foundLeftConstraint s = true ->
  decode_reader c (w ++ rest) s = decode_reader c rest (fold_left write w s).
Proof.
  induction w as [|r w IH]; intros s Hw HQ HL; [reflexivity|].
  inversion Hw as [|r' w' Hr Hw']; subst.
  cbn [app decode_reader fold_left].
  rewrite (decode_rune_ordinary r (w ++ rest) s Hr HQ HL).
  destruct (write_fields s r) as [W1 [W2 _]].
  apply IH; [exact Hw'|congruence|congruence].
Qed.

(** Inside a quoted entry, a quote that follows the escape character is
    written to the entry; the entry stays open. *)
Lemma decode_rune_escaped_quote (rest : gostring) (s : dstate) :
  distinct_chars c -> inQuote s = true -> foundLeftConstraint s = true ->
  last s = escape c ->
  decode_rune c (q c) rest s = (write s (q c), None).
Proof.
  intros [He [_ [_ [Hqs [Hql _]]]]] HQ HL Hlast.
  unfold decode_rune, decode_switch. cbn [incr_read foundLeftConstraint read inQuote last].
  rewrite HL, HQ, Hqs, Hlast. cbn [negb]. rewrite andb_false_r.
  apply Z.eqb_neq in Hql, He. rewrite Hql, He, !Z.eqb_refl. reflexivity.
Qed.

(** A quote that does not follow the escape character closes the open
    entry. *)
Lemma decode_rune_close_quote (rest : gostring) (s : dstate) :
  distinct_chars c -> inQuote s = true -> foundLeftConstraint s = true ->
  last s <> escape c ->
  exists s', decode_rune c (q c) rest s = (s', None) /\
    inQuote s' = false /\ foundLeftConstraint s' = true /\
    foundRightConstraint s' = foundRightConstraint s /\
    results s' = results s ++ [entry s] /\ read s' = read s + 1.
Proof.
  intros [He [_ [_ [Hqs [Hql _]]]]] HQ HL Hlast.
  unfold decode_rune, decode_switch.
  cbn [incr_read foundLeftConstraint read inQuote last].
  rewrite HL, Hqs. cbn [negb]. rewrite andb_false_r.
  apply Z.eqb_neq in Hql, Hlast. rewrite Hql, Hlast, Z.eqb_refl, andb_false_r.
  unfold toggleQuote. cbn [inQuote incr_read]. rewrite HQ.
  eexists. split; [reflexivity|]. simpl. rewrite HL. auto.
Qed.

(** The left delimiter as the first rune, and the quote after it. *)
Lemma decode_reader_open (rest : gostring) :
  distinct_chars c ->
  exists s, decode_reader c (lc c :: q c :: rest) dstate0
            = decode_reader c rest s /\
    inQuote s = true /\ foundLeftConstraint s = true /\
    foundRightConstraint s = false /\ results s = [] /\ entry s = [] /\
    read s = 2.
Proof.
  intros [He [[_ [Hel _]] [_ [Hqs [Hql _]]]]].
  assert (Hle : (lc c =? escape c) = false)
    by (apply Z.eqb_neq; intros C; apply Hel; symmetry; exact C).
  apply Z.eqb_neq in Hql.
  cbn [decode_reader].
  unfold decode_rune, decode_switch, deferred, set_foundLeftConstraint,
    toggleQuote, entry_WriteRune, incr_read, dstate0.
  simpl. rewrite Z.eqb_refl. simpl.
  rewrite Hql, Hqs, Z.eqb_refl, Hle, andb_false_r. simpl.
  eexists. split; [reflexivity|]. simpl. auto 10.
Qed.

(** The right delimiter as the last rune of an item closes the list. *)
Lemma decode_rune_right (s : dstate) :
  distinct_chars c -> inQuote s = false -> foundLeftConstraint s = true ->
  0 < read s ->
  exists s', decode_rune c (rc c) [] s = (s', None) /\
    foundRightConstraint s' = true /\ results s' = results s.
Proof.
  intros [He [_ [_ [_ [_ [Hrs [Hrl [Hrq Hrsep]]]]]]]] HQ HL Hread.
  unfold decode_rune, decode_switch.
  cbn [incr_read foundLeftConstraint read inQuote last].
  rewrite HL, HQ, Hrs. cbn [negb]. rewrite andb_false_r.
  apply Z.eqb_neq in Hrl, Hrq, Hrsep. rewrite Hrl, Hrq, Hrsep, Z.eqb_refl.
  replace (read s + 1 =? 1) with false by (symmetry; apply Z.eqb_neq; lia).
  eexists. split; [reflexivity|]. simpl. auto.
Qed.

(** The runes of a list whose one entry holds an escaped quote. *)
Lemma decode_reader_escaped_entry (a b : gostring) :
  distinct_chars c ->
  Forall (ordinary c) a -> Forall (ordinary c) b -> ~ In (escape c) b ->
  exists s,
    decode_reader c
      (lc c :: q c :: a ++ escape c :: q c :: b ++ [q c; rc c]) dstate0
    = (s, None) /\
    foundRightConstraint s = true /\
    results s = [a ++ escape c :: q c :: b].
Proof.
  intros Hd Ha Hb Hnb.
  destruct (decode_reader_open (a ++ escape c :: q c :: b ++ [q c; rc c]) Hd)
    as [s2 [E2 [Q2 [L2 [R2 [Res2 [En2 Rd2]]]]]]].
  rewrite E2.
  assert (Hesc : ordinary c (escape c)) by apply Hd.
  replace (a ++ escape c :: q c :: b ++ [q c; rc c])
    with ((a ++ [escape c]) ++ q c :: b ++ [q c; rc c])
    by (rewrite <- app_assoc; reflexivity).
  rewrite decode_reader_ordinary;
    [|apply Forall_app; split; [exact Ha|constructor; [exact Hesc|constructor]]
     |exact Q2|exact L2].
  destruct (fold_write_fields (a ++ [escape c]) s2)
    as [Q3 [L3 [R3 [Res3 [En3 [La3 Rd3]]]]]].
  set (s3 := fold_left write (a ++ [escape c]) s2) in *.
  rewrite last_last in La3.
  cbn [decode_reader].
  rewrite (decode_rune_escaped_quote _ s3 Hd);
    [|congruence|congruence|exact La3].
  destruct (write_fields s3 (q c)) as [Q4 [L4 [R4 [Res4 [En4 [La4 Rd4]]]]]].
  set (s4 := write s3 (q c)) in *.
  rewrite decode_reader_ordinary; [|exact Hb|congruence|congruence].
  destruct (fold_write_fields b s4) as [Q5 [L5 [R5 [Res5 [En5 [La5 Rd5]]]]]].
  set (s5 := fold_left write b s4) in *.
  assert (Hlast5 : last s5 <> escape c).
  { rewrite La5, La4. destruct b as [|x b'].
    - simpl. intros C. destruct Hesc as [_ [_ [_ [_ Hq]]]]. apply Hq.
      symmetry. exact C.
    - intros C. apply Hnb. rewrite <- C.
      rewrite (last_default (x :: b') (q c) x) by discriminate.
      destruct (@exists_last _ (x :: b') ltac:(discriminate)) as [pre [z Hz]].
      rewrite Hz. rewrite last_last. apply in_or_app. right. left. reflexivity. }
  cbn [decode_reader].
  destruct (decode_rune_close_quote [rc c] s5 Hd) as [s6 [E6 [Q6 [L6 [R6 [Res6 Rd6]]]]]];
    [congruence|congruence|exact Hlast5|].
  rewrite E6.
  destruct (decode_rune_right s6 Hd Q6 L6) as [s7 [E7 [R7 Res7]]].
  { rewrite Rd6, Rd5, Rd4, Rd3, Rd2.
    pose proof (len_nonneg b). pose proof (len_nonneg (a ++ [escape c])). lia. }
  rewrite E7. cbn [decode_reader].
  exists s7. split; [reflexivity|]. split; [exact R7|].
  rewrite Res7, Res6, Res5, Res4, Res3, Res2, En5, En4, En3, En2.
  simpl. rewrite <- !app_assoc. reflexivity.
Qed.

End DecodeProps.

(** *** The fuel of [Decode] *)

(** On a lexer whose last item is terminal, every round of the outer
    loop returns or moves the cursor, so the loop does not run out of
    fuel given one round per item left and one more. *)
Lemma decode_loop_fuel (c : chars) (its : list Item) (t : Item) (fuel : nat) :
  isTerminalType (Type_ t) ->
  forall (i : Z) (s : dstate),
  0 <= i ->
  len (its ++ [t]) - i < Z.of_nat fuel ->
  (0 < fuel)%nat ->
  decode_loop fuel c (mkLexer i (its ++ [t])) s <> OutOfFuel.
Proof.
  intros Ht. induction fuel as [|fuel IH]; intros i s Hi Hf Hpos; [lia|].
  cbn [decode_loop]. destruct (foundRightConstraint s); [discriminate|].
  unfold Next. cbn [index items].
  destruct (i <? len (its ++ [t])) eqn:E.
  - apply Z.ltb_lt in E.
    destruct (index_at_Returns (its ++ [t]) i) as [it [Hit _]]; [lia|].
    rewrite Hit. cbn [bind].
    destruct (ItemType_eqb (Type_ it) ItemEOL) eqn:T; cbn [negb bind].
    + apply ItemType_eqb_eq in T. rewrite T. discriminate.
    + destruct (Type_ it); try discriminate;
        (destruct (decode_reader c (Val it) s) as [s1 [e|]]; [discriminate|];
         apply IH; lia).
  - rewrite index_at_last. cbn [bind].
    destruct Ht as [Ht|Ht]; rewrite Ht; discriminate.
Qed.

Lemma firstRune_fuel (s : gostring) : firstRune s <> OutOfFuel.
Proof.
  unfold firstRune, index_at. simpl. destruct s; discriminate.
Qed.

Lemma setup_fuel (d : DecodeList) : setup d <> OutOfFuel.
Proof.
  unfold setup.
  destruct (gostring_eqb (LeftConstraint d) []); [discriminate|].
  destruct (gostring_eqb (RightConstraint d) []); [discriminate|].
  destruct (negb (byteLen (Separator d) =? 1)); [discriminate|].
  pose proof (firstRune_fuel (Separator d)) as H.
  destruct (firstRune (Separator d)) as [r| |]; cbn [bind];
    [|discriminate|congruence].
  destruct (Unicode.IsSpace r); [discriminate|].
  destruct (gostring_eqb (EntryQuote d) []); [discriminate|].
  destruct (negb (gostring_eqb (EntryQuote d) [34])
            && negb (gostring_eqb (EntryQuote d) [39])); discriminate.
Qed.

Lemma decodeChars_fuel (d : DecodeList) : decodeChars d <> OutOfFuel.
Proof.
  unfold decodeChars.
  pose proof (firstRune_fuel (LeftConstraint d)) as H1.
  destruct (firstRune (LeftConstraint d)); cbn [bind]; [|discriminate|congruence].
  pose proof (firstRune_fuel (RightConstraint d)) as H2.
  destruct (firstRune (RightConstraint d)); cbn [bind]; [|discriminate|congruence].
  pose proof (firstRune_fuel (Separator d)) as H3.
  destruct (firstRune (Separator d)); cbn [bind]; [|discriminate|congruence].
  pose proof (firstRune_fuel (EntryQuote d)) as H4.
  destruct (firstRune (EntryQuote d)); cbn [bind]; [|discriminate|congruence].
  pose proof (firstRune_fuel (EscapeCharacter d)) as H5.
  destruct (negb (gostring_eqb (EscapeCharacter d) [])); cbn [bind];
    [|discriminate].
  destruct (firstRune (EscapeCharacter d)); cbn [bind]; [|discriminate|congruence].
  discriminate.
Qed.

(** [Decode] on a lexer built by [New] does not run out of fuel. *)
Lemma Decode_has_fuel (IsNumber : rune -> bool) (line : gostring)
  (d : DecodeList) (l : Lexer) :
  New IsNumber line = Returns l -> Decode d l <> OutOfFuel.
Proof.
  intros HN.
  assert (Hl : exists its t, l = mkLexer 0 (its ++ [t]) /\ isTerminalType (Type_ t)).
  { destruct line as [|r line]; [discriminate|].
    destruct (New_Returns IsNumber (r :: line)) as [its [it [_ HR]]];
      [discriminate|].
    rewrite HR in HN. injection HN as HN. subst l.
    destruct (ItemType_eqb (Type_ it) ItemEOL) eqn:T.
    - exists its, it. split; [reflexivity|]. left.
      apply ItemType_eqb_eq. exact T.
    - exists (its ++ [it]), (mkItem ItemEOF []).
      rewrite <- app_assoc. split; [reflexivity|]. right. reflexivity. }
  destruct Hl as [its [t [Hl Ht]]]. subst l. unfold Decode.
  pose proof (setup_fuel d) as Hs.
  destruct (setup d) as [[e|]| |]; cbn [bind]; try discriminate; try congruence.
  pose proof (decodeChars_fuel d) as Hc.
  destruct (decodeChars d) as [c| |]; cbn [bind]; try discriminate; try congruence.
  cbn [items]. apply decode_loop_fuel; [exact Ht|lia| |lia].
  unfold len. lia.
Qed.

(** C7, what the code does. On every line that is not empty [New]
    returns the items of the line run by run, every space rune an item
    of its own. A run behind a space is a number when it opens with a
    number rune, or with a minus sign right after an [ItemSpace] item,
    and goes on with number runes and points only. The first run of
    the line is typed otherwise: the unparenthesised test of the
    default case holds for every rune while no item exists, so the
    first run is a number when its last rune that is neither a number
    rune nor a point is a minus sign, wherever it stands. A number is
    [ItemFloat] when a point stands in it, one or several, and
    [ItemInt] otherwise, a lone minus sign included. *)
Theorem New_classifies_runs (IsNumber : rune -> bool) (line : gostring) :
  line <> [] ->
  New IsNumber line =
    Returns (mkLexer 0 (withTerminal (lineTokens IsNumber [] line))).
Proof.
  intros Hne.
  destruct (New_Returns IsNumber line Hne) as [its [it [Hc HN]]].
  rewrite HN. unfold closed_items in Hc.
  fold (closeScan (New_loop IsNumber line)) in Hc.
  unfold New_loop in Hc.
  rewrite (fold_lineTokens IsNumber line (mkScan [] [] false false)) in Hc.
  - cbn [buff] in Hc. rewrite Hc, withTerminal_snoc. reflexivity.
  - unfold agreesFirst. cbn. auto.
Qed.

(** C7, the witness: the same word twice. At the start of the line it
    is an integer, behind the space it is text. *)
Lemma New_classifies_runs_witness :
  New Unicode.IsNumberLatin1 (runes "ab-12 ab-12") =
    Returns (mkLexer 0
      [mkItem ItemInt (runes "ab-12"); mkItem ItemSpace (runes " ");
       mkItem ItemText (runes "ab-12"); mkItem ItemEOF []]).
Proof.
  rewrite (New_classifies_runs Unicode.IsNumberLatin1 (runes "ab-12 ab-12")).
  - reflexivity.
  - discriminate.
Defined.

(** The second line of the package's lexer test. *)
Example New_lexes_test_line :
  New Unicode.IsNumberLatin1 (runes "-3.2 -1  -hello") =
    Returns (mkLexer 0
      [mkItem ItemFloat (runes "-3.2"); mkItem ItemSpace (runes " ");
       mkItem ItemInt (runes "-1"); mkItem ItemSpace (runes " ");
       mkItem ItemSpace (runes " "); mkItem ItemText (runes "-hello");
       mkItem ItemEOF []]).
Proof. reflexivity. Qed.

(** A run with two points is a float for the code and text for the
    wording of the classification. *)
Lemma New_two_points_is_float :
  New Unicode.IsNumberLatin1 (runes "1.2.3") =
    Returns (mkLexer 0 [mkItem ItemFloat (runes "1.2.3"); mkItem ItemEOF []])
  /\ tokens (spec_classify Unicode.IsNumberLatin1) true [] (runes "1.2.3")
     = [mkItem ItemText (runes "1.2.3")]
  /\ New Unicode.IsNumberLatin1 (runes "1.2.3") <>
     Returns (mkLexer 0 (withTerminal
       (tokens (spec_classify Unicode.IsNumberLatin1) true [] (runes "1.2.3")))).
Proof.
  split; [reflexivity|]. split; [reflexivity|]. vm_compute. discriminate.
Qed.

(** A minus sign inside the first run makes it a number, and a lone
    minus sign is an integer. *)
Example New_inner_minus_is_number :
  New Unicode.IsNumberLatin1 (runes "2020-01-01") =
    Returns (mkLexer 0 [mkItem ItemInt (runes "2020-01-01"); mkItem ItemEOF []])
  /\ New Unicode.IsNumberLatin1 (runes "a-1.5") =
    Returns (mkLexer 0 [mkItem ItemFloat (runes "a-1.5"); mkItem ItemEOF []])
  /\ New Unicode.IsNumberLatin1 (runes " ab-12") =
    Returns (mkLexer 0 [mkItem ItemSpace (runes " ");
                        mkItem ItemText (runes "ab-12"); mkItem ItemEOF []])
  /\ New Unicode.IsNumberLatin1 (runes "a - b") =
    Returns (mkLexer 0 [mkItem ItemText (runes "a"); mkItem ItemSpace (runes " ");
                        mkItem ItemInt (runes "-"); mkItem ItemSpace (runes " ");
                        mkItem ItemText (runes "b"); mkItem ItemEOF []]).
Proof. repeat split. Qed.

(** C8, what the code does. [New] panics on the empty string, and on
    no other input: no rune is read, no item is appended, and
    [items[len(items)-1]] indexes an empty slice. *)
Theorem New_panics_iff_empty (IsNumber : rune -> bool) (line : gostring) :
  New IsNumber line = Panics <-> line = [].
Proof.
  split.
  - intros H. destruct line as [|r line]; [reflexivity|].
    destruct (New_Returns IsNumber (r :: line)) as [its [it [_ HN]]];
      [discriminate|].
    rewrite HN in H. discriminate.
  - intros H. subst line. reflexivity.
Qed.

(** C9, as the code has it. With an escape character that the switch
    tells apart from the other runes of the configuration, a quote that
    follows the escape character inside a quoted entry is written to the
    entry and leaves the entry open; and decoding the list of one entry
    [a], escape, quote, [b] succeeds with that entry stripped of its
    delimiters and quotes, the escape character still in it. *)
Theorem Decode_keeps_escape (IsNumber : rune -> bool) (d : DecodeList)
  (c : chars) (a b : gostring) :
  setup d = Returns None ->
  decodeChars d = Returns c ->
  distinct_chars c ->
  Forall (ordinary c) a -> Forall (ordinary c) b -> ~ In (escape c) b ->
  (forall (rest : gostring) (s : dstate),
     inQuote s = true -> foundLeftConstraint s = true -> last s = escape c ->
     exists s', decode_rune c (q c) rest s = (s', None) /\
       entry s' = entry s ++ [q c] /\ inQuote s' = true /\
       results s' = results s)
  /\
  (exists l l',
     New IsNumber (lc c :: q c :: a ++ escape c :: q c :: b ++ [q c; rc c])
       = Returns l /\
     Decode d l = Returns (l', inl [a ++ escape c :: q c :: b]) /\
     Index l' = 1).
Proof.
  intros Hsetup Hchars Hd Ha Hb Hnb. split.
  - intros rest s HQ HL Hlast.
    exists (write s (q c)).
    split; [apply decode_rune_escaped_quote; assumption|].
    destruct (write_fields s (q c)) as [W1 [_ [_ [W4 [W5 _]]]]].
    split; [exact W5|]. split; [congruence|exact W4].
  - set (line := lc c :: q c :: a ++ escape c :: q c :: b ++ [q c; rc c]).
    assert (Hesc : ordinary c (escape c)) by apply Hd.
    assert (Hns : Forall (fun r => Unicode.IsSpace r = false) line).
    { destruct Hd as [_ [_ [Hls [Hqs [_ [Hrs _]]]]]].
      unfold line. constructor; [exact Hls|]. constructor; [exact Hqs|].
      apply Forall_app. split.
      - eapply Forall_impl; [|exact Ha]. intros r Hr. apply Hr.
      - constructor; [apply Hesc|]. constructor; [exact Hqs|].
        apply Forall_app. split.
        + eapply Forall_impl; [|exact Hb]. intros r Hr. apply Hr.
        + constructor; [exact Hqs|]. constructor; [exact Hrs|constructor]. }
    destruct (New_single_run IsNumber line ltac:(discriminate) Hns)
      as [t [Ht HN]].
    destruct (decode_reader_escaped_entry c a b Hd Ha Hb Hnb)
      as [s [Hs [HR Hres]]].
    fold line in Hs.
    exists (mkLexer 0 [mkItem t line; mkItem ItemEOF []]).
    exists (mkLexer 1 [mkItem t line; mkItem ItemEOF []]).
    split; [exact HN|]. split; [|reflexivity].
    unfold Decode. rewrite Hsetup, Hchars.
    cbn [bind items length decode_loop]. change (foundRightConstraint dstate0) with false. cbv iota.
    assert (HNext : Next (mkLexer 0 [mkItem t line; mkItem ItemEOF []])
                    = Returns (mkItem t line,
                               mkLexer 1 [mkItem t line; mkItem ItemEOF []])).
    { unfold Next. simpl.
      destruct Ht as [Ht|[Ht|Ht]]; rewrite Ht; reflexivity. }
    rewrite HNext. cbn [bind Type_ Val]. rewrite Hs.
    destruct Ht as [Ht|[Ht|Ht]]; rewrite Ht; cbn [decode_loop];
      rewrite HR, Hres; reflexivity.
Qed.

(** C9, the witness: the list whose one entry is a, backslash, quote, b. *)
Lemma Decode_keeps_escape_witness :
  exists l l',
    New Unicode.IsNumberLatin1 (91 :: 34 :: [97] ++ 92 :: 34 :: [98] ++ [34; 93])
      = Returns l /\
    Decode escapedList l = Returns (l', inl [[97] ++ 92 :: 34 :: [98]]) /\
    Index l' = 1.
Proof.
  apply (Decode_keeps_escape Unicode.IsNumberLatin1 escapedList
           (mkChars 91 93 44 34 92) [97] [98]).
  - reflexivity.
  - reflexivity.
  - unfold distinct_chars, ordinary. simpl.
    repeat split; try reflexivity; discriminate.
  - repeat constructor; discriminate.
  - repeat constructor; discriminate.
  - simpl. intros [H|H]; [discriminate|exact H].
Defined.

(** C9, as the specification words it, fails: the entry decoded from
    the list whose one quoted entry is a, backslash, quote, b holds the
    escape character. *)
Lemma Decode_entry_holds_escape :
  exists l, New Unicode.IsNumberLatin1 (runes "[" ++ [34; 97; 92; 34; 98; 34] ++ runes "]")
            = Returns l /\
    Decode escapedList l =
      Returns (mkLexer 1 (items l), inl [[97; 92; 34; 98]]) /\
    In 92 [97; 92; 34; 98].
Proof.
  eexists. split; [reflexivity|]. split; [reflexivity|].
  right. left. reflexivity.
Qed.

(** C10. After [New] and any sequence of [Next], [Backup], [Peek] and
    in-range [SetIndex] calls, every call has returned and the index is
    between 0 and [Len()]; [Backup] at index 0 leaves the index at 0,
    where [Parser.Backup] at position 0 panics; a [Next] that returns an
    [ItemEOL] item leaves the index where it was. *)
Theorem cursor_within_bounds (IsNumber : rune -> bool) (line : gostring)
  (l : Lexer) (cs : list call) :
  New IsNumber line = Returns l ->
  Forall (in_range l) cs ->
  (exists l',
     do_calls cs l = Returns l' /\
     Len l' = Len l /\
     0 <= Index l' <= Len l' /\
     (Index l' = 0 -> Index (Backup l') = 0) /\
     (exists it l'', Next l' = Returns (it, l'') /\
                     (Type_ it = ItemEOL -> Index l'' = Index l')))
  /\ (forall p : Halfpike.Parser,
        Halfpike.pos p = 0 -> Halfpike.Backup p = Panics).
Proof.
  intros HN Hr. split.
  - destruct (New_items_nonempty IsNumber line l HN) as [Hne Hi0].
    assert (Hok : cursor_ok l).
    { split; [exact Hne|]. rewrite Hi0. pose proof (len_nonneg (items l)). lia. }
    destruct (do_calls_cursor_ok cs l Hok Hr) as [l' [H' [Hi' Hok']]].
    exists l'. split; [exact H'|]. split; [unfold Len; congruence|].
    split; [apply Hok'|]. split.
    + unfold Index, Backup. intros H0. rewrite H0. simpl. exact H0.
    + destruct (Next_cursor_ok l' Hok') as [it [l'' [HNx [_ [_ HE]]]]].
      exists it, l''. split; [exact HNx|exact HE].
  - intros p Hp. unfold Halfpike.Backup. cbn [Halfpike.pos]. rewrite Hp.
    reflexivity.
Qed.

(** C10, the witness: calls on the lexer of a one-line input. *)
Lemma cursor_within_bounds_witness :
  (exists l',
    do_calls [CallBackup; CallNext; CallPeek; CallSetIndex 2; CallNext; CallNext;
              CallNext; CallBackup]
             (mkLexer 0 [mkItem ItemText [97]; mkItem ItemSpace [32];
                         mkItem ItemInt [49]; mkItem ItemEOL [10]])
      = Returns l' /\
    Len l' = 4 /\
    0 <= Index l' <= Len l' /\
    (Index l' = 0 -> Index (Backup l') = 0) /\
    (exists it l'', Next l' = Returns (it, l'') /\
                    (Type_ it = ItemEOL -> Index l'' = Index l')))
  /\ (forall p : Halfpike.Parser,
        Halfpike.pos p = 0 -> Halfpike.Backup p = Panics).
Proof.
  apply (cursor_within_bounds Unicode.IsNumberLatin1 [97; 32; 49; 10]).
  - reflexivity.
  - repeat constructor; unfold Len; simpl; unfold len; simpl; lia.
Defined.

End LineProps.

(** ** Package halfpike *)

Module HalfpikeProps.
Import Halfpike HalfpikeSpec.

Lemma ItemType_eqb_true (a b : ItemType) : ItemType_eqb a b = true <-> a = b.
Proof. destruct a, b; simpl; split; intros; congruence. Qed.

(** *** The lexer returns, and what it sends *)

Lemma isWordItem_not_terminal (it : Item) : isWordItem it -> isTerminal it = false.
Proof. unfold isWordItem, isTerminal. intros [H|[H|H]]; rewrite H; reflexivity. Qed.

Lemma firstTerminalNum_words (ws its : list Item) :
  Forall isWordItem ws -> firstTerminalNum (ws ++ its) = firstTerminalNum its.
Proof.
  induction ws as [|w ws IH]; intros H; [reflexivity|].
  inversion H as [|w' ws' Hw Hws]; subst. unfold firstTerminalNum. simpl.
  rewrite (isWordItem_not_terminal w Hw). apply IH. exact Hws.
Qed.

Lemma slice_Returns (s : gostring) (a b : Z) :
  0 <= a <= b -> b <= len s -> exists v, slice s a b = Returns v.
Proof.
  intros [H0 H1] H2. unfold slice.
  replace (0 <=? a) with true by (symmetry; apply Z.leb_le; lia).
  replace (a <=? b) with true by (symmetry; apply Z.leb_le; lia).
  replace (b <=? len s) with true by (symmetry; apply Z.leb_le; lia).
  simpl. eauto.
Qed.

Section LexerProps.

Variables isInt isFloat : gostring -> bool.
Variable input : gostring.

Lemma emit_word (st ps w : Z) (its : list Item) (t : ItemType) :
  0 <= st <= ps -> ps <= len input ->
  t = ItemText \/ t = ItemInt \/ t = ItemFloat ->
  exists v, emit (mkLexer input st ps w its) t []
            = Returns (mkLexer input ps ps w (its ++ [mkItem t v 0 []])).
Proof.
  intros H1 H2 Ht. unfold emit. simpl.
  destruct (slice_Returns input st ps H1 H2) as [v Hv]. rewrite Hv. simpl.
  exists v. destruct Ht as [Ht|[Ht|Ht]]; rewrite Ht; reflexivity.
Qed.

Lemma emit_terminal (st ps w : Z) (its : list Item) (t : ItemType)
  (raw : gostring) (n : Z) :
  0 <= st <= ps -> ps <= len input ->
  t = ItemEOL \/ t = ItemEOF ->
  exists v, emit (mkLexer input st ps w its) t [mkRawInfo raw n]
            = Returns (mkLexer input ps ps w (its ++ [mkItem t v n raw])).
Proof.
  intros H1 H2 Ht. unfold emit. simpl.
  destruct (slice_Returns input st ps H1 H2) as [v Hv]. rewrite Hv. simpl.
  exists v. destruct Ht as [Ht|Ht]; rewrite Ht; reflexivity.
Qed.

Lemma emitPending_Returns (b : bool) (last : ItemType) (st ps w : Z)
  (its : list Item) :
  0 <= st <= ps -> ps <= len input ->
  exists st' ws,
    emitPending isInt isFloat b last (mkLexer input st ps w its)
    = Returns (mkLexer input st' ps w (its ++ ws)) /\
    0 <= st' <= ps /\ Forall isWordItem ws.
Proof.
  intros H1 H2. unfold emitPending.
  assert (Hcur : exists cur, current (mkLexer input st ps w its) = Returns cur).
  { unfold current. simpl.
    destruct ((len input <=? st) || (st =? ps)); [eauto|].
    apply slice_Returns; assumption. }
  destruct Hcur as [cur Hcur]. rewrite Hcur. simpl.
  destruct (isInt cur).
  { destruct (emit_word st ps w its ItemInt H1 H2) as [v Hv]; [auto|].
    rewrite Hv. exists ps, [mkItem ItemInt v 0 []].
    split; [reflexivity|]. split; [lia|].
    constructor; [right; left; reflexivity|constructor]. }
  destruct (isFloat cur).
  { destruct (emit_word st ps w its ItemFloat H1 H2) as [v Hv]; [auto|].
    rewrite Hv. exists ps, [mkItem ItemFloat v 0 []].
    split; [reflexivity|]. split; [lia|].
    constructor; [right; right; reflexivity|constructor]. }
  destruct (b && ItemType_eqb last itemSpace).
  { exists st, []. rewrite app_nil_r. split; [reflexivity|]. split; [lia|constructor]. }
  destruct (emit_word st ps w its ItemText H1 H2) as [v Hv]; [auto|].
  rewrite Hv. exists ps, [mkItem ItemText v 0 []].
  split; [reflexivity|]. split; [lia|].
  constructor; [left; reflexivity|constructor].
Qed.

Lemma next_inside (st ps w : Z) (its : list Item) :
  0 <= ps < len input ->
  exists r, next (mkLexer input st ps w its)
            = Returns (r, mkLexer input st (ps + 1) 1 its)
            /\ nth_error input (Z.to_nat ps) = Some r.
Proof.
  intros H. unfold next. simpl.
  replace (len input <=? ps) with false by (symmetry; apply Z.leb_gt; lia).
  destruct (index_at_Returns input ps H) as [r [Hr Hn]]. rewrite Hr. simpl. eauto.
Qed.

Lemma next_at_end (st ps w : Z) (its : list Item) :
  len input <= ps ->
  next (mkLexer input st ps w its)
  = Returns (runeEOF, mkLexer input st ps 0 its).
Proof.
  intros H. unfold next. simpl.
  replace (len input <=? ps) with true by (symmetry; apply Z.leb_le; lia).
  reflexivity.
Qed.

Lemma appended_EOF (its : list Item) (lineNum : Z) (last : ItemType)
  (st ps w : Z) (v raw : gostring) :
  appended its lineNum last
    (mkLexer input st ps w (its ++ [mkItem ItemEOF v lineNum raw])).
Proof.
  exists [], (mkItem ItemEOF v lineNum raw). simpl.
  split; [reflexivity|]. split; [reflexivity|]. split; [constructor|].
  intros _. reflexivity.
Qed.

Lemma word_not_EOF (it : Item) : isWordItem it -> Type_ it <> ItemEOF.
Proof. intros [H|[H|H]]; rewrite H; discriminate. Qed.

(** A round that only moves on: what the rest appends is appended. *)
Lemma appended_skip (its : list Item) (n : Z) (last last' : ItemType)
  (l' : lexer) :
  (last = ItemText \/ last = itemSpace -> last' = ItemText \/ last' = itemSpace) ->
  appended its n last' l' -> appended its n last l'.
Proof.
  intros Hl [new [eof [H1 [H2 [H3 H4]]]]]. exists new, eof.
  split; [exact H1|]. split; [exact H2|]. split; [exact H3|].
  intros H. apply H4, Hl, H.
Qed.

(** A round that emitted words before a space. *)
Lemma appended_words (its ws : list Item) (n : Z) (last : ItemType)
  (l' : lexer) :
  Forall isWordItem ws ->
  appended (its ++ ws) n itemSpace l' -> appended its n last l'.
Proof.
  intros Hws [new [eof [H1 [H2 [H3 H4]]]]]. exists (ws ++ new), eof.
  split; [rewrite H1, <- !app_assoc; reflexivity|]. split; [exact H2|].
  split.
  - apply Forall_app. split; [|exact H3].
    eapply Forall_impl; [|exact Hws]. intros a. apply word_not_EOF.
  - intros _. rewrite <- app_assoc, firstTerminalNum_words by exact Hws.
    apply H4. right. reflexivity.
Qed.

(** A round that emitted words and the end of the line. *)
Lemma appended_line (its ws : list Item) (n n' : Z) (last : ItemType)
  (v raw : gostring) (l' : lexer) :
  Forall isWordItem ws ->
  appended ((its ++ ws) ++ [mkItem ItemEOL v n raw]) n' ItemEOL l' ->
  appended its n last l'.
Proof.
  intros Hws [new [eof [H1 [H2 [H3 _]]]]].
  exists (ws ++ mkItem ItemEOL v n raw :: new), eof.
  split; [rewrite H1, <- !app_assoc; reflexivity|]. split; [exact H2|].
  split.
  - apply Forall_app. split.
    + eapply Forall_impl; [|exact Hws]. intros a. apply word_not_EOF.
    + constructor; [discriminate|exact H3].
  - intros _. rewrite <- app_assoc, firstTerminalNum_words by exact Hws.
    reflexivity.
Qed.

Lemma untilSpace_loop_Returns (fuel : nat) :
  forall (st ps w : Z) (its : list Item) (lineNum : Z) (raw : gostring)
         (last : ItemType),
  0 <= st <= ps -> ps <= len input -> len input - ps < Z.of_nat fuel ->
  exists l',
    untilSpace_loop isInt isFloat fuel (mkLexer input st ps w its)
                    lineNum raw last = Returns l' /\
    appended its lineNum last l'.
Proof.
  induction fuel as [|fuel IH]; intros st ps w its lineNum raw last H1 H2 Hf.
  - simpl in Hf. lia.
  - cbn [untilSpace_loop].
    destruct (Z_lt_le_dec ps (len input)) as [Hin|Hend].
    + destruct (next_inside st ps w its) as [r [Hr _]]; [lia|].
      rewrite Hr. cbn [bind].
      assert (Hf' : len input - (ps + 1) < Z.of_nat fuel) by lia.
      destruct (r =? 10) eqn:Hnl.
      { assert (Hline :
          exists l',
            (l <- emitPending isInt isFloat true last
                   (backup (mkLexer input st (ps + 1) 1 its)) ;;
             '(_, l0) <- next l ;;
             l1 <- emit l0 ItemEOL [mkRawInfo (raw ++ [r]) lineNum] ;;
             untilSpace_loop isInt isFloat fuel l1 (lineNum + 1) [] ItemEOL)
            = Returns l' /\ appended its lineNum last l').
        { unfold backup. cbn [l_input l_start l_pos l_width l_items].
          replace (ps + 1 - 1) with ps by lia.
          destruct (emitPending_Returns true last st ps 1 its H1 H2)
            as [st' [ws [Hp [Hst' Hws]]]].
          rewrite Hp. cbn [bind].
          destruct (next_inside st' ps 1 (its ++ ws)) as [r' [Hr' _]]; [lia|].
          rewrite Hr'. cbn [bind].
          destruct (emit_terminal st' (ps + 1) 1 (its ++ ws) ItemEOL
                      (raw ++ [r]) lineNum) as [v Hv]; [lia|lia|auto|].
          rewrite Hv. cbn [bind].
          destruct (IH (ps + 1) (ps + 1) 1
                       ((its ++ ws) ++ [mkItem ItemEOL v lineNum (raw ++ [r])])
                       (lineNum + 1) [] ItemEOL) as [l' [Hl' Ha]];
            [lia|lia|lia|].
          exists l'. split; [exact Hl'|].
          eapply appended_line; [exact Hws|exact Ha]. }
        assert (Hblank :
          exists l',
            untilSpace_loop isInt isFloat fuel
              (ignore (mkLexer input st (ps + 1) 1 its)) (lineNum + 1)
              (raw ++ [r]) last = Returns l' /\
            (last = ItemUnknown \/ last = ItemEOL -> appended its lineNum last l')).
        { unfold ignore. cbn [l_input l_start l_pos l_width l_items].
          destruct (IH (ps + 1) (ps + 1) 1 its (lineNum + 1) (raw ++ [r]) last)
            as [l' [Hl' [new [eof [A1 [A2 [A3 _]]]]]]]; [lia|lia|lia|].
          exists l'. split; [exact Hl'|]. intros Hlast.
          exists new, eof. split; [exact A1|]. split; [exact A2|].
          split; [exact A3|].
          intros [C|C]; destruct Hlast as [D|D]; congruence. }
        destruct Hblank as [lb [Hb1 Hb2]].
        destruct last; try exact Hline;
          (exists lb; split; [exact Hb1|apply Hb2; auto]). }
      destruct (r =? runeEOF) eqn:Heof.
      { destruct (emit_terminal st (ps + 1) 1 its ItemEOF (raw ++ [r]) lineNum)
          as [v Hv]; [lia|lia|auto|].
        rewrite Hv. eexists. split; [reflexivity|]. apply appended_EOF. }
      destruct (Unicode.IsSpace r) eqn:Hsp.
      { assert (Hword :
          exists l',
            (l <- emitPending isInt isFloat false last
                   (backup (mkLexer input st (ps + 1) 1 its)) ;;
             '(_, l0) <- next l ;;
             untilSpace_loop isInt isFloat fuel (ignore l0) lineNum
                             (raw ++ [r]) itemSpace)
            = Returns l' /\ appended its lineNum last l').
        { unfold backup. cbn [l_input l_start l_pos l_width l_items].
          replace (ps + 1 - 1) with ps by lia.
          destruct (emitPending_Returns false last st ps 1 its H1 H2)
            as [st' [ws [Hp [Hst' Hws]]]].
          rewrite Hp. cbn [bind].
          destruct (next_inside st' ps 1 (its ++ ws)) as [r' [Hr' _]]; [lia|].
          rewrite Hr'. cbn [bind].
          unfold ignore. cbn [l_input l_start l_pos l_width l_items].
          destruct (IH (ps + 1) (ps + 1) 1 (its ++ ws) lineNum (raw ++ [r])
                       itemSpace) as [l' [Hl' Ha]]; [lia|lia|lia|].
          exists l'. split; [exact Hl'|].
          eapply appended_words; [exact Hws|exact Ha]. }
        assert (Hskip :
          exists l',
            untilSpace_loop isInt isFloat fuel
              (ignore (mkLexer input st (ps + 1) 1 its)) lineNum
              (raw ++ [r]) last = Returns l' /\ appended its lineNum last l').
        { unfold ignore. cbn [l_input l_start l_pos l_width l_items].
          apply IH; lia. }
        destruct last; try exact Hword; exact Hskip. }
      destruct (IH st (ps + 1) 1 its lineNum (raw ++ [r]) ItemText)
        as [l' [Hl' Ha]]; [lia|lia|lia|].
      exists l'. split; [exact Hl'|].
      eapply appended_skip; [|exact Ha]. auto.
    + rewrite next_at_end by exact Hend. cbn [bind].
      change (runeEOF =? 10) with false. cbv iota.
      change (runeEOF =? runeEOF) with true. cbv iota.
      destruct (emit_terminal st ps 0 its ItemEOF (raw ++ [runeEOF]) lineNum)
        as [v Hv]; [lia|lia|auto|].
      rewrite Hv. eexists. split; [reflexivity|]. apply appended_EOF.
Qed.

(** *** The line numbers the lexer sends *)

Lemma newlinesBefore_succ (ps : Z) (r : rune) :
  0 <= ps -> nth_error input (Z.to_nat ps) = Some r ->
  newlinesBefore input (ps + 1)
  = newlinesBefore input ps + (if r =? 10 then 1 else 0).
Proof.
  intros Hps Hr. unfold newlinesBefore, newlines.
  replace (Z.to_nat (ps + 1)) with (S (Z.to_nat ps)) by lia.
  generalize dependent (Z.to_nat ps). clear Hps ps.
  induction input as [|a l IH]; intros n Hr.
  - destruct n; discriminate.
  - destruct n as [|n].
    + simpl in Hr. injection Hr as Hr. subst a. simpl.
      destruct (r =? 10); unfold len; simpl; lia.
    + simpl in Hr. specialize (IH n Hr).
      change (firstn (S (S n)) (a :: l)) with (a :: firstn (S n) l).
      change (firstn (S n) (a :: l)) with (a :: firstn n l).
      cbn [filter]. destruct (a =? 10).
      * unfold len in *. cbn [length]. lia.
      * exact IH.
Qed.

Lemma numbered_word (it : Item) : isWordItem it -> numbered input it.
Proof.
  intros H C. rewrite (isWordItem_not_terminal it H) in C. discriminate.
Qed.

Lemma numbered_terminal (t : ItemType) (v raw : gostring) (ps : Z) :
  0 <= ps <= len input ->
  (t = ItemEOL -> nth_error input (Z.to_nat ps) = Some 10) ->
  numbered input (mkItem t v (newlinesBefore input ps) raw).
Proof. intros Hps Ht _. exists ps. auto. Qed.

(** Whatever the loop has sent, every terminal item is numbered by the
    newlines in front of it. *)
Lemma untilSpace_loop_numbered (fuel : nat) :
  forall (st ps w : Z) (its : list Item) (raw : gostring) (last : ItemType)
         (l' : lexer),
  0 <= st <= ps -> ps <= len input ->
  Forall (numbered input) its ->
  untilSpace_loop isInt isFloat fuel (mkLexer input st ps w its)
                  (newlinesBefore input ps) raw last = Returns l' ->
  Forall (numbered input) (l_items l').
Proof.
  induction fuel as [|fuel IH]; intros st ps w its raw last l' H1 H2 Hits H.
  - discriminate.
  - cbn [untilSpace_loop] in H.
    destruct (Z_lt_le_dec ps (len input)) as [Hin|Hend].
    + destruct (next_inside st ps w its) as [r [Hr Hnth]]; [lia|].
      rewrite Hr in H. cbn [bind] in H.
      pose proof (newlinesBefore_succ ps r ltac:(lia) Hnth) as Hsucc.
      assert (Hpending : forall (b : bool) (k : lexer -> outcome lexer),
        (l <- emitPending isInt isFloat b last
                (backup (mkLexer input st (ps + 1) 1 its)) ;;
         '(_, l0) <- next l ;; k l0) = Returns l' ->
        exists st' ws, 0 <= st' <= ps /\ Forall isWordItem ws /\
          k (mkLexer input st' (ps + 1) 1 (its ++ ws)) = Returns l').
      { intros b k Hk. unfold backup in Hk.
        cbn [l_input l_start l_pos l_width l_items] in Hk.
        replace (ps + 1 - 1) with ps in Hk by lia.
        destruct (emitPending_Returns b last st ps 1 its H1 H2)
          as [st' [ws [Hp [Hst' Hws]]]].
        rewrite Hp in Hk. cbn [bind] in Hk.
        destruct (next_inside st' ps 1 (its ++ ws)) as [r' [Hr' _]]; [lia|].
        rewrite Hr' in Hk. cbn [bind] in Hk.
        exists st', ws. auto. }
      assert (Hwords : forall ws, Forall isWordItem ws ->
                Forall (numbered input) (its ++ ws)).
      { intros ws Hws. apply Forall_app. split; [exact Hits|].
        eapply Forall_impl; [|exact Hws]. intros a. apply numbered_word. }
      destruct (r =? 10) eqn:Hnl.
      { assert (Hline :
          (l <- emitPending isInt isFloat true last
                  (backup (mkLexer input st (ps + 1) 1 its)) ;;
           '(_, l0) <- next l ;;
           l1 <- emit l0 ItemEOL
                   [mkRawInfo (raw ++ [r]) (newlinesBefore input ps)] ;;
           untilSpace_loop isInt isFloat fuel l1
             (newlinesBefore input ps + 1) [] ItemEOL) = Returns l' ->
          Forall (numbered input) (l_items l')).
        { intros Hk. apply Hpending in Hk.
          destruct Hk as [st' [ws [Hst' [Hws Hk]]]].
          destruct (emit_terminal st' (ps + 1) 1 (its ++ ws) ItemEOL
                      (raw ++ [r]) (newlinesBefore input ps))
            as [v Hv]; [lia|lia|auto|].
          rewrite Hv in Hk. cbn [bind] in Hk.
          replace (newlinesBefore input ps + 1)
            with (newlinesBefore input (ps + 1)) in Hk by lia.
          eapply IH; [| | |exact Hk]; [lia|lia|].
          apply Forall_app. split; [apply Hwords; exact Hws|].
          constructor; [|constructor].
          apply (numbered_terminal ItemEOL v (raw ++ [r]) ps); [lia|].
          intros _. apply Z.eqb_eq in Hnl. subst r. exact Hnth. }
        assert (Hblank :
          untilSpace_loop isInt isFloat fuel
            (ignore (mkLexer input st (ps + 1) 1 its))
            (newlinesBefore input ps + 1) (raw ++ [r]) last = Returns l' ->
          Forall (numbered input) (l_items l')).
        { unfold ignore. cbn [l_input l_start l_pos l_width l_items].
          replace (newlinesBefore input ps + 1)
            with (newlinesBefore input (ps + 1)) by lia.
          intros Hk. eapply IH; [| | |exact Hk]; [lia|lia|exact Hits]. }
        destruct last; try (apply Hline; exact H); apply Hblank; exact H. }
      rewrite Z.add_0_r in Hsucc.
      destruct (r =? runeEOF) eqn:Heof.
      { destruct (emit_terminal st (ps + 1) 1 its ItemEOF (raw ++ [r])
                    (newlinesBefore input ps)) as [v Hv]; [lia|lia|auto|].
        rewrite Hv in H. injection H as H. subst l'. cbn [l_items].
        apply Forall_app. split; [exact Hits|]. constructor; [|constructor].
        apply (numbered_terminal ItemEOF v (raw ++ [r]) ps); [lia|].
        discriminate. }
      destruct (Unicode.IsSpace r) eqn:Hsp.
      { assert (Hword :
          (l <- emitPending isInt isFloat false last
                  (backup (mkLexer input st (ps + 1) 1 its)) ;;
           '(_, l0) <- next l ;;
           untilSpace_loop isInt isFloat fuel (ignore l0)
             (newlinesBefore input ps) (raw ++ [r]) itemSpace) = Returns l' ->
          Forall (numbered input) (l_items l')).
        { intros Hk. apply Hpending in Hk.
          destruct Hk as [st' [ws [Hst' [Hws Hk]]]].
          unfold ignore in Hk. cbn [l_input l_start l_pos l_width l_items] in Hk.
          rewrite <- Hsucc in Hk.
          eapply IH; [| | |exact Hk]; [lia|lia|apply Hwords; exact Hws]. }
        assert (Hskip :
          untilSpace_loop isInt isFloat fuel
            (ignore (mkLexer input st (ps + 1) 1 its))
            (newlinesBefore input ps) (raw ++ [r]) last = Returns l' ->
          Forall (numbered input) (l_items l')).
        { unfold ignore. cbn [l_input l_start l_pos l_width l_items].
          rewrite <- Hsucc. intros Hk.
          eapply IH; [| | |exact Hk]; [lia|lia|exact Hits]. }
        destruct last; try (apply Hword; exact H); apply Hskip; exact H. }
      rewrite <- Hsucc in H.
      eapply IH; [| | |exact H]; [lia|lia|exact Hits].
    + rewrite next_at_end in H by exact Hend. cbn [bind] in H.
      change (runeEOF =? 10) with false in H. cbv iota in H.
      change (runeEOF =? runeEOF) with true in H. cbv iota in H.
      destruct (emit_terminal st ps 0 its ItemEOF (raw ++ [runeEOF])
                  (newlinesBefore input ps)) as [v Hv]; [lia|lia|auto|].
      rewrite Hv in H. injection H as H. subst l'. cbn [l_items].
      apply Forall_app. split; [exact Hits|]. constructor; [|constructor].
      apply (numbered_terminal ItemEOF v (raw ++ [runeEOF]) ps); [lia|].
      discriminate.
Qed.

Lemma run_numbered (its : list Item) :
  run isInt isFloat (newLexer input) = Returns its ->
  Forall (numbered input) its.
Proof.
  unfold run, untilSpace, newLexer. cbn [l_input]. intros H.
  destruct (untilSpace_loop isInt isFloat (S (length input))
              (mkLexer input 0 0 0 []) 0 [] ItemUnknown) as [l'| |] eqn:E;
    cbn [bind] in H; try discriminate.
  injection H as H. subst its.
  apply (untilSpace_loop_numbered (S (length input)) 0 0 0 [] [] ItemUnknown l');
    [lia|apply len_nonneg|constructor|exact E].
Qed.

(** [run] returns what [untilSpace] sent: items that are not [ItemEOF],
    then one [ItemEOF]. *)
Lemma run_Returns :
  exists new eof,
    run isInt isFloat (newLexer input) = Returns (new ++ [eof]) /\
    Type_ eof = ItemEOF /\
    Forall (fun it => Type_ it <> ItemEOF) new.
Proof.
  unfold run, untilSpace, newLexer. cbn [l_input].
  destruct (untilSpace_loop_Returns (S (length input)) 0 0 0 [] 0 [] ItemUnknown)
    as [l' [Hl' [new [eof [A1 [A2 [A3 _]]]]]]].
  - lia.
  - apply len_nonneg.
  - unfold len. lia.
  - rewrite Hl'. cbn [bind]. rewrite A1. exists new, eof. auto.
Qed.

End LexerProps.

(** When the input opens with a rune of text, the first terminal item
    carries the line number 0. *)
Lemma run_first_terminal (isInt isFloat : gostring -> bool) (c : rune)
  (rest : gostring) :
  Unicode.IsSpace c = false -> c <> runeEOF ->
  exists its, run isInt isFloat (newLexer (c :: rest)) = Returns its /\
              firstTerminalNum its = Some 0.
Proof.
  intros Hsp Heof. unfold run, untilSpace, newLexer.
  cbn [l_input]. set (fuel := length (c :: rest)).
  cbn [untilSpace_loop].
  destruct (next_inside (c :: rest) 0 0 0 []) as [r [Hr Hn]].
  { unfold len. simpl length. lia. }
  simpl in Hn. injection Hn as Hn. subst r.
  rewrite Hr. cbn [bind].
  assert (Hnl : (c =? 10) = false).
  { apply Z.eqb_neq. intros C. subst c. discriminate Hsp. }
  apply Z.eqb_neq in Heof. rewrite Hnl, Heof, Hsp.
  destruct (untilSpace_loop_Returns isInt isFloat (c :: rest) fuel
              0 (0 + 1) 1 [] 0 ([] ++ [c]) ItemText)
    as [l' [Hl' [new [eof [A1 [_ [_ A4]]]]]]].
  - lia.
  - unfold len. simpl length. lia.
  - unfold len, fuel. lia.
  - rewrite Hl'. cbn [bind].
    exists (l_items l'). split; [reflexivity|].
    rewrite A1. apply A4. left. reflexivity.
Qed.

(** *** The lines the parser pulls *)

Lemma pull_loop_LineNum (ch : list Item) : forall (line : Line) (n : Z),
  firstTerminalNum ch = Some n -> LineNum (fst (pull_loop ch line)) = n.
Proof.
  induction ch as [|it ch IH]; intros line n H; [discriminate|].
  unfold firstTerminalNum in H. simpl in H. unfold isTerminal in H.
  cbn [pull_loop].
  destruct (Type_ it); simpl in H; try (apply IH; exact H);
    injection H as H; exact H.
Qed.

Lemma EOF_snoc (its : list Item) (it : Item) (n : Z) (r : gostring) :
  EOF (mkLine (its ++ [it]) n r) = Returns (ItemType_eqb (Type_ it) ItemEOF).
Proof. unfold EOF. cbn [Items]. rewrite index_at_last. reflexivity. Qed.

(** One [pull] takes one line off the channel: a line that ends with
    [ItemEOL] while more follows, or the line that ends with [ItemEOF]. *)
Lemma pull_loop_line (pre : list Item) (eof : Item) :
  Type_ eof = ItemEOF -> Forall (fun it => Type_ it <> ItemEOF) pre ->
  forall line : Line,
  exists line' ch',
    pull_loop (pre ++ [eof]) line = (line', ch') /\
    lineCount (pre ++ [eof]) = S (lineCount ch') /\
    ((EOF line' = Returns false /\ ends_EOF ch') \/
     (EOF line' = Returns true /\ ch' = [])).
Proof.
  intros Heof. induction pre as [|it pre IH]; intros Hpre line.
  - cbn [app pull_loop]. rewrite Heof.
    eexists. eexists. split; [reflexivity|]. split.
    + unfold lineCount, isTerminal. simpl. rewrite Heof. reflexivity.
    + right. split; [|reflexivity]. rewrite EOF_snoc. reflexivity.
  - inversion Hpre as [|it' pre' Hit Hpre']; subst.
    cbn [app pull_loop].
    assert (Hword : Type_ it <> ItemEOL ->
      exists line' ch',
        pull_loop (pre ++ [eof])
          (mkLine (Items line ++ [it]) (LineNum line) (Raw line)) = (line', ch') /\
        lineCount (it :: pre ++ [eof]) = S (lineCount ch') /\
        ((EOF line' = Returns false /\ ends_EOF ch') \/
         (EOF line' = Returns true /\ ch' = []))).
    { intros Hnl.
      destruct (IH Hpre' (mkLine (Items line ++ [it]) (LineNum line) (Raw line)))
        as [line' [ch' [H1 [H2 H3]]]].
      exists line', ch'. split; [exact H1|]. split; [|exact H3].
      unfold lineCount in *. simpl. unfold isTerminal at 1.
      destruct (Type_ it); try congruence; exact H2. }
    destruct (Type_ it) eqn:T; try (apply Hword; discriminate).
    + congruence.
    + eexists. eexists. split; [reflexivity|]. split.
      * unfold lineCount. simpl. unfold isTerminal at 1. rewrite T. reflexivity.
      * left. split.
        { rewrite EOF_snoc. reflexivity. }
        { exists pre, eof. auto. }
Qed.

Lemma index_at_middle {A : Type} (l1 l2 : list A) (a : A) :
  index_at (l1 ++ a :: l2) (len l1) = Returns a.
Proof.
  unfold index_at. pose proof (len_nonneg l1).
  destruct (len l1 <? 0) eqn:E; [apply Z.ltb_lt in E; lia|].
  unfold len. rewrite Nat2Z.id.
  rewrite nth_error_app2 by apply Nat.le_refl.
  rewrite Nat.sub_diag. reflexivity.
Qed.

(** At the end of the buffer, with lines still to come, [Next] pulls one
    line, appends it and moves the cursor behind it. *)
Lemma Next_pulls (p : Parser) :
  pos p = len (lines p) ->
  ends_EOF (recv p) ->
  Forall (fun l => EOF l = Returns false) (lines p) ->
  exists line ch',
    Next p = Returns (line, mkParser (lines p ++ [line]) (pos p + 1) ch' (err p)) /\
    lineCount (recv p) = S (lineCount ch') /\
    ((EOF line = Returns false /\ ends_EOF ch') \/
     (EOF line = Returns true /\ ch' = [])).
Proof.
  intros Hpos [pre [eof [Hch [Heof Hpre]]]] Hlines.
  destruct (pull_loop_line pre eof Heof Hpre (mkLine [] 0 []))
    as [line [ch' [Hpull [Hcount Hend]]]].
  rewrite <- Hch in Hpull, Hcount.
  exists line, ch'. split; [|split; [exact Hcount|exact Hend]].
  unfold Next, pull. rewrite Hpull.
  destruct (lines p) as [|l0 ls] eqn:Hl.
  - rewrite Hpos. reflexivity.
  - replace (len (l0 :: ls) =? 0) with false
      by (symmetry; apply Z.eqb_neq; unfold len; simpl; lia).
    replace (len (l0 :: ls) <=? pos p) with true
      by (symmetry; apply Z.leb_le; lia).
    destruct (@exists_last _ (l0 :: ls) ltac:(discriminate)) as [front [lastLine Hfl]].
    rewrite Hfl. rewrite index_at_last. cbn [bind].
    assert (Hlast : EOF lastLine = Returns false).
    { rewrite Hfl in Hlines. apply Forall_app in Hlines.
      destruct Hlines as [_ Hlines]. inversion Hlines. assumption. }
    rewrite Hlast. cbn [bind].
    unfold append_line, set_pos. cbn [lines pos recv err].
    replace (len (front ++ [lastLine]) <=? pos p) with true
      by (symmetry; apply Z.leb_le; rewrite <- Hfl; lia).
    replace (pos p + 1 - 1) with (len (front ++ [lastLine]))
      by (rewrite <- Hfl; lia).
    rewrite index_at_middle. reflexivity.
Qed.

(** [n] calls of [Next] that the input has lines for: each pulls a line
    and moves the cursor. *)
Lemma NextN_advances (n : nat) : forall p : Parser,
  pos p = len (lines p) ->
  ends_EOF (recv p) ->
  Forall (fun l => EOF l = Returns false) (lines p) ->
  (n <= lineCount (recv p))%nat ->
  exists ls p',
    NextN n p = Returns (ls, p') /\
    length ls = n /\
    lines p' = lines p ++ ls /\
    pos p' = len (lines p').
Proof.
  induction n as [|n IH]; intros p Hpos Hch Hlines Hn.
  - exists [], p. rewrite app_nil_r. auto.
  - destruct (Next_pulls p Hpos Hch Hlines) as [line [ch' [HN [Hcount Hend]]]].
    cbn [NextN]. rewrite HN. cbn [bind].
    set (p1 := mkParser (lines p ++ [line]) (pos p + 1) ch' (err p)).
    assert (Hpos1 : pos p1 = len (lines p1)).
    { unfold p1. cbn [pos lines]. rewrite len_app. unfold len at 2. simpl. lia. }
    destruct n as [|n'].
    + exists [line], p1. split; [reflexivity|]. split; [reflexivity|].
      split; [reflexivity|exact Hpos1].
    + destruct Hend as [[Hline Hch']|[_ Hch']].
      * destruct (IH p1 Hpos1 Hch') as [ls [p' [H1 [H2 [H3 H4]]]]].
        { unfold p1. cbn [lines]. apply Forall_app. split; [exact Hlines|].
          constructor; [exact Hline|constructor]. }
        { unfold p1. cbn [recv]. lia. }
        rewrite H1. cbn [bind]. exists (line :: ls), p'.
        split; [reflexivity|]. split; [simpl; congruence|].
        split; [|exact H4].
        rewrite H3. unfold p1. cbn [lines]. rewrite <- app_assoc. reflexivity.
      * rewrite Hch' in Hcount. unfold lineCount in Hcount at 2.
        simpl in Hcount. lia.
Qed.

(** [Backup] gives back, last first, the lines in front of the cursor. *)
Lemma BackupN_reverses (ls : list Line) : forall (pre post : list Line) (p : Parser),
  lines p = pre ++ ls ++ post ->
  pos p = len pre + len ls ->
  exists p', BackupN (length ls) p = Returns (rev ls, p') /\ pos p' = len pre.
Proof.
  induction ls as [|x ls IH] using rev_ind; intros pre post p Hl Hp.
  - exists p. split; [reflexivity|]. rewrite Hp. unfold len at 2. simpl. lia.
  - rewrite length_app, Nat.add_comm. cbn [length Nat.add BackupN].
    rewrite len_app in Hp. unfold len at 3 in Hp. simpl in Hp.
    pose proof (len_nonneg pre). pose proof (len_nonneg ls).
    unfold Backup. cbn [pos lines].
    replace (pos p - 1 <? 0) with false by (symmetry; apply Z.ltb_ge; lia).
    rewrite Hl. rewrite <- app_assoc.
    replace (pos p - 1) with (len (pre ++ ls)) by (rewrite len_app; lia).
    rewrite app_assoc. cbn [app]. rewrite index_at_middle. cbn [bind].
    destruct (IH pre (x :: post)
                (mkParser ((pre ++ ls) ++ x :: post) (len (pre ++ ls)) (recv p) (err p)))
      as [p' [H1 H2]].
    + cbn [lines]. rewrite <- app_assoc. reflexivity.
    + cbn [pos]. apply len_app.
    + rewrite H1. cbn [bind]. exists p'. split; [|exact H2].
      rewrite rev_app_distr. reflexivity.
Qed.

(** *** The line numbers the parser delivers *)

Lemma index_at_In {A : Type} (l : list A) (i : Z) (a : A) :
  index_at l i = Returns a -> In a l.
Proof.
  unfold index_at. destruct (i <? 0); [discriminate|].
  destruct (nth_error l (Z.to_nat i)) as [b|] eqn:E; [|discriminate].
  intros H. injection H as H. subst b. eapply nth_error_In. exact E.
Qed.

Lemma pull_loop_numbered (input : gostring) (ch : list Item) :
  forall (acc line' : Line) (ch' : list Item),
  Forall (numbered input) ch ->
  Forall (fun it => isTerminal it = false) (Items acc) ->
  (exists k, 0 <= k <= len input /\ LineNum acc = newlinesBefore input k) ->
  pull_loop ch acc = (line', ch') ->
  numberedLine input line' /\ Forall (numbered input) ch'.
Proof.
  induction ch as [|it ch IH]; intros acc line' ch' Hch Hacc [k [Hk Hnum]] H.
  - cbn [pull_loop] in H. injection H as H1 H2. subst line' ch'.
    split; [|constructor]. exists k. split; [exact Hk|]. split; [exact Hnum|].
    intros its it Hits Hit. exfalso. rewrite Hits in Hacc.
    apply Forall_app in Hacc. destruct Hacc as [_ Hacc].
    inversion Hacc as [|x xs Hx _]; subst. unfold isTerminal in Hx.
    rewrite Hit in Hx. discriminate.
  - inversion Hch as [|x xs Hit Hch']; subst. cbn [pull_loop] in H.
    assert (Hterm : isTerminal it = true ->
      (mkLine (Items acc ++ [mkItem (Type_ it) (Val it) 0 []])
              (lineNum it) (raw it), ch) = (line', ch') ->
      numberedLine input line' /\ Forall (numbered input) ch').
    { intros Ht Heq. injection Heq as H1 H2. subst line' ch'.
      split; [|exact Hch'].
      destruct (Hit Ht) as [k' [Hk' [Hn' He']]].
      exists k'. split; [exact Hk'|]. split; [exact Hn'|].
      intros its it' Hits Hty. cbn [Items] in Hits.
      apply app_inj_tail in Hits. destruct Hits as [_ Hits]. subst it'.
      apply He'. exact Hty. }
    assert (Hword : isTerminal it = false ->
      pull_loop ch (mkLine (Items acc ++ [it]) (LineNum acc) (Raw acc))
        = (line', ch') ->
      numberedLine input line' /\ Forall (numbered input) ch').
    { intros Ht Heq. eapply IH; [exact Hch'| | |exact Heq].
      - cbn [Items]. apply Forall_app. split; [exact Hacc|].
        constructor; [exact Ht|constructor].
      - exists k. auto. }
    unfold isTerminal in Hterm, Hword.
    destruct (Type_ it); (apply Hterm; [reflexivity|exact H])
                         || (apply Hword; [reflexivity|exact H]).
Qed.

Lemma Next_numbered (input : gostring) (p p' : Parser) (line : Line) :
  all_numbered input p -> Next p = Returns (line, p') ->
  all_numbered input p' /\ numberedLine input line.
Proof.
  intros [Hlines Hrecv] H.
  assert (Hpull : forall ln ch, pull_loop (recv p) (mkLine [] 0 []) = (ln, ch) ->
            numberedLine input ln /\ Forall (numbered input) ch).
  { intros ln ch Hp.
    apply (pull_loop_numbered input (recv p) (mkLine [] 0 []) ln ch Hrecv);
      [constructor| |exact Hp].
    exists 0. split; [pose proof (len_nonneg input); lia|reflexivity]. }
  unfold Next, pull in H.
  destruct (pull_loop (recv p) (mkLine [] 0 [])) as [ln ch] eqn:Hp.
  destruct (Hpull ln ch eq_refl) as [Hln Hch].
  assert (Hq : all_numbered input
                 (mkParser (lines p ++ [ln]) (pos p) ch (err p))).
  { split; cbn [lines recv]; [|exact Hch].
    apply Forall_app. split; [exact Hlines|]. constructor; [exact Hln|constructor]. }
  destruct (len (lines p) =? 0).
  - unfold append_line, set_pos in H. cbn [lines pos recv err] in H.
    destruct (index_at (lines p ++ [ln]) 0) as [l0| |] eqn:E; cbn [bind] in H;
      try discriminate.
    injection H as H1 H2. subst l0 p'.
    split; [exact Hq|]. apply index_at_In in E.
    destruct Hq as [Hq _]. cbn [lines] in Hq.
    rewrite Forall_forall in Hq. apply Hq. exact E.
  - destruct (len (lines p) <=? pos p).
    + destruct (index_at (lines p) (len (lines p) - 1)) as [lastLine| |] eqn:E;
        cbn [bind] in H; try discriminate.
      destruct (EOF lastLine) as [[|]| |]; cbn [bind] in H; try discriminate.
      * injection H as H1 H2. subst lastLine p'.
        split; [split; assumption|]. apply index_at_In in E.
        rewrite Forall_forall in Hlines. apply Hlines. exact E.
      * unfold append_line, set_pos in H. cbn [lines pos recv err] in H.
        destruct (index_at (lines p ++ [ln]) (pos p + 1 - 1)) as [l0| |] eqn:E';
          cbn [bind] in H; try discriminate.
        injection H as H1 H2. subst l0 p'.
        split; [exact Hq|]. apply index_at_In in E'.
        destruct Hq as [Hq _]. cbn [lines] in Hq.
        rewrite Forall_forall in Hq. apply Hq. exact E'.
    + cbn [bind] in H. unfold set_pos in H. cbn [lines pos recv err] in H.
      destruct (index_at (lines p) (pos p + 1 - 1)) as [l0| |] eqn:E;
        cbn [bind] in H; try discriminate.
      injection H as H1 H2. subst l0 p'.
      split; [split; assumption|]. apply index_at_In in E.
      rewrite Forall_forall in Hlines. apply Hlines. exact E.
Qed.

Lemma NextN_numbered (input : gostring) (n : nat) :
  forall (p p' : Parser) (ls : list Line),
  all_numbered input p -> NextN n p = Returns (ls, p') ->
  Forall (numberedLine input) ls.
Proof.
  induction n as [|n IH]; intros p p' ls Hp H.
  - injection H as H1 H2. subst ls. constructor.
  - cbn [NextN] in H.
    destruct (Next p) as [[line p1]| |] eqn:E; cbn [bind] in H; try discriminate.
    destruct (Next_numbered input p p1 line Hp E) as [Hp1 Hline].
    destruct (NextN n p1) as [[ls1 p2]| |] eqn:E1; cbn [bind] in H;
      try discriminate.
    injection H as H1 H2. subst ls p'.
    constructor; [exact Hline|]. eapply IH; [exact Hp1|exact E1].
Qed.

(** Before the end of the input [Peek] leaves the cursor where it
    was: on a buffered line, and on a line it has to pull. *)
Lemma Peek_buffered (p : Parser) :
  0 <= pos p < len (lines p) ->
  exists line,
    Next p = Returns (line, set_pos p (pos p + 1)) /\
    Peek p = Returns (line, set_pos p (pos p)).
Proof.
  intros [H0 H1].
  destruct (index_at_Returns (lines p) (pos p)) as [line [Hline _]]; [lia|].
  assert (HN : Next p = Returns (line, set_pos p (pos p + 1))).
  { unfold Next.
    replace (len (lines p) =? 0) with false by (symmetry; apply Z.eqb_neq; lia).
    replace (len (lines p) <=? pos p) with false by (symmetry; apply Z.leb_gt; lia).
    cbn [bind]. unfold set_pos. cbn [lines pos].
    replace (pos p + 1 - 1) with (pos p) by lia. rewrite Hline. reflexivity. }
  exists line. split; [exact HN|].
  unfold Peek. rewrite HN. cbn [bind]. unfold Backup, set_pos. cbn [pos lines recv err].
  replace (pos p + 1 - 1) with (pos p) by lia.
  replace (pos p <? 0) with false by (symmetry; apply Z.ltb_ge; lia).
  rewrite Hline. reflexivity.
Qed.

Lemma Peek_pulls (p : Parser) :
  pos p = len (lines p) ->
  ends_EOF (recv p) ->
  Forall (fun l => EOF l = Returns false) (lines p) ->
  exists line ch',
    Peek p = Returns (line, mkParser (lines p ++ [line]) (pos p) ch' (err p)).
Proof.
  intros Hpos Hch Hlines.
  destruct (Next_pulls p Hpos Hch Hlines) as [line [ch' [HN _]]].
  exists line, ch'. unfold Peek. rewrite HN. cbn [bind].
  unfold Backup. cbn [pos lines recv err].
  pose proof (len_nonneg (lines p)).
  replace (pos p + 1 - 1) with (len (lines p)) by lia.
  replace (len (lines p) <? 0) with false by (symmetry; apply Z.ltb_ge; lia).
  rewrite index_at_middle. cbn [bind]. rewrite Hpos. reflexivity.
Qed.

Lemma first_line_zero (isInt isFloat : gostring -> bool)
  (c : rune) (rest : gostring) :
  Unicode.IsSpace c = false -> c <> runeEOF ->
  exists p line p',
    newParser isInt isFloat (c :: rest) = Returns p /\
    Next p = Returns (line, p') /\
    LineNum line = 0.
Proof.
  intros Hsp Heof.
  destruct (run_first_terminal isInt isFloat c rest Hsp Heof) as [its [Hrun Hnum]].
  unfold newParser. rewrite Hrun. cbn [bind].
  destruct (pull_loop its (mkLine [] 0 [])) as [line ch] eqn:Hpull.
  exists (mkParser [] 0 its None), line, (mkParser [line] 1 ch None).
  split; [reflexivity|]. split.
  - unfold Next, pull. cbn [lines recv pos err]. rewrite Hpull. reflexivity.
  - pose proof (pull_loop_LineNum its (mkLine [] 0 []) 0 Hnum) as H.
    rewrite Hpull in H. exact H.
Qed.

(** C3, what the code does. On every input the parser is built, and
    every [Line] that [Next] delivers carries as [LineNum] the number of
    newlines in front of the position where the line ends: the number
    of its physical line counted from 0, one less than its 1-based
    number. When the input opens with a rune of text, the first [Line]
    delivered has [LineNum] 0, not 1. *)
Theorem line_numbers_count_newlines (isInt isFloat : gostring -> bool)
  (input : gostring) :
  exists p,
    newParser isInt isFloat input = Returns p /\
    (forall (n : nat) (ls : list Line) (p' : Parser),
       NextN n p = Returns (ls, p') -> Forall (numberedLine input) ls) /\
    (forall (c : rune) (rest : gostring),
       input = c :: rest -> Unicode.IsSpace c = false -> c <> runeEOF ->
       exists line p', Next p = Returns (line, p') /\ LineNum line = 0).
Proof.
  destruct (run_Returns isInt isFloat input) as [new [eof [Hrun _]]].
  exists (mkParser [] 0 (new ++ [eof]) None).
  split; [unfold newParser; rewrite Hrun; reflexivity|]. split.
  - intros n ls p' H. eapply NextN_numbered; [|exact H].
    split; cbn [lines recv]; [constructor|].
    apply (run_numbered isInt isFloat input). exact Hrun.
  - intros c rest Hin Hsp Heof. subst input.
    destruct (first_line_zero isInt isFloat c rest Hsp Heof)
      as [p0 [line [p' [Hp0 [HN HL]]]]].
    unfold newParser in Hp0. rewrite Hrun in Hp0. cbn [bind] in Hp0.
    injection Hp0 as Hp0. subst p0. exists line, p'. auto.
Qed.

(** C3, the witness: the first line of a two-line input has number 0. *)
Lemma line_numbers_count_newlines_witness :
  exists p line p',
    newParser Strconv.Atoi_ok Strconv.ParseFloat_ok (97 :: [10; 98; 10])
      = Returns p /\
    Next p = Returns (line, p') /\
    LineNum line = 0.
Proof.
  destruct (line_numbers_count_newlines Strconv.Atoi_ok Strconv.ParseFloat_ok
              (97 :: [10; 98; 10])) as [p [Hp [_ H]]].
  destruct (H 97 [10; 98; 10] eq_refl eq_refl ltac:(discriminate))
    as [line [p' [HN HL]]].
  exists p, line, p'. auto.
Defined.

(** The lines of that input as the parser delivers them: numbers 0, 1
    and, for the end of the input, 2. *)
Example line_numbers_of_two_lines :
  exists p ls p',
    newParser Strconv.Atoi_ok Strconv.ParseFloat_ok (97 :: [10; 98; 10])
      = Returns p /\
    NextN 3 p = Returns (ls, p') /\
    map LineNum ls = [0; 1; 2].
Proof.
  eexists. eexists. eexists. split; [vm_compute; reflexivity|].
  split; [vm_compute; reflexivity|reflexivity].
Qed.

(** C5, as the code has it. For every input and every [n >= 1] that
    does not exceed the number of lines the lexer sends for the input,
    [n] calls of [Next] on the new parser followed by [n] calls of
    [Backup] all return, and the lines of the [Backup] calls, reversed,
    are the lines of the [Next] calls. *)
Theorem Next_Backup_round_trip (isInt isFloat : gostring -> bool)
  (input : gostring) (n : nat) :
  (1 <= n <= inputLines isInt isFloat input)%nat ->
  exists p ls p' bs p'',
    newParser isInt isFloat input = Returns p /\
    NextN n p = Returns (ls, p') /\
    BackupN n p' = Returns (bs, p'') /\
    rev bs = ls /\
    pos p'' = 0.
Proof.
  intros [Hn1 Hn]. unfold inputLines in Hn. unfold newParser.
  destruct (run_Returns isInt isFloat input) as [new [eof [Hrun [Heof Hnew]]]].
  rewrite Hrun in *. cbn [bind].
  set (p := mkParser [] 0 (new ++ [eof]) None).
  destruct (NextN_advances n p) as [ls [p' [H1 [H2 [H3 H4]]]]].
  - reflexivity.
  - exists new, eof. auto.
  - constructor.
  - exact Hn.
  - cbn [lines p app] in H3.
    destruct (BackupN_reverses ls [] [] p') as [p'' [B1 B2]].
    + rewrite app_nil_r. exact H3.
    + rewrite H4, H3. unfold len at 2. simpl. lia.
    + exists p, ls, p', (rev ls), p''.
      split; [reflexivity|]. split; [exact H1|].
      split; [rewrite <- H2; exact B1|].
      split; [apply rev_involutive|exact B2].
Qed.

(** C5, the witness: two calls each way on an input of two lines. *)
Lemma Next_Backup_round_trip_witness :
  exists p ls p' bs p'',
    newParser Strconv.Atoi_ok Strconv.ParseFloat_ok (runes "a 1" ++ [10] ++ runes "b")
      = Returns p /\
    NextN 2 p = Returns (ls, p') /\
    BackupN 2 p' = Returns (bs, p'') /\
    rev bs = ls /\
    pos p'' = 0.
Proof.
  apply (Next_Backup_round_trip Strconv.Atoi_ok Strconv.ParseFloat_ok
           (runes "a 1" ++ [10] ++ runes "b") 2).
  vm_compute. lia.
Defined.

(** C5, as the specification words it, fails past the end of the input:
    on the one-line input [a] the second [Next] returns the last line
    again without moving the cursor, and the second [Backup] panics. *)
Lemma Backup_panics_after_Next_at_end :
  exists p line p',
    newParser Strconv.Atoi_ok Strconv.ParseFloat_ok (runes "a") = Returns p /\
    NextN 2 p = Returns ([line; line], p') /\
    pos p' = 1 /\
    BackupN 2 p' = Panics.
Proof.
  eexists. eexists. eexists. split; [reflexivity|].
  split; [reflexivity|]. split; reflexivity.
Qed.

(** C4, what the code does. With the cursor behind the last line and
    that line the end of the input, [Peek] returns the line that [Next]
    returns, before it and after it, and it moves the cursor one line
    back: [Next] did not move it, [Backup] did. *)
Theorem Peek_at_end_moves_cursor (p : Parser) (lastLine : Line) :
  index_at (lines p) (len (lines p) - 1) = Returns lastLine ->
  EOF lastLine = Returns true ->
  pos p = len (lines p) ->
  Next p = Returns (lastLine, p) /\
  Peek p = Returns (lastLine, set_pos p (pos p - 1)) /\
  Next (set_pos p (pos p - 1)) = Returns (lastLine, set_pos p (pos p)).
Proof.
  intros Hlast Heof Hpos.
  assert (Hlen : 0 < len (lines p)).
  { pose proof (len_nonneg (lines p)).
    destruct (Z.eq_dec (len (lines p)) 0) as [C|C]; [|lia].
    apply len_nil_iff in C. rewrite C in Hlast. discriminate. }
  assert (HN : Next p = Returns (lastLine, p)).
  { unfold Next.
    replace (len (lines p) =? 0) with false by (symmetry; apply Z.eqb_neq; lia).
    replace (len (lines p) <=? pos p) with true by (symmetry; apply Z.leb_le; lia).
    rewrite Hlast. cbn [bind]. rewrite Heof. cbn [bind]. reflexivity. }
  split; [exact HN|]. split.
  - unfold Peek. rewrite HN. cbn [bind]. unfold Backup. cbn [pos lines].
    replace (pos p - 1 <? 0) with false by (symmetry; apply Z.ltb_ge; lia).
    rewrite Hpos, Hlast. reflexivity.
  - unfold Next, set_pos. cbn [lines pos recv err].
    replace (len (lines p) =? 0) with false by (symmetry; apply Z.eqb_neq; lia).
    replace (len (lines p) <=? pos p - 1) with false
      by (symmetry; apply Z.leb_gt; lia).
    cbn [bind].
    replace (pos p - 1 + 1 - 1) with (len (lines p) - 1) by lia.
    rewrite Hlast. cbn [bind].
    replace (pos p - 1 + 1) with (pos p) by lia. reflexivity.
Qed.

Example parserAtEnd_reached :
  exists p0, newParser Strconv.Atoi_ok Strconv.ParseFloat_ok (runes "a")
             = Returns p0 /\ Next p0 = Returns (lineA, parserAtEnd).
Proof. eexists. split; reflexivity. Qed.

(** C4, the witness: the cursor of that parser is 1 before [Peek] and 0
    after. *)
Lemma Peek_at_end_moves_cursor_witness :
  Next parserAtEnd = Returns (lineA, parserAtEnd) /\
  Peek parserAtEnd = Returns (lineA, mkParser [lineA] 0 [] None) /\
  Next (mkParser [lineA] 0 [] None) = Returns (lineA, parserAtEnd).
Proof.
  apply (Peek_at_end_moves_cursor parserAtEnd lineA); reflexivity.
Defined.

(** After that [Peek] a [Backup] panics, where without it [Backup]
    returns the line. *)
Example Backup_after_Peek_at_end :
  (exists p, Backup parserAtEnd = Returns (lineA, p)) /\
  ('(_, p) <- Peek parserAtEnd ;; Backup p) = Panics.
Proof. split; [eexists; reflexivity|reflexivity]. Qed.

(** C1, as the code has it. [Errorf] stores the error of the call at
    hand whatever the parser held: after any calls of [Errorf],
    [HasError()] reports the error of the last one; after [Errorf(m1)]
    and then [Errorf(m2)] it reports [m2]. *)
Theorem Errorf_last_call_wins (p : Parser)
  (calls : list (gostring * list any)) (str : gostring) (args : list any) :
  HasError (Errorfs p (calls ++ [(str, args)])) = Some (fmt_Errorf str args).
Proof.
  unfold Errorfs. rewrite fold_left_app. reflexivity.
Qed.

(** C1, as the specification words it, fails: the second of two calls
    replaces the error of the first. *)
Lemma Errorf_overwrites_first_error :
  HasError (Errorf (mkParser [] 0 [] None) (runes "first") [])
    = Some (fmt_Errorf (runes "first") []) /\
  HasError (Errorf (Errorf (mkParser [] 0 [] None) (runes "first") [])
                   (runes "second") [])
    = Some (fmt_Errorf (runes "second") []) /\
  HasError (Errorf (Errorf (mkParser [] 0 [] None) (runes "first") [])
                   (runes "second") [])
    <> Some (fmt_Errorf (runes "first") []).
Proof.
  split; [reflexivity|]. split; [reflexivity|]. vm_compute. discriminate.
Qed.

(** C2. When the loop of [ParseFn] calls ends, [Parse] returns; it has
    called [Validate] exactly when the parser holds no error; and it
    returns the error of the parser if there is one, else the error of
    [Validate] if there is one, else nil. *)
Theorem Parse_validates_without_error {Obj Fn : Type}
  (isInt isFloat : gostring -> bool) (fuel : nat) (content : gostring)
  (po : ParseObject Obj Fn) (o o1 : Obj) (p p1 : Parser) :
  newParser isInt isFloat content = Returns p ->
  steps fuel po (Some (Start po)) o p = Returns (o1, p1) ->
  exists r,
    Parse isInt isFloat fuel content po o = Returns r /\
    object r = o1 /\ parser r = p1 /\
    (validated r = true <-> HasError p1 = None) /\
    returned r = match HasError p1 with
                 | Some e => Some e
                 | None => Validate po o1
                 end.
Proof.
  intros Hnew Hsteps. unfold Parse. rewrite Hnew. cbn [bind].
  rewrite Hsteps. cbn [bind]. exists (finish po o1 p1).
  split; [reflexivity|]. unfold finish.
  destruct (HasError p1) as [e|] eqn:He.
  - cbn [object parser validated returned].
    split; [reflexivity|]. split; [reflexivity|].
    split; [|reflexivity]. split; discriminate.
  - destruct (Validate po o1) as [e|]; cbn [object parser validated returned];
      (split; [reflexivity|]); (split; [reflexivity|]);
      (split; [|reflexivity]); split; reflexivity.
Qed.

(** C2, the witness: the line counter on an input of two lines. *)
Lemma Parse_validates_without_error_witness :
  exists r,
    Parse Strconv.Atoi_ok Strconv.ParseFloat_ok 5
          (runes "a 1" ++ [10] ++ runes "b") lineCounter O = Returns r /\
    object r = 2%nat /\
    parser r = twoLinesParsed /\
    (validated r = true <-> HasError twoLinesParsed = None) /\
    returned r = None.
Proof.
  apply (Parse_validates_without_error Strconv.Atoi_ok Strconv.ParseFloat_ok 5
           (runes "a 1" ++ [10] ++ runes "b") lineCounter O 2%nat
           (mkParser [] 0
              [mkItem ItemText [97] 0 []; mkItem ItemInt [49] 0 [];
               mkItem ItemEOL [10] 0 [97; 32; 49; 10];
               mkItem ItemEOF [98] 1 [98; 1]] None)
           twoLinesParsed).
  - reflexivity.
  - reflexivity.
Defined.

(** *** Matching the start of a line *)

Lemma IsAtStart_loop_matches (line : Line) (find : list gostring) :
  forall i : Z,
  0 <= i -> i + len find <= len (Items line) ->
  exists b,
    IsAtStart_loop line i find = Returns b /\
    (b = true <->
     forall (k : nat) (f : gostring), nth_error find k = Some f ->
       f = Skip \/
       exists it, nth_error (Items line) (Z.to_nat i + k) = Some it /\ Val it = f).
Proof.
  induction find as [|f find IH]; intros i Hi Hlen.
  - exists true. split; [reflexivity|]. split; [|reflexivity].
    intros _ k f H. destruct k; discriminate.
  - assert (Hlen' : len (f :: find) = 1 + len find) by (unfold len; simpl length; lia).
    pose proof (len_nonneg find) as Hf.
    destruct (IH (i + 1)) as [b [Hb Hspec]]; [lia|lia|].
    assert (Hshift : forall k, (Z.to_nat (i + 1) + k = Z.to_nat i + S k)%nat) by lia.
    cbn [IsAtStart_loop].
    destruct (gostring_eqb f Skip) eqn:Hskip.
    + apply gostring_eqb_eq in Hskip. exists b. split; [exact Hb|].
      rewrite Hspec. split.
      * intros H k g Hk. destruct k as [|k].
        { simpl in Hk. injection Hk as Hk. subst g. left. exact Hskip. }
        { simpl in Hk. rewrite <- Hshift. apply H. exact Hk. }
      * intros H k g Hk. rewrite Hshift. apply H. exact Hk.
    + destruct (index_at_Returns (Items line) i) as [it [Hit Hnth]]; [lia|].
      rewrite Hit. cbn [bind].
      destruct (gostring_eqb (Val it) f) eqn:Hval; cbn [negb].
      * apply gostring_eqb_eq in Hval. exists b. split; [exact Hb|].
        rewrite Hspec. split.
        { intros H k g Hk. destruct k as [|k].
          - simpl in Hk. injection Hk as Hk. subst g. right. exists it.
            rewrite Nat.add_0_r. auto.
          - simpl in Hk. rewrite <- Hshift. apply H. exact Hk. }
        { intros H k g Hk. rewrite Hshift. apply H. exact Hk. }
      * exists false. split; [reflexivity|]. split; [discriminate|].
        intros H. exfalso. destruct (H O f eq_refl) as [C|[it' [Hit' Hv]]].
        { apply gostring_eqb_eq in C. congruence. }
        { rewrite Nat.add_0_r in Hit'. rewrite Hnth in Hit'.
          injection Hit' as Hit'. subst it'.
          apply gostring_eqb_eq in Hv. congruence. }
Qed.

(** C6. [IsAtStart] returns; it is true for an empty pattern, false for
    a pattern longer than the line, and otherwise true exactly when at
    every position the pattern holds [Skip] or the value of the item of
    the line at that position. *)
Theorem IsAtStart_matches (line : Line) (find : list gostring) :
  exists b,
    IsAtStart line find = Returns b /\
    (find = [] -> b = true) /\
    (len (Items line) < len find -> b = false) /\
    (len find <= len (Items line) ->
     (b = true <->
      forall (k : nat) (f : gostring), nth_error find k = Some f ->
        f = Skip \/
        exists it, nth_error (Items line) k = Some it /\ Val it = f)).
Proof.
  unfold IsAtStart.
  destruct (len find =? 0) eqn:H0.
  - apply Z.eqb_eq, len_nil_iff in H0. subst find. exists true.
    split; [reflexivity|]. split; [reflexivity|].
    split; [unfold len; simpl; pose proof (len_nonneg (Items line)); unfold len in *; lia|].
    intros _. split; [|reflexivity]. intros _ k f H. destruct k; discriminate.
  - apply Z.eqb_neq in H0.
    destruct (len (Items line) <? len find) eqn:H1.
    + apply Z.ltb_lt in H1. exists false. split; [reflexivity|].
      split; [intros C; subst find; exfalso; apply H0; reflexivity|].
      split; [reflexivity|]. intros C. lia.
    + apply Z.ltb_ge in H1.
      destruct (IsAtStart_loop_matches line find 0) as [b [Hb Hspec]]; [lia|lia|].
      exists b. split; [exact Hb|].
      split; [intros C; subst find; exfalso; apply H0; reflexivity|].
      split; [intros C; lia|]. intros _. exact Hspec.
Qed.

End HalfpikeProps.

(** * Further properties *)

(** ** Package halfpike: the lexer *)

Module LexerFacts.
Import Halfpike HalfpikeSpec HalfpikeProps.

Lemma between_same (s : gostring) (a : Z) : between s a a = [].
Proof. unfold between. rewrite Z.sub_diag. reflexivity. Qed.

Lemma skipn_nth {A : Type} (l : list A) (n : nat) (a : A) :
  nth_error l n = Some a -> skipn n l = a :: skipn (S n) l.
Proof.
  revert l. induction n as [|n IH]; intros [|b l] H; try discriminate.
  - injection H as H. subst b. reflexivity.
  - simpl in H. apply IH in H. exact H.
Qed.

Lemma firstn_snoc_skipn {A : Type} (l : list A) (n : nat) (a : A) :
  nth_error l n = Some a -> firstn (S n) l = firstn n l ++ [a].
Proof.
  revert l. induction n as [|n IH]; intros [|b l] H; try discriminate.
  - injection H as H. subst b. reflexivity.
  - simpl in H. apply IH in H.
    change (b :: firstn (S n) l = b :: (firstn n l ++ [a])). f_equal. exact H.
Qed.

Lemma between_snoc (s : gostring) (a b : Z) (r : rune) :
  0 <= a <= b -> nth_error s (Z.to_nat b) = Some r ->
  between s a (b + 1) = between s a b ++ [r].
Proof.
  intros H Hn. unfold between.
  replace (Z.to_nat (b + 1 - a)) with (S (Z.to_nat (b - a))) by lia.
  apply firstn_snoc_skipn. rewrite nth_error_skipn.
  replace (Z.to_nat a + Z.to_nat (b - a))%nat with (Z.to_nat b) by lia.
  exact Hn.
Qed.

Lemma between_one (s : gostring) (b : Z) (r : rune) :
  0 <= b -> nth_error s (Z.to_nat b) = Some r -> between s b (b + 1) = [r].
Proof.
  intros H Hn. rewrite (between_snoc s b b r); [|lia|exact Hn].
  rewrite between_same. reflexivity.
Qed.

Lemma between_nonempty (s : gostring) (a b : Z) :
  0 <= a < b -> b <= len s -> between s a b <> [].
Proof.
  intros H1 H2 C. apply (f_equal (@length rune)) in C. unfold between in C.
  rewrite length_firstn, length_skipn in C. simpl in C. unfold len in H2. lia.
Qed.

Lemma slice_between (s : gostring) (a b : Z) :
  0 <= a <= b -> b <= len s -> slice s a b = Returns (between s a b).
Proof.
  intros [H0 H1] H2. unfold slice.
  replace (0 <=? a) with true by (symmetry; apply Z.leb_le; lia).
  replace (a <=? b) with true by (symmetry; apply Z.leb_le; lia).
  replace (b <=? len s) with true by (symmetry; apply Z.leb_le; lia).
  reflexivity.
Qed.

Section Fields.

Variables isInt isFloat : gostring -> bool.
Variable input : gostring.

Hypothesis isInt_empty : isInt [] = false.
Hypothesis isFloat_empty : isFloat [] = false.
Hypothesis no_EOF_rune : ~ In runeEOF input.

Lemma current_between (st ps w : Z) (its : list Item) :
  0 <= st <= ps -> ps <= len input ->
  current (mkLexer input st ps w its) = Returns (between input st ps).
Proof.
  intros H1 H2. unfold current. cbn [l_input l_start l_pos].
  destruct ((len input <=? st) || (st =? ps)) eqn:E.
  - apply orb_true_iff in E. destruct E as [E|E].
    + apply Z.leb_le in E. assert (st = ps) by lia. subst ps.
      rewrite between_same. reflexivity.
    + apply Z.eqb_eq in E. subst ps. rewrite between_same. reflexivity.
  - apply slice_between; assumption.
Qed.

Lemma emit_word_between (st ps w : Z) (its : list Item) (t : ItemType) :
  0 <= st <= ps -> ps <= len input ->
  t = ItemText \/ t = ItemInt \/ t = ItemFloat ->
  emit (mkLexer input st ps w its) t []
  = Returns (mkLexer input ps ps w (its ++ [mkItem t (between input st ps) 0 []])).
Proof.
  intros H1 H2 Ht. unfold emit. cbn [l_input l_start l_pos].
  rewrite (slice_between input st ps H1 H2). cbn [bind].
  destruct Ht as [Ht|[Ht|Ht]]; rewrite Ht; reflexivity.
Qed.

Lemma emit_terminal_between (st ps w : Z) (its : list Item) (t : ItemType)
  (raw : gostring) (n : Z) :
  0 <= st <= ps -> ps <= len input ->
  t = ItemEOL \/ t = ItemEOF ->
  emit (mkLexer input st ps w its) t [mkRawInfo raw n]
  = Returns (mkLexer input ps ps w (its ++ [mkItem t (between input st ps) n raw])).
Proof.
  intros H1 H2 Ht. unfold emit. cbn [l_input l_start l_pos].
  rewrite (slice_between input st ps H1 H2). cbn [bind].
  destruct Ht as [Ht|Ht]; rewrite Ht; reflexivity.
Qed.

(** The pending text, when there is one, is emitted as the word it
    parses as. *)
Lemma emitPending_word (b : bool) (st ps w : Z) (its : list Item) :
  0 <= st < ps -> ps <= len input ->
  emitPending isInt isFloat b ItemText (mkLexer input st ps w its)
  = Returns (mkLexer input ps ps w
               (its ++ [mkItem (classifyWord isInt isFloat (between input st ps))
                               (between input st ps) 0 []])).
Proof.
  intros H1 H2. unfold emitPending.
  rewrite current_between by lia. cbn [bind]. unfold classifyWord.
  destruct (isInt (between input st ps)); [apply emit_word_between; auto; lia|].
  destruct (isFloat (between input st ps)); [apply emit_word_between; auto; lia|].
  rewrite andb_false_r. apply emit_word_between; auto; lia.
Qed.

(** Behind a space there is nothing to emit in front of a newline. *)
Lemma emitPending_space (ps w : Z) (its : list Item) :
  0 <= ps <= len input ->
  emitPending isInt isFloat true itemSpace (mkLexer input ps ps w its)
  = Returns (mkLexer input ps ps w its).
Proof.
  intros H. unfold emitPending.
  rewrite current_between by lia. cbn [bind]. rewrite between_same.
  rewrite isInt_empty, isFloat_empty. reflexivity.
Qed.

Lemma fields_acc_space (r : rune) (rest cur : gostring) :
  Unicode.IsSpace r = true ->
  fields_acc (r :: rest) cur = nonEmpty cur ++ fields_acc rest [].
Proof.
  intros H. cbn [fields_acc]. rewrite H. destruct cur; reflexivity.
Qed.

Lemma wordVals_app (a b : list Item) : wordVals (a ++ b) = wordVals a ++ wordVals b.
Proof. unfold wordVals. rewrite filter_app, map_app. reflexivity. Qed.

Lemma raws_app (a b : list Item) : raws (a ++ b) = raws a ++ raws b.
Proof. unfold raws. rewrite map_app, concat_app. reflexivity. Qed.

Lemma classified_word (v : gostring) :
  Forall (fun r => Unicode.IsSpace r = false) v ->
  classified isInt isFloat (mkItem (classifyWord isInt isFloat v) v 0 []).
Proof. intros H. right. cbn [Type_ Val lineNum raw]. auto. Qed.

Lemma wordVals_word (v : gostring) :
  wordVals [mkItem (classifyWord isInt isFloat v) v 0 []] = [v].
Proof.
  unfold wordVals, classifyWord, isWordB. cbn [filter Type_].
  destruct (isInt v); [reflexivity|]. destruct (isFloat v); reflexivity.
Qed.

(** What the loop of [untilSpace] sends from position [ps] on, with the
    text from [st] to [ps] pending. *)
Lemma untilSpace_loop_fields (fuel : nat) :
  forall (st ps w : Z) (its : list Item) (lineNum : Z) (raw : gostring)
         (last : ItemType),
  0 <= st <= ps -> ps <= len input -> len input - ps < Z.of_nat fuel ->
  (last = ItemText /\ st < ps) \/
  ((last = ItemUnknown \/ last = ItemEOL \/ last = itemSpace) /\ st = ps) ->
  Forall (fun r => Unicode.IsSpace r = false) (between input st ps) ->
  exists l' new eof,
    untilSpace_loop isInt isFloat fuel (mkLexer input st ps w its)
                    lineNum raw last = Returns l' /\
    l_items l' = its ++ new ++ [eof] /\
    Type_ eof = ItemEOF /\
    Forall (classified isInt isFloat) new /\
    fields_acc (skipn (Z.to_nat ps) input) (between input st ps)
    = wordVals new ++ nonEmpty (Val eof) /\
    raw ++ skipn (Z.to_nat ps) input ++ [runeEOF] = raws (new ++ [eof]).
Proof.
  induction fuel as [|fuel IH];
    intros st ps w its lineNum raw last H1 H2 Hf Hlast Hpend.
  - simpl in Hf. lia.
  - cbn [untilSpace_loop].
    destruct (Z_lt_le_dec ps (len input)) as [Hin|Hend].
    + destruct (next_inside input st ps w its) as [r [Hr Hn]]; [lia|].
      rewrite Hr. cbn [bind].
      rewrite (skipn_nth _ _ _ Hn).
      replace (S (Z.to_nat ps)) with (Z.to_nat (ps + 1)) by lia.
      assert (Hf' : len input - (ps + 1) < Z.of_nat fuel) by lia.
      assert (Hr1 : (r =? runeEOF) = false).
      { apply Z.eqb_neq. intros C. subst r. apply no_EOF_rune.
        apply nth_error_In in Hn. exact Hn. }
      destruct (r =? 10) eqn:Hnl.
      { apply Z.eqb_eq in Hnl. subst r.
        assert (Hsp : Unicode.IsSpace 10 = true) by reflexivity.
        rewrite (fields_acc_space 10 _ _ Hsp).
        destruct Hlast as [[Hl Hst]|[Hl Hst]].
        - (* a line with text: the word, then the newline *)
          subst last. unfold backup. cbn [l_input l_start l_pos l_width l_items].
          replace (ps + 1 - 1) with ps by lia.
          rewrite emitPending_word by lia. cbn [bind].
          destruct (next_inside input ps ps 1
                      (its ++ [mkItem (classifyWord isInt isFloat (between input st ps))
                                      (between input st ps) 0 []]))
            as [r' [Hr' Hn']]; [lia|].
          rewrite Hr'. cbn [bind].
          rewrite emit_terminal_between by (auto; lia). cbn [bind].
          rewrite (between_one input ps 10) by (auto; lia).
          destruct (IH (ps + 1) (ps + 1) 1
                       ((its ++ [mkItem (classifyWord isInt isFloat (between input st ps))
                                        (between input st ps) 0 []])
                        ++ [mkItem ItemEOL [10] lineNum (raw ++ [10])])
                       (lineNum + 1) [] ItemEOL)
            as [l' [new [eof [Hl' [Hits [Heof [Hcl [Hfl Hraw]]]]]]]];
            [lia|lia|lia|right; auto| rewrite between_same; constructor|].
          exists l', (mkItem (classifyWord isInt isFloat (between input st ps))
                             (between input st ps) 0 []
                      :: mkItem ItemEOL [10] lineNum (raw ++ [10]) :: new), eof.
          split; [exact Hl'|].
          split; [rewrite Hits, <- !app_assoc; reflexivity|].
          split; [exact Heof|].
          split; [constructor; [apply classified_word; exact Hpend|
                  constructor; [left; auto|exact Hcl]]|].
          rewrite between_same in Hfl. split.
          + rewrite Hfl.
            change (wordVals (?a :: ?b :: new)) with (wordVals ([a] ++ b :: new)).
            rewrite wordVals_app, wordVals_word.
            destruct (between input st ps) eqn:Eb;
              [exfalso; apply (between_nonempty input st ps); auto; lia|].
            reflexivity.
          + cbn [app] in Hraw. unfold raws in *. cbn [map concat app Halfpike.raw].
            cbn [map concat app] in Hraw. rewrite <- Hraw.
            rewrite <- app_assoc. reflexivity.
        - subst st. rewrite between_same. cbn [nonEmpty app].
          destruct Hl as [Hl|[Hl|Hl]]; subst last.
          + (* a blank line at the start *)
            unfold ignore. cbn [l_input l_start l_pos l_width l_items].
            destruct (IH (ps + 1) (ps + 1) 1 its (lineNum + 1) (raw ++ [10])
                         ItemUnknown)
              as [l' [new [eof [Hl' [Hits [Heof [Hcl [Hfl Hraw]]]]]]]];
              [lia|lia|lia|right; auto| rewrite between_same; constructor|].
            exists l', new, eof. rewrite between_same in Hfl.
            rewrite <- app_assoc in Hraw. auto 10.
          + (* a blank line *)
            unfold ignore. cbn [l_input l_start l_pos l_width l_items].
            destruct (IH (ps + 1) (ps + 1) 1 its (lineNum + 1) (raw ++ [10])
                         ItemEOL)
              as [l' [new [eof [Hl' [Hits [Heof [Hcl [Hfl Hraw]]]]]]]];
              [lia|lia|lia|right; auto| rewrite between_same; constructor|].
            exists l', new, eof. rewrite between_same in Hfl.
            rewrite <- app_assoc in Hraw. auto 10.
          + (* spaces in front of the newline *)
            unfold backup. cbn [l_input l_start l_pos l_width l_items].
            replace (ps + 1 - 1) with ps by lia.
            rewrite emitPending_space by lia. cbn [bind].
            destruct (next_inside input ps ps 1 its) as [r' [Hr' Hn']]; [lia|].
            rewrite Hr'. cbn [bind].
            rewrite emit_terminal_between by (auto; lia). cbn [bind].
            rewrite (between_one input ps 10) by (auto; lia).
            destruct (IH (ps + 1) (ps + 1) 1
                         (its ++ [mkItem ItemEOL [10] lineNum (raw ++ [10])])
                         (lineNum + 1) [] ItemEOL)
              as [l' [new [eof [Hl' [Hits [Heof [Hcl [Hfl Hraw]]]]]]]];
              [lia|lia|lia|right; auto| rewrite between_same; constructor|].
            exists l', (mkItem ItemEOL [10] lineNum (raw ++ [10]) :: new), eof.
            split; [exact Hl'|].
            split; [rewrite Hits, <- !app_assoc; reflexivity|].
            split; [exact Heof|].
            split; [constructor; [left; auto|exact Hcl]|].
            rewrite between_same in Hfl. split; [exact Hfl|].
            cbn [app] in Hraw. unfold raws in *. cbn [map concat app Halfpike.raw].
            rewrite <- Hraw. rewrite <- app_assoc. reflexivity. }
      rewrite Hr1.
      destruct (Unicode.IsSpace r) eqn:Hsp.
      { rewrite (fields_acc_space r _ _ Hsp).
        destruct Hlast as [[Hl Hst]|[Hl Hst]].
        - (* a space behind a word *)
          subst last. unfold backup. cbn [l_input l_start l_pos l_width l_items].
          replace (ps + 1 - 1) with ps by lia.
          rewrite emitPending_word by lia. cbn [bind].
          destruct (next_inside input ps ps 1
                      (its ++ [mkItem (classifyWord isInt isFloat (between input st ps))
                                      (between input st ps) 0 []]))
            as [r' [Hr' Hn']]; [lia|].
          rewrite Hr'. cbn [bind].
          unfold ignore. cbn [l_input l_start l_pos l_width l_items].
          destruct (IH (ps + 1) (ps + 1) 1
                       (its ++ [mkItem (classifyWord isInt isFloat (between input st ps))
                                       (between input st ps) 0 []])
                       lineNum (raw ++ [r]) itemSpace)
            as [l' [new [eof [Hl' [Hits [Heof [Hcl [Hfl Hraw]]]]]]]];
            [lia|lia|lia|right; auto| rewrite between_same; constructor|].
          exists l', (mkItem (classifyWord isInt isFloat (between input st ps))
                             (between input st ps) 0 [] :: new), eof.
          split; [exact Hl'|].
          split; [rewrite Hits, <- !app_assoc; reflexivity|].
          split; [exact Heof|].
          split; [constructor; [apply classified_word; exact Hpend|exact Hcl]|].
          rewrite between_same in Hfl. split.
          + rewrite Hfl.
            change (wordVals (?a :: new)) with (wordVals ([a] ++ new)).
            rewrite wordVals_app, wordVals_word.
            destruct (between input st ps) eqn:Eb;
              [exfalso; apply (between_nonempty input st ps); auto; lia|].
            reflexivity.
          + cbn [app]. unfold raws in *. cbn [map concat app Halfpike.raw].
            rewrite <- Hraw. rewrite <- app_assoc. reflexivity.
        - (* one more space *)
          subst st. rewrite between_same. cbn [nonEmpty app].
          assert (Hgoal :
            exists l' new eof,
              untilSpace_loop isInt isFloat fuel
                (ignore (mkLexer input ps (ps + 1) 1 its)) lineNum (raw ++ [r]) last
              = Returns l' /\
              l_items l' = its ++ new ++ [eof] /\
              Type_ eof = ItemEOF /\
              Forall (classified isInt isFloat) new /\
              fields_acc (skipn (Z.to_nat (ps + 1)) input) []
              = wordVals new ++ nonEmpty (Val eof) /\
              raw ++ (r :: skipn (Z.to_nat (ps + 1)) input) ++ [runeEOF]
              = raws (new ++ [eof])).
          { unfold ignore. cbn [l_input l_start l_pos l_width l_items].
            destruct (IH (ps + 1) (ps + 1) 1 its lineNum (raw ++ [r]) last)
              as [l' [new [eof [Hl' [Hits [Heof [Hcl [Hfl Hraw]]]]]]]];
              [lia|lia|lia|right; auto| rewrite between_same; constructor|].
            exists l', new, eof. rewrite between_same in Hfl.
            rewrite <- app_assoc in Hraw. auto 10. }
          destruct Hl as [Hl|[Hl|Hl]]; subst last; exact Hgoal. }
      (* one more rune of a word *)
      assert (Hgoal :
        exists l' new eof,
          untilSpace_loop isInt isFloat fuel
            (mkLexer input st (ps + 1) 1 its) lineNum (raw ++ [r]) ItemText
          = Returns l' /\
          l_items l' = its ++ new ++ [eof] /\
          Type_ eof = ItemEOF /\
          Forall (classified isInt isFloat) new /\
          fields_acc (r :: skipn (Z.to_nat (ps + 1)) input) (between input st ps)
          = wordVals new ++ nonEmpty (Val eof) /\
          raw ++ (r :: skipn (Z.to_nat (ps + 1)) input) ++ [runeEOF]
          = raws (new ++ [eof])).
      { destruct (IH st (ps + 1) 1 its lineNum (raw ++ [r]) ItemText)
          as [l' [new [eof [Hl' [Hits [Heof [Hcl [Hfl Hraw]]]]]]]];
          [lia|lia|lia|left; split; [reflexivity|lia]| |].
        { rewrite (between_snoc input st ps r) by (auto; lia).
          apply Forall_app. split; [exact Hpend|]. constructor; [exact Hsp|constructor]. }
        exists l', new, eof.
        rewrite (between_snoc input st ps r) in Hfl by (auto; lia).
        cbn [fields_acc]. rewrite Hsp.
        rewrite <- app_assoc in Hraw. auto 10. }
      destruct last; exact Hgoal.
    + (* the end of the input *)
      assert (ps = len input) by lia. subst ps.
      rewrite next_at_end by lia. cbn [bind].
      replace (runeEOF =? 10) with false by reflexivity.
      replace (runeEOF =? runeEOF) with true by reflexivity.
      rewrite emit_terminal_between by (auto; lia).
      exists (mkLexer input (len input) (len input) 0
                (its ++ [mkItem ItemEOF (between input st (len input)) lineNum
                                (raw ++ [runeEOF])])),
             [], (mkItem ItemEOF (between input st (len input)) lineNum
                         (raw ++ [runeEOF])).
      split; [reflexivity|]. split; [reflexivity|]. split; [reflexivity|].
      split; [constructor|].
      unfold len. rewrite Nat2Z.id, skipn_all. cbn [fields_acc app Val wordVals map filter].
      split; [destruct (between input st (Z.of_nat (length input))); reflexivity|].
      unfold raws. cbn [map concat Halfpike.raw]. rewrite app_nil_r. reflexivity.
Qed.

Lemma run_fields :
  exists new eof,
    run isInt isFloat (newLexer input) = Returns (new ++ [eof]) /\
    Type_ eof = ItemEOF /\
    Forall (classified isInt isFloat) new /\
    fields input = wordVals new ++ nonEmpty (Val eof) /\
    input ++ [runeEOF] = raws (new ++ [eof]).
Proof.
  unfold run, untilSpace, newLexer. cbn [l_input].
  destruct (untilSpace_loop_fields (S (length input)) 0 0 0 [] 0 [] ItemUnknown)
    as [l' [new [eof [Hl' [Hits [Heof [Hcl [Hfl Hraw]]]]]]]].
  - lia.
  - apply len_nonneg.
  - unfold len. lia.
  - right. auto.
  - rewrite between_same. constructor.
  - rewrite Hl'. cbn [bind]. exists new, eof. rewrite Hits.
    rewrite between_same in Hfl. cbn [Z.to_nat skipn app] in *.
    split; [reflexivity|]. auto.
Qed.

(** X8. The words the lexer sends are the fields of the input, the maximal
    runs of runes that are not spaces, in their order. The last field
    of an input that does not end in a space is not sent as a word: it
    is the value of the [ItemEOF] item. *)
Theorem lexer_words_are_fields :
  exists new eof,
    run isInt isFloat (newLexer input) = Returns (new ++ [eof]) /\
    Type_ eof = ItemEOF /\
    fields input = wordVals new ++ nonEmpty (Val eof).
Proof.
  destruct run_fields as [new [eof [Hrun [Heof [_ [Hfl _]]]]]].
  exists new, eof. auto.
Qed.

(** X9. Every item the lexer sends in front of the [ItemEOF] item is the
    newline that ends a line, with the value of one newline rune, or
    a word: it is [ItemInt] when [isInt] takes its value, else
    [ItemFloat] when [isFloat] takes it, else [ItemText]; it has no
    space rune, no line number and no raw text. *)
Theorem lexer_classifies_words :
  exists new eof,
    run isInt isFloat (newLexer input) = Returns (new ++ [eof]) /\
    Type_ eof = ItemEOF /\
    Forall (classified isInt isFloat) new.
Proof.
  destruct run_fields as [new [eof [Hrun [Heof [Hcl _]]]]].
  exists new, eof. auto.
Qed.

(** X10. The raw texts of the items the lexer sends, joined, are the input
    followed by the rune U+0001 that stands for the end of the input:
    no rune of a blank line or of a run of spaces is lost, and the raw
    text of the last line ends with U+0001. *)
Theorem lexer_raw_is_input :
  exists its,
    run isInt isFloat (newLexer input) = Returns its /\
    raws its = input ++ [runeEOF].
Proof.
  destruct run_fields as [new [eof [Hrun [_ [_ [_ Hraw]]]]]].
  exists (new ++ [eof]). auto.
Qed.

End Fields.

(** *** The rune U+0001 in the input *)

Lemma between_prefix (pre x : gostring) (a b : Z) :
  0 <= a <= b -> b <= len pre -> between (pre ++ x) a b = between pre a b.
Proof.
  intros H1 H2. unfold between, len in *.
  rewrite skipn_app, firstn_app, length_skipn.
  replace (Z.to_nat (b - a) - (length pre - Z.to_nat a))%nat with O by lia.
  replace (Z.to_nat a - length pre)%nat with O by lia.
  cbn [firstn skipn]. rewrite app_nil_r. reflexivity.
Qed.

Section Truncation.

Variables isInt isFloat : gostring -> bool.
Variables pre post : gostring.

Hypothesis no_EOF_rune : ~ In runeEOF pre.

Lemma len_full : len (pre ++ runeEOF :: post) = len pre + 1 + len post.
Proof. rewrite len_app. unfold len. simpl length. lia. Qed.

(** The pending text is emitted alike from the input and from its
    part in front of U+0001. *)
Lemma emitPending_prefix (b : bool) (last : ItemType) (st ps w : Z)
  (its : list Item) :
  0 <= st <= ps -> ps <= len pre ->
  exists st' ws,
    emitPending isInt isFloat b last (mkLexer pre st ps w its)
    = Returns (mkLexer pre st' ps w (its ++ ws)) /\
    emitPending isInt isFloat b last
      (mkLexer (pre ++ runeEOF :: post) st ps w its)
    = Returns (mkLexer (pre ++ runeEOF :: post) st' ps w (its ++ ws)) /\
    0 <= st' <= ps.
Proof.
  intros H1 H2.
  assert (H2' : ps <= len (pre ++ runeEOF :: post)).
  { rewrite len_full. pose proof (len_nonneg post). lia. }
  unfold emitPending.
  rewrite (current_between pre st ps w its H1 H2).
  rewrite (current_between (pre ++ runeEOF :: post) st ps w its H1 H2').
  rewrite (between_prefix pre (runeEOF :: post) st ps H1 H2). cbn [bind].
  assert (Hemit : forall t, t = ItemText \/ t = ItemInt \/ t = ItemFloat ->
    exists st' ws,
      emit (mkLexer pre st ps w its) t []
      = Returns (mkLexer pre st' ps w (its ++ ws)) /\
      emit (mkLexer (pre ++ runeEOF :: post) st ps w its) t []
      = Returns (mkLexer (pre ++ runeEOF :: post) st' ps w (its ++ ws)) /\
      0 <= st' <= ps).
  { intros t Ht. exists ps, [mkItem t (between pre st ps) 0 []].
    rewrite (emit_word_between pre st ps w its t H1 H2 Ht).
    rewrite (emit_word_between (pre ++ runeEOF :: post) st ps w its t H1 H2' Ht).
    rewrite (between_prefix pre (runeEOF :: post) st ps H1 H2).
    split; [reflexivity|]. split; [reflexivity|lia]. }
  destruct (isInt (between pre st ps)); [apply Hemit; auto|].
  destruct (isFloat (between pre st ps)); [apply Hemit; auto|].
  destruct (b && ItemType_eqb last itemSpace); [|apply Hemit; auto].
  exists st, []. rewrite app_nil_r. split; [reflexivity|]. split; [reflexivity|lia].
Qed.

(** Inside the part in front of U+0001 both lexers read the same
    rune, and it is not U+0001. *)
Lemma next_prefix (st ps w : Z) (its : list Item) :
  0 <= ps < len pre ->
  exists r,
    next (mkLexer pre st ps w its) = Returns (r, mkLexer pre st (ps + 1) 1 its) /\
    next (mkLexer (pre ++ runeEOF :: post) st ps w its)
    = Returns (r, mkLexer (pre ++ runeEOF :: post) st (ps + 1) 1 its) /\
    (r =? runeEOF) = false.
Proof.
  intros H.
  destruct (next_inside pre st ps w its H) as [r [Hr Hn]].
  destruct (next_inside (pre ++ runeEOF :: post) st ps w its) as [r' [Hr' Hn']].
  { rewrite len_full. pose proof (len_nonneg post). lia. }
  rewrite nth_error_app1 in Hn' by (unfold len in H; lia).
  rewrite Hn in Hn'. injection Hn' as Hn'. subst r'.
  exists r. split; [exact Hr|]. split; [exact Hr'|].
  apply Z.eqb_neq. intros C. subst r. apply no_EOF_rune.
  apply nth_error_In in Hn. exact Hn.
Qed.

(** The loop sends the same items from both inputs, but for the value
    of the last one. *)
Lemma untilSpace_loop_prefix (fuel1 : nat) :
  forall (fuel2 : nat) (st ps w : Z) (its : list Item) (lineNum : Z)
         (raw : gostring) (last : ItemType),
  0 <= st <= ps -> ps <= len pre ->
  len pre - ps < Z.of_nat fuel1 -> len pre - ps + 1 < Z.of_nat fuel2 ->
  exists l1 l2 new v n r,
    untilSpace_loop isInt isFloat fuel1 (mkLexer pre st ps w its)
                    lineNum raw last = Returns l1 /\
    untilSpace_loop isInt isFloat fuel2
                    (mkLexer (pre ++ runeEOF :: post) st ps w its)
                    lineNum raw last = Returns l2 /\
    l_items l1 = its ++ new ++ [mkItem ItemEOF v n r] /\
    l_items l2 = its ++ new ++ [mkItem ItemEOF (v ++ [runeEOF]) n r].
Proof.
  induction fuel1 as [|fuel1 IH];
    intros fuel2 st ps w its lineNum raw last H1 H2 Hf1 Hf2.
  - simpl in Hf1. lia.
  - destruct fuel2 as [|fuel2]; [simpl in Hf2; lia|].
    assert (Hfull : len (pre ++ runeEOF :: post) = len pre + 1 + len post)
      by apply len_full.
    pose proof (len_nonneg post) as Hpost.
    cbn [untilSpace_loop].
    destruct (Z_lt_le_dec ps (len pre)) as [Hin|Hend].
    + destruct (next_prefix st ps w its) as [r [Hr [Hr' Hr1]]]; [lia|].
      rewrite Hr, Hr'. cbn [bind].
      assert (Hline : forall last',
        exists l1 l2 new v n r0,
          (l <- emitPending isInt isFloat true last'
                 (backup (mkLexer pre st (ps + 1) 1 its)) ;;
           '(_, l0) <- next l ;;
           l3 <- emit l0 ItemEOL [mkRawInfo (raw ++ [r]) lineNum] ;;
           untilSpace_loop isInt isFloat fuel1 l3 (lineNum + 1) [] ItemEOL)
          = Returns l1 /\
          (l <- emitPending isInt isFloat true last'
                 (backup (mkLexer (pre ++ runeEOF :: post) st (ps + 1) 1 its)) ;;
           '(_, l0) <- next l ;;
           l3 <- emit l0 ItemEOL [mkRawInfo (raw ++ [r]) lineNum] ;;
           untilSpace_loop isInt isFloat fuel2 l3 (lineNum + 1) [] ItemEOL)
          = Returns l2 /\
          l_items l1 = its ++ new ++ [mkItem ItemEOF v n r0] /\
          l_items l2 = its ++ new ++ [mkItem ItemEOF (v ++ [runeEOF]) n r0]).
      { intros last'. unfold backup. cbn [l_input l_start l_pos l_width l_items].
        replace (ps + 1 - 1) with ps by lia.
        destruct (emitPending_prefix true last' st ps 1 its H1 H2)
          as [st' [ws [Hp [Hp' Hst']]]].
        rewrite Hp, Hp'. cbn [bind].
        destruct (next_prefix st' ps 1 (its ++ ws)) as [r' [Hn [Hn' _]]]; [lia|].
        rewrite Hn, Hn'. cbn [bind].
        rewrite (emit_terminal_between pre st' (ps + 1) 1 (its ++ ws) ItemEOL
                   (raw ++ [r]) lineNum) by (auto; lia).
        rewrite (emit_terminal_between (pre ++ runeEOF :: post) st' (ps + 1) 1
                   (its ++ ws) ItemEOL (raw ++ [r]) lineNum) by (auto; lia).
        rewrite (between_prefix pre (runeEOF :: post) st' (ps + 1)) by lia.
        cbn [bind].
        destruct (IH fuel2 (ps + 1) (ps + 1) 1
                    ((its ++ ws) ++ [mkItem ItemEOL (between pre st' (ps + 1))
                                            lineNum (raw ++ [r])])
                    (lineNum + 1) [] ItemEOL)
          as [l1 [l2 [new [v [n [r0 [G1 [G2 [G3 G4]]]]]]]]]; [lia|lia|lia|lia|].
        exists l1, l2,
          (ws ++ mkItem ItemEOL (between pre st' (ps + 1)) lineNum (raw ++ [r])
              :: new), v, n, r0.
        split; [exact G1|]. split; [exact G2|].
        rewrite G3, G4, <- !app_assoc. split; reflexivity. }
      assert (Hword : forall last',
        exists l1 l2 new v n r0,
          (l <- emitPending isInt isFloat false last'
                 (backup (mkLexer pre st (ps + 1) 1 its)) ;;
           '(_, l0) <- next l ;;
           untilSpace_loop isInt isFloat fuel1 (ignore l0) lineNum
                           (raw ++ [r]) itemSpace)
          = Returns l1 /\
          (l <- emitPending isInt isFloat false last'
                 (backup (mkLexer (pre ++ runeEOF :: post) st (ps + 1) 1 its)) ;;
           '(_, l0) <- next l ;;
           untilSpace_loop isInt isFloat fuel2 (ignore l0) lineNum
                           (raw ++ [r]) itemSpace)
          = Returns l2 /\
          l_items l1 = its ++ new ++ [mkItem ItemEOF v n r0] /\
          l_items l2 = its ++ new ++ [mkItem ItemEOF (v ++ [runeEOF]) n r0]).
      { intros last'. unfold backup. cbn [l_input l_start l_pos l_width l_items].
        replace (ps + 1 - 1) with ps by lia.
        destruct (emitPending_prefix false last' st ps 1 its H1 H2)
          as [st' [ws [Hp [Hp' Hst']]]].
        rewrite Hp, Hp'. cbn [bind].
        destruct (next_prefix st' ps 1 (its ++ ws)) as [r' [Hn [Hn' _]]]; [lia|].
        rewrite Hn, Hn'. cbn [bind].
        unfold ignore. cbn [l_input l_start l_pos l_width l_items].
        destruct (IH fuel2 (ps + 1) (ps + 1) 1 (its ++ ws) lineNum (raw ++ [r])
                    itemSpace)
          as [l1 [l2 [new [v [n [r0 [G1 [G2 [G3 G4]]]]]]]]]; [lia|lia|lia|lia|].
        exists l1, l2, (ws ++ new), v, n, r0.
        split; [exact G1|]. split; [exact G2|].
        rewrite G3, G4, <- !app_assoc. split; reflexivity. }
      assert (Hskip : forall lineNum' last',
        exists l1 l2 new v n r0,
          untilSpace_loop isInt isFloat fuel1
            (ignore (mkLexer pre st (ps + 1) 1 its)) lineNum' (raw ++ [r]) last'
          = Returns l1 /\
          untilSpace_loop isInt isFloat fuel2
            (ignore (mkLexer (pre ++ runeEOF :: post) st (ps + 1) 1 its))
            lineNum' (raw ++ [r]) last'
          = Returns l2 /\
          l_items l1 = its ++ new ++ [mkItem ItemEOF v n r0] /\
          l_items l2 = its ++ new ++ [mkItem ItemEOF (v ++ [runeEOF]) n r0]).
      { intros lineNum' last'. unfold ignore.
        cbn [l_input l_start l_pos l_width l_items].
        apply IH; lia. }
      destruct (r =? 10).
      { destruct last; try apply Hline; apply Hskip. }
      rewrite Hr1.
      destruct (Unicode.IsSpace r).
      { destruct last; try apply Hword; apply Hskip. }
      apply IH; lia.
    + assert (ps = len pre) by lia. subst ps.
      rewrite next_at_end by lia.
      destruct (next_inside (pre ++ runeEOF :: post) st (len pre) w its)
        as [r [Hr Hn]]; [lia|].
      unfold len in Hn. rewrite Nat2Z.id, nth_error_app2 in Hn by apply Nat.le_refl.
      rewrite Nat.sub_diag in Hn. cbn [nth_error] in Hn. injection Hn as Hn.
      subst r. rewrite Hr. cbn [bind].
      replace (runeEOF =? 10) with false by reflexivity.
      replace (runeEOF =? runeEOF) with true by reflexivity.
      rewrite (emit_terminal_between pre st (len pre) 0 its ItemEOF
                 (raw ++ [runeEOF]) lineNum) by (auto; lia).
      rewrite (emit_terminal_between (pre ++ runeEOF :: post) st (len pre + 1) 1
                 its ItemEOF (raw ++ [runeEOF]) lineNum) by (auto; lia).
      rewrite (between_snoc (pre ++ runeEOF :: post) st (len pre) runeEOF).
      * rewrite (between_prefix pre (runeEOF :: post) st (len pre)) by lia.
        eexists. eexists. exists [], (between pre st (len pre)), lineNum,
                                 (raw ++ [runeEOF]).
        split; [reflexivity|]. split; [reflexivity|].
        cbn [l_items app]. split; reflexivity.
      * lia.
      * unfold len. rewrite Nat2Z.id, nth_error_app2 by apply Nat.le_refl.
        rewrite Nat.sub_diag. reflexivity.
Qed.

(** X22. The rune U+0001 in the input ends the lexing, as the end of
    the input does: nothing behind it is read. The lexer sends the
    items it sends for the part in front of the first U+0001, but that
    the value of the [ItemEOF] item has the U+0001 at its end. *)
Theorem lexer_stops_at_EOF_rune :
  exists new eof,
    run isInt isFloat (newLexer pre) = Returns (new ++ [eof]) /\
    Type_ eof = ItemEOF /\
    run isInt isFloat (newLexer (pre ++ runeEOF :: post))
    = Returns (new ++ [mkItem ItemEOF (Val eof ++ [runeEOF])
                              (lineNum eof) (Halfpike.raw eof)]).
Proof.
  unfold run, untilSpace, newLexer. cbn [l_input].
  destruct (untilSpace_loop_prefix (S (length pre))
              (S (length (pre ++ runeEOF :: post))) 0 0 0 [] 0 [] ItemUnknown)
    as [l1 [l2 [new [v [n [r [G1 [G2 [G3 G4]]]]]]]]].
  - lia.
  - apply len_nonneg.
  - unfold len. lia.
  - rewrite length_app. unfold len. simpl length. lia.
  - rewrite G1, G2. cbn [bind]. rewrite G3, G4. cbn [app].
    exists new, (mkItem ItemEOF v n r). auto.
Qed.

End Truncation.

Lemma lexer_stops_at_EOF_rune_witness :
  exists new eof,
    run Strconv.Atoi_ok Strconv.ParseFloat_ok (newLexer [97; 32; 98])
    = Returns (new ++ [eof]) /\
    Type_ eof = ItemEOF /\
    run Strconv.Atoi_ok Strconv.ParseFloat_ok
        (newLexer ([97; 32; 98] ++ runeEOF :: [32; 99; 10]))
    = Returns (new ++ [mkItem ItemEOF (Val eof ++ [runeEOF])
                              (lineNum eof) (Halfpike.raw eof)]).
Proof.
  apply (lexer_stops_at_EOF_rune Strconv.Atoi_ok Strconv.ParseFloat_ok
           [97; 32; 98] [32; 99; 10]).
  simpl. unfold runeEOF. lia.
Defined.

Lemma lexer_words_are_fields_witness :
  exists new eof,
    run Strconv.Atoi_ok Strconv.ParseFloat_ok (newLexer [97; 32; 49; 10; 98])
    = Returns (new ++ [eof]) /\
    Type_ eof = ItemEOF /\
    fields [97; 32; 49; 10; 98] = wordVals new ++ nonEmpty (Val eof).
Proof.
  apply (lexer_words_are_fields Strconv.Atoi_ok Strconv.ParseFloat_ok
           [97; 32; 49; 10; 98]).
  - reflexivity.
  - reflexivity.
  - simpl. unfold runeEOF. lia.
Defined.

Lemma lexer_classifies_words_witness :
  exists new eof,
    run Strconv.Atoi_ok Strconv.ParseFloat_ok (newLexer [97; 32; 49; 10; 98])
    = Returns (new ++ [eof]) /\
    Type_ eof = ItemEOF /\
    Forall (classified Strconv.Atoi_ok Strconv.ParseFloat_ok) new.
Proof.
  apply (lexer_classifies_words Strconv.Atoi_ok Strconv.ParseFloat_ok
           [97; 32; 49; 10; 98]).
  - reflexivity.
  - reflexivity.
  - simpl. unfold runeEOF. lia.
Defined.

Lemma lexer_raw_is_input_witness :
  exists its,
    run Strconv.Atoi_ok Strconv.ParseFloat_ok (newLexer [97; 32; 49; 10; 98])
    = Returns its /\
    raws its = [97; 32; 49; 10; 98] ++ [runeEOF].
Proof.
  apply (lexer_raw_is_input Strconv.Atoi_ok Strconv.ParseFloat_ok
           [97; 32; 49; 10; 98]).
  - reflexivity.
  - reflexivity.
  - simpl. unfold runeEOF. lia.
Defined.

(** *** Converting what the lexer sends *)

Section ConvertProps.

Variable F : Type.
Variable Atoi : gostring -> option Z.
Variable ParseFloat : gostring -> option F.
Variable input : gostring.

Hypothesis Atoi_empty : Atoi [] = None.
Hypothesis ParseFloat_empty : ParseFloat [] = None.
Hypothesis no_EOF_rune : ~ In runeEOF input.

(** X11. With [isInt] and [isFloat] as the package has them, by
    [strconv.Atoi] and [strconv.ParseFloat]: on every [ItemInt] item
    the lexer sends [ToInt] gives the number without an error, on
    every [ItemFloat] item [ToFloat] does, and the value of an
    [ItemText] item is neither. *)
Theorem ToInt_ToFloat_of_lexer_items :
  exists new eof,
    run (isInt Atoi) (isFloat ParseFloat) (newLexer input)
    = Returns (new ++ [eof]) /\
    forall it, In it new ->
      (Type_ it = ItemInt ->
       exists n, Atoi (Val it) = Some n /\ ToInt Atoi it = (n, None)) /\
      (Type_ it = ItemFloat ->
       exists f, ParseFloat (Val it) = Some f /\
                 ToFloat ParseFloat it = (Some f, None)) /\
      (Type_ it = ItemText ->
       Atoi (Val it) = None /\ ParseFloat (Val it) = None).
Proof.
  destruct (run_fields (isInt Atoi) (isFloat ParseFloat) input)
    as [new [eof [Hrun [_ [Hcl _]]]]].
  - unfold isInt. rewrite Atoi_empty. reflexivity.
  - unfold isFloat. rewrite ParseFloat_empty. reflexivity.
  - exact no_EOF_rune.
  - exists new, eof. split; [exact Hrun|].
    intros it Hin. rewrite Forall_forall in Hcl. specialize (Hcl it Hin).
    destruct Hcl as [[Ht _]|[Ht _]].
    + rewrite Ht. repeat split; discriminate.
    + unfold classifyWord, isInt, isFloat in Ht. unfold ToInt, ToFloat.
      destruct (Atoi (Val it)) as [n|] eqn:Ea.
      * rewrite Ht. cbn [ItemType_eqb negb].
        split; [intros _; eauto|]. split; discriminate.
      * destruct (ParseFloat (Val it)) as [f|] eqn:Ef.
        { rewrite Ht. cbn [ItemType_eqb negb].
          split; [discriminate|]. split; [intros _; eauto|discriminate]. }
        { rewrite Ht. split; [discriminate|]. split; [discriminate|]. auto. }
Qed.

End ConvertProps.

Lemma ToInt_ToFloat_of_lexer_items_witness :
  exists new eof,
    run (isInt Strconv.Atoi) (isFloat Strconv.ParseFloat)
        (newLexer [97; 32; 49; 10; 98])
    = Returns (new ++ [eof]) /\
    forall it, In it new ->
      (Type_ it = ItemInt ->
       exists n, Strconv.Atoi (Val it) = Some n /\
                 ToInt Strconv.Atoi it = (n, None)) /\
      (Type_ it = ItemFloat ->
       exists f, Strconv.ParseFloat (Val it) = Some f /\
                 ToFloat Strconv.ParseFloat it = (Some f, None)) /\
      (Type_ it = ItemText ->
       Strconv.Atoi (Val it) = None /\ Strconv.ParseFloat (Val it) = None).
Proof.
  apply (ToInt_ToFloat_of_lexer_items unit Strconv.Atoi Strconv.ParseFloat
           [97; 32; 49; 10; 98]).
  - reflexivity.
  - reflexivity.
  - simpl. unfold runeEOF. lia.
Defined.

End LexerFacts.

(** ** Package halfpike: the parser *)

Module ParserProps.
Import Halfpike HalfpikeSpec HalfpikeProps.

Lemma len_pos_of_last {A : Type} (l : list A) (a : A) : 0 < len (l ++ [a]).
Proof. rewrite len_app. pose proof (len_nonneg l). unfold len at 2. simpl. lia. Qed.

(** Every line of a well-formed parser has a last item. *)
Lemma wf_lines_EOF (p : Parser) (line : Line) :
  parser_wf p -> In line (lines p) -> exists b, EOF line = Returns b.
Proof.
  intros [_ [[_ Hall]|[_ [front [lastLine [Hl [Hlast Hall]]]]]]] Hin.
  - rewrite Forall_forall in Hall. exists false. apply Hall. exact Hin.
  - rewrite Hl in Hin. apply in_app_or in Hin. destruct Hin as [Hin|[Hin|[]]].
    + rewrite Forall_forall in Hall. exists false. apply Hall. exact Hin.
    + subst line. exists true. exact Hlast.
Qed.

(** The new parser is well formed. *)
Lemma newParser_wf (isInt isFloat : gostring -> bool) (input : gostring) :
  exists p, newParser isInt isFloat input = Returns p /\ parser_wf p /\
            lines p = [] /\ pos p = 0.
Proof.
  destruct (run_Returns isInt isFloat input) as [new [eof [Hrun [Heof Hnew]]]].
  exists (mkParser [] 0 (new ++ [eof]) None).
  split; [unfold newParser; rewrite Hrun; reflexivity|].
  split; [|split; reflexivity].
  split; [cbn [pos lines]; unfold len; simpl; lia|].
  left. split; [exists new, eof; auto|constructor].
Qed.

(** [Next] inside the buffer. *)
Lemma Next_inside (p : Parser) :
  0 <= pos p < len (lines p) ->
  exists line,
    index_at (lines p) (pos p) = Returns line /\
    Next p = Returns (line, set_pos p (pos p + 1)).
Proof.
  intros [H0 H1].
  destruct (index_at_Returns (lines p) (pos p)) as [line [Hline _]]; [lia|].
  exists line. split; [exact Hline|]. unfold Next.
  replace (len (lines p) =? 0) with false by (symmetry; apply Z.eqb_neq; lia).
  replace (len (lines p) <=? pos p) with false by (symmetry; apply Z.leb_gt; lia).
  cbn [bind]. unfold set_pos. cbn [lines pos].
  replace (pos p + 1 - 1) with (pos p) by lia. rewrite Hline. reflexivity.
Qed.

(** [Next] behind the line that ends the input. *)
Lemma Next_behind_end (p : Parser) (front : list Line) (lastLine : Line) :
  lines p = front ++ [lastLine] -> EOF lastLine = Returns true ->
  pos p = len (lines p) ->
  Next p = Returns (lastLine, p).
Proof.
  intros Hl Heof Hpos. unfold Next. rewrite Hpos, Hl.
  pose proof (len_pos_of_last front lastLine).
  replace (len (front ++ [lastLine]) =? 0) with false
    by (symmetry; apply Z.eqb_neq; lia).
  rewrite Z.leb_refl, index_at_last. cbn [bind]. rewrite Heof. reflexivity.
Qed.

(** What a call of [Next] does on a well-formed parser: it returns a
    line of the buffer, the one in front of the new cursor, and either
    it moved the cursor over one more line or the parser is behind the
    end of the input and stays as it is. The buffer only grows. *)
Lemma Next_wf (p : Parser) :
  parser_wf p ->
  exists line p',
    Next p = Returns (line, p') /\
    parser_wf p' /\
    index_at (lines p') (pos p' - 1) = Returns line /\
    err p' = err p /\
    (exists more, lines p' = lines p ++ more) /\
    ((pos p' = pos p + 1 /\ S (remaining p') = remaining p) \/
     (p' = p /\ pos p = len (lines p) /\ EOF line = Returns true)).
Proof.
  intros Hwf. pose proof Hwf as [[H0 H1] Hcases].
  destruct (Z_lt_le_dec (pos p) (len (lines p))) as [Hin|Hend].
  - destruct (Next_inside p) as [line [Hline HN]]; [lia|].
    exists line, (set_pos p (pos p + 1)). split; [exact HN|].
    unfold set_pos. cbn [pos lines recv err].
    split; [unfold parser_wf; cbn [pos lines recv]; split; [lia|exact Hcases]|].
    split; [replace (pos p + 1 - 1) with (pos p) by lia; exact Hline|].
    split; [reflexivity|].
    split; [exists []; rewrite app_nil_r; reflexivity|].
    left. split; [reflexivity|].
    unfold remaining. cbn [pos lines recv]. lia.
  - assert (Hpos : pos p = len (lines p)) by lia.
    destruct Hcases as [[Hch Hall]|[Hch [front [lastLine [Hl [Hlast Hall]]]]]].
    + destruct (Next_pulls p Hpos Hch Hall) as [line [ch' [HN [Hcount Hline]]]].
      exists line, (mkParser (lines p ++ [line]) (pos p + 1) ch' (err p)).
      split; [exact HN|]. cbn [pos lines recv err].
      split; [|split; [|split; [reflexivity|split; [exists [line]; reflexivity|]]]].
      * unfold parser_wf. cbn [pos lines recv].
        split; [rewrite len_app; unfold len at 2; simpl; lia|].
        destruct Hline as [[Hne Hch']|[He Hch']].
        { left. split; [exact Hch'|]. apply Forall_app. split; [exact Hall|].
          constructor; [exact Hne|constructor]. }
        { right. split; [exact Hch'|]. exists (lines p), line. auto. }
      * replace (pos p + 1 - 1) with (len (lines p)) by lia.
        apply index_at_middle.
      * left. split; [reflexivity|]. unfold remaining. cbn [pos lines recv].
        rewrite len_app. unfold len at 2. simpl. lia.
    + exists lastLine, p.
      split; [apply (Next_behind_end p front lastLine Hl Hlast Hpos)|].
      split; [exact Hwf|]. split; [|split; [reflexivity|]].
      * rewrite Hpos, Hl. apply index_at_last.
      * split; [exists []; rewrite app_nil_r; reflexivity|]. right. auto.
Qed.

(** [Backup] on a well-formed parser: it panics at position 0 and
    nowhere else. *)
Lemma Backup_wf (p : Parser) :
  parser_wf p ->
  (pos p = 0 -> Backup p = Panics) /\
  (0 < pos p ->
   exists line, index_at (lines p) (pos p - 1) = Returns line /\
                Backup p = Returns (line, set_pos p (pos p - 1)) /\
                parser_wf (set_pos p (pos p - 1))).
Proof.
  intros [[H0 H1] Hcases]. split.
  - intros Hp. unfold Backup. cbn [pos]. rewrite Hp. reflexivity.
  - intros Hp.
    destruct (index_at_Returns (lines p) (pos p - 1)) as [line [Hline _]]; [lia|].
    exists line. split; [exact Hline|]. split.
    + unfold Backup, set_pos. cbn [pos lines].
      replace (pos p - 1 <? 0) with false by (symmetry; apply Z.ltb_ge; lia).
      rewrite Hline. reflexivity.
    + unfold set_pos. split; [cbn [pos lines]; lia|exact Hcases].
Qed.

(** The line in front of the cursor, when it ends the input, is the
    last line, and the cursor is behind it. *)
Lemma wf_at_end (p : Parser) (line : Line) :
  parser_wf p ->
  index_at (lines p) (pos p - 1) = Returns line -> EOF line = Returns true ->
  exists front, lines p = front ++ [line] /\ pos p = len (lines p) /\ recv p = [].
Proof.
  intros [[H0 H1] Hcases] Hline Heof.
  pose proof (index_at_In _ _ _ Hline) as Hin.
  destruct Hcases as [[_ Hall]|[Hch [front [lastLine [Hl [Hlast Hall]]]]]].
  - rewrite Forall_forall in Hall. specialize (Hall line Hin).
    unfold notEnd in Hall. congruence.
  - assert (Hlen : len (lines p) = len front + 1).
    { rewrite Hl, len_app. unfold len at 2. simpl. lia. }
    destruct (Z.eq_dec (pos p) (len (lines p))) as [E|E].
    + rewrite E, Hl, index_at_last in Hline. injection Hline as Hline.
      subst lastLine. exists front. auto.
    + exfalso. unfold index_at in Hline.
      destruct (pos p - 1 <? 0) eqn:Hneg; [discriminate|].
      apply Z.ltb_ge in Hneg.
      destruct (nth_error (lines p) (Z.to_nat (pos p - 1))) as [l|] eqn:Hn;
        [|discriminate].
      injection Hline as Hline. subst l. rewrite Hl in Hn.
      rewrite nth_error_app1 in Hn by (unfold len in *; lia).
      apply nth_error_In in Hn. rewrite Forall_forall in Hall.
      specialize (Hall line Hn). unfold notEnd in Hall. congruence.
Qed.

(** The parsers of the examples are well formed. *)
Ltac twoLinesParsed_wf :=
  split; [vm_compute; split; discriminate|];
  right; split; [reflexivity|];
  exists [mkLine [mkItem ItemText [97] 0 []; mkItem ItemInt [49] 0 [];
                  mkItem ItemEOL [10] 0 []] 0 [97; 32; 49; 10]],
         (mkLine [mkItem ItemEOF [98] 0 []] 1 [98; 1]);
  split; [reflexivity|]; split; [reflexivity|];
  constructor; [reflexivity|constructor].

Ltac twoLinesFresh_wf :=
  split; [vm_compute; split; discriminate|];
  left; split; [|constructor];
  exists [mkItem ItemText [97] 0 []; mkItem ItemInt [49] 0 [];
          mkItem ItemEOL [10] 0 [97; 32; 49; 10]],
         (mkItem ItemEOF [98] 1 [98; 1]);
  split; [reflexivity|]; split; [reflexivity|];
  repeat constructor; discriminate.

Lemma twoLinesFresh_new :
  newParser Strconv.Atoi_ok Strconv.ParseFloat_ok [97; 32; 49; 10; 98]
  = Returns twoLinesFresh.
Proof. vm_compute. reflexivity. Qed.

(** X1. On the parsers that calls reach, [Next] and [Peek] return and
    [Backup] panics at position 0 only: the new parser is well formed,
    and on a well-formed parser [Next] and [Peek] return a well-formed
    parser, and [Backup] panics when the cursor is at 0 and returns a
    well-formed parser otherwise. *)
Theorem parser_calls_keep_wf (isInt isFloat : gostring -> bool)
  (input : gostring) (p : Parser) :
  parser_wf p ->
  (exists p0, newParser isInt isFloat input = Returns p0 /\ parser_wf p0) /\
  (exists line p', Next p = Returns (line, p') /\ parser_wf p') /\
  (exists line p', Peek p = Returns (line, p') /\ parser_wf p') /\
  (pos p = 0 -> Backup p = Panics) /\
  (0 < pos p -> exists line p', Backup p = Returns (line, p') /\ parser_wf p').
Proof.
  intros Hwf. split; [|split; [|split; [|split]]].
  - destruct (newParser_wf isInt isFloat input) as [p0 [H0 [Hw _]]]. eauto.
  - destruct (Next_wf p Hwf) as [line [p' [HN [Hw _]]]]. eauto.
  - destruct (Next_wf p Hwf) as [line [p' [HN [Hw [Hi _]]]]].
    assert (Hpos : 0 < pos p').
    { unfold index_at in Hi. destruct (pos p' - 1 <? 0) eqn:E; [discriminate|].
      apply Z.ltb_ge in E. lia. }
    destruct (Backup_wf p' Hw) as [_ HB].
    destruct (HB Hpos) as [line' [_ [HB' Hw']]].
    exists line, (set_pos p' (pos p' - 1)). split; [|exact Hw'].
    unfold Peek. rewrite HN. cbn [bind]. rewrite HB'. reflexivity.
  - apply Backup_wf. exact Hwf.
  - intros Hp. destruct (Backup_wf p Hwf) as [_ HB].
    destruct (HB Hp) as [line [_ [HB' Hw']]]. eauto.
Qed.

(** The witness: the parser of a two-line input after one [Next]. *)
Lemma parser_calls_keep_wf_witness :
  (exists p0, newParser Strconv.Atoi_ok Strconv.ParseFloat_ok [97; 10; 98]
              = Returns p0 /\ parser_wf p0) /\
  (exists line p', Next twoLinesParsed = Returns (line, p') /\ parser_wf p') /\
  (exists line p', Peek twoLinesParsed = Returns (line, p') /\ parser_wf p') /\
  (pos twoLinesParsed = 0 -> Backup twoLinesParsed = Panics) /\
  (0 < pos twoLinesParsed ->
   exists line p', Backup twoLinesParsed = Returns (line, p') /\ parser_wf p').
Proof.
  apply (parser_calls_keep_wf Strconv.Atoi_ok Strconv.ParseFloat_ok
           [97; 10; 98] twoLinesParsed).
  split; [vm_compute; split; discriminate|].
  right. split; [reflexivity|].
  exists [mkLine [mkItem ItemText [97] 0 []; mkItem ItemInt [49] 0 [];
                  mkItem ItemEOL [10] 0 []] 0 [97; 32; 49; 10]],
         (mkLine [mkItem ItemEOF [98] 0 []] 1 [98; 1]).
  split; [reflexivity|]. split; [reflexivity|].
  constructor; [reflexivity|constructor].
Defined.

(** X2. Once [Next] has returned the line that ends the input, every
    further [Next] returns that same line and leaves the parser as it
    is. *)
Theorem Next_at_end_repeats (p p1 : Parser) (line : Line) (n : nat) :
  parser_wf p ->
  Next p = Returns (line, p1) ->
  EOF line = Returns true ->
  NextN n p1 = Returns (repeat line n, p1).
Proof.
  intros Hwf HN Heof.
  destruct (Next_wf p Hwf) as [line' [p' [HN' [Hw [Hi _]]]]].
  rewrite HN in HN'. injection HN' as E1 E2. subst line' p'.
  destruct (wf_at_end p1 line Hw Hi Heof) as [front [Hl [Hpos _]]].
  pose proof (Next_behind_end p1 front line Hl Heof Hpos) as HN1.
  induction n as [|n IH]; [reflexivity|].
  cbn [NextN repeat]. rewrite HN1. cbn [bind]. rewrite IH. reflexivity.
Qed.

Lemma Next_at_end_repeats_witness :
  NextN 3 parserAtEnd = Returns (repeat lineA 3, parserAtEnd).
Proof.
  apply (Next_at_end_repeats (mkParser [] 0 [mkItem ItemEOF [97] 0 [97; 1]] None)
           parserAtEnd lineA 3).
  - split; [vm_compute; split; discriminate|].
    left. split; [|constructor].
    exists [], (mkItem ItemEOF [97] 0 [97; 1]). split; [reflexivity|].
    split; [reflexivity|constructor].
  - reflexivity.
  - reflexivity.
Defined.

(** X3. [Peek] returns the line that the [Next] after it returns; and when
    that line does not end the input, [Peek] leaves the cursor where it
    was. *)
Theorem Peek_then_Next (p : Parser) :
  parser_wf p ->
  exists line p1 p2,
    Peek p = Returns (line, p1) /\
    Next p1 = Returns (line, p2) /\
    (EOF line = Returns false -> pos p1 = pos p).
Proof.
  intros Hwf.
  destruct (Next_wf p Hwf) as [line [p' [HN [Hw [Hi [_ [_ Hadv]]]]]]].
  assert (Hpos : 0 < pos p').
  { unfold index_at in Hi. destruct (pos p' - 1 <? 0) eqn:E; [discriminate|].
    apply Z.ltb_ge in E. lia. }
  destruct (Backup_wf p' Hw) as [_ HB].
  destruct (HB Hpos) as [line' [Hline' [HB' Hw']]].
  rewrite Hi in Hline'. injection Hline' as Hline'. subst line'.
  destruct (Next_inside (set_pos p' (pos p' - 1))) as [l2 [Hl2 HN2]].
  { unfold set_pos. cbn [pos lines]. destruct Hw as [[? ?] _]. lia. }
  unfold set_pos in Hl2 at 1 2. cbn [pos lines] in Hl2.
  rewrite Hi in Hl2. injection Hl2 as Hl2. subst l2.
  exists line, (set_pos p' (pos p' - 1)).
  eexists. split; [|split; [exact HN2|]].
  - unfold Peek. rewrite HN. cbn [bind]. rewrite HB'. reflexivity.
  - intros Hne. unfold set_pos. cbn [pos].
    destruct Hadv as [[Hp _]|[_ [_ He]]]; [lia|congruence].
Qed.

Lemma Peek_then_Next_witness :
  exists line p1 p2,
    Peek twoLinesParsed = Returns (line, p1) /\
    Next p1 = Returns (line, p2) /\
    (EOF line = Returns false -> pos p1 = pos twoLinesParsed).
Proof.
  apply (Peek_then_Next twoLinesParsed).
  split; [vm_compute; split; discriminate|].
  right. split; [reflexivity|].
  exists [mkLine [mkItem ItemText [97] 0 []; mkItem ItemInt [49] 0 [];
                  mkItem ItemEOL [10] 0 []] 0 [97; 32; 49; 10]],
         (mkLine [mkItem ItemEOF [98] 0 []] 1 [98; 1]).
  split; [reflexivity|]. split; [reflexivity|].
  constructor; [reflexivity|constructor].
Defined.

(** ** Searching for a line *)

Lemma IsAtStart_returns (line : Line) (find : list gostring) :
  exists b, IsAtStart line find = Returns b.
Proof.
  unfold IsAtStart.
  destruct (len find =? 0); [eauto|].
  destruct (len (Items line) <? len find) eqn:H1; [eauto|].
  apply Z.ltb_ge in H1.
  destruct (IsAtStart_loop_matches line find 0) as [b [Hb _]]; [lia|lia|].
  eauto.
Qed.

Lemma index_at_app_l {A : Type} (l m : list A) (i : Z) (a : A) :
  index_at l i = Returns a -> index_at (l ++ m) i = Returns a.
Proof.
  unfold index_at. destruct (i <? 0); [discriminate|].
  destruct (nth_error l (Z.to_nat i)) as [b|] eqn:Hn; [|discriminate].
  intros H. rewrite nth_error_app1.
  - rewrite Hn. exact H.
  - apply nth_error_Some. congruence.
Qed.

Lemma lineCount_le (its : list Item) : (lineCount its <= length its)%nat.
Proof. unfold lineCount. apply filter_length_le. Qed.

Lemma remaining_bound (p : Parser) :
  parser_wf p ->
  (remaining p < S (length (lines p) + length (recv p)))%nat.
Proof.
  intros [[H0 _] _].
  unfold remaining. pose proof (lineCount_le (recv p)). unfold len. lia.
Qed.

(** What the loop of [FindStart] does from a well-formed parser, with
    fuel for the lines still to come. *)
Lemma FindStart_loop_spec (find : list gostring) :
  forall (fuel : nat) (p : Parser),
  parser_wf p -> (remaining p < fuel)%nat ->
  exists line e p',
    FindStart_loop fuel p find = Returns (line, e, p') /\
    parser_wf p' /\
    err p' = err p /\
    (exists more, lines p' = lines p ++ more) /\
    (forall i l, pos p <= i < pos p' - 1 ->
                 index_at (lines p') i = Returns l ->
                 IsAtStart l find = Returns false) /\
    ((e = None /\ IsAtStart line find = Returns true /\
      index_at (lines p') (pos p' - 1) = Returns line) \/
     (e = Some (ErrEndOfFile find) /\ line = mkLine [] 0 [] /\
      pos p' = len (lines p') /\ recv p' = [] /\
      exists l, index_at (lines p') (pos p' - 1) = Returns l /\
                EOF l = Returns true /\ IsAtStart l find = Returns false)).
Proof.
  induction fuel as [|fuel IH]; intros p Hwf Hfuel; [lia|].
  destruct (Next_wf p Hwf) as [line [p1 [HN [Hw1 [Hi [He [[more Hmore] Hadv]]]]]]].
  cbn [FindStart_loop]. rewrite HN. cbn [bind].
  destruct (IsAtStart_returns line find) as [found Hfound].
  rewrite Hfound. cbn [bind].
  destruct found.
  - exists line, None, p1. split; [reflexivity|]. split; [exact Hw1|].
    split; [exact He|]. split; [eauto|]. split; [|left; auto].
    intros i l Hr Hl. destruct Hadv as [[Hp _]|[Hp _]]; [lia|subst p1; lia].
  - destruct (wf_lines_EOF p1 line Hw1 (index_at_In _ _ _ Hi)) as [atEnd Hend].
    rewrite Hend. cbn [bind]. destruct atEnd.
    + destruct (wf_at_end p1 line Hw1 Hi Hend) as [front [Hl [Hpos Hrecv]]].
      exists (mkLine [] 0 []), (Some (ErrEndOfFile find)), p1.
      split; [reflexivity|]. split; [exact Hw1|]. split; [exact He|].
      split; [eauto|]. split.
      * intros i l Hr Hil. destruct Hadv as [[Hp _]|[Hp _]]; [|subst p1; lia].
        assert (i = pos p1 - 1) by lia. lia.
      * right. split; [reflexivity|]. split; [reflexivity|].
        split; [exact Hpos|]. split; [exact Hrecv|]. exists line. auto.
    + destruct Hadv as [[Hp Hrem]|[_ [_ Hc]]]; [|congruence].
      destruct (IH p1 Hw1) as [line' [e [p' [HF [Hw' [He' [[more' Hmore'] [Hskip Hres]]]]]]]];
        [lia|].
      exists line', e, p'. split; [exact HF|]. split; [exact Hw'|].
      split; [congruence|].
      split; [exists (more ++ more'); rewrite Hmore', Hmore, app_assoc; reflexivity|].
      split; [|exact Hres].
      intros i l Hr Hil.
      destruct (Z.eq_dec i (pos p)) as [E|E].
      * subst i. replace (pos p1 - 1) with (pos p) in Hi by lia.
        apply (index_at_app_l _ more') in Hi. rewrite <- Hmore' in Hi.
        rewrite Hi in Hil. injection Hil as Hil. subst l. exact Hfound.
      * apply (Hskip i l); [lia|exact Hil].
Qed.

(** X4. [FindStart] returns on every parser the calls reach. When it finds
    a line, the line begins with the pattern, it is the line in front
    of the cursor, and no line the search passed over begins with the
    pattern. When it gives the error instead, the cursor is behind the
    last line of the input and no line from the old cursor on begins
    with the pattern. The recorded error of the parser is left as it
    was. *)
Theorem FindStart_finds_first (p : Parser) (find : list gostring) :
  parser_wf p ->
  exists line e p',
    FindStart p find = Returns (line, e, p') /\
    parser_wf p' /\
    err p' = err p /\
    (forall i l, pos p <= i < pos p' - 1 ->
                 index_at (lines p') i = Returns l ->
                 IsAtStart l find = Returns false) /\
    ((e = None /\ IsAtStart line find = Returns true /\
      index_at (lines p') (pos p' - 1) = Returns line) \/
     (e = Some (ErrEndOfFile find) /\ line = mkLine [] 0 [] /\
      pos p' = len (lines p') /\ recv p' = [] /\
      exists l, index_at (lines p') (pos p' - 1) = Returns l /\
                EOF l = Returns true /\ IsAtStart l find = Returns false)).
Proof.
  intros Hwf.
  destruct (FindStart_loop_spec find _ p Hwf (remaining_bound p Hwf))
    as [line [e [p' [HF [Hw [He [_ [Hskip Hres]]]]]]]].
  exists line, e, p'. unfold FindStart. auto.
Qed.

(** The witness: the search for the line that begins with [b] in the
    new parser of a two-line input. *)
Lemma FindStart_finds_first_witness :
  exists line e p',
    FindStart twoLinesFresh [[98]] = Returns (line, e, p') /\
    parser_wf p' /\
    err p' = err twoLinesFresh /\
    (forall i l, pos twoLinesFresh <= i < pos p' - 1 ->
                 index_at (lines p') i = Returns l ->
                 IsAtStart l [[98]] = Returns false) /\
    ((e = None /\ IsAtStart line [[98]] = Returns true /\
      index_at (lines p') (pos p' - 1) = Returns line) \/
     (e = Some (ErrEndOfFile [[98]]) /\ line = mkLine [] 0 [] /\
      pos p' = len (lines p') /\ recv p' = [] /\
      exists l, index_at (lines p') (pos p' - 1) = Returns l /\
                EOF l = Returns true /\ IsAtStart l [[98]] = Returns false)).
Proof.
  apply (FindStart_finds_first twoLinesFresh [[98]]).
  twoLinesFresh_wf.
Defined.

(** What the loop of [FindUntil] does from a well-formed parser. *)
Lemma FindUntil_loop_spec (find until : list gostring) :
  forall (fuel : nat) (p : Parser),
  parser_wf p -> (remaining p < fuel)%nat ->
  exists line u e p',
    FindUntil_loop fuel p find until = Returns (line, u, e, p') /\
    parser_wf p' /\
    err p' = err p /\
    (exists more, lines p' = lines p ++ more) /\
    (forall i l, pos p <= i < (if u then pos p' else pos p' - 1) ->
                 index_at (lines p') i = Returns l ->
                 IsAtStart l find = Returns false /\
                 IsAtStart l until = Returns false) /\
    ((u = false /\ e = None /\ IsAtStart line find = Returns true /\
      index_at (lines p') (pos p' - 1) = Returns line) \/
     (u = true /\ e = None /\ line = mkLine [] 0 [] /\
      exists l p'', Next p' = Returns (l, p'') /\
                    IsAtStart l find = Returns false /\
                    IsAtStart l until = Returns true) \/
     (u = false /\ e = Some (ErrEndOfFile find) /\ line = mkLine [] 0 [] /\
      pos p' = len (lines p') /\ recv p' = [])).
Proof.
  induction fuel as [|fuel IH]; intros p Hwf Hfuel; [lia|].
  destruct (Next_wf p Hwf) as [line [p1 [HN [Hw1 [Hi [He [[more Hmore] Hadv]]]]]]].
  assert (Hp1 : pos p1 <= pos p + 1).
  { destruct Hadv as [[Hp _]|[Hp _]]; [lia|subst p1; lia]. }
  cbn [FindUntil_loop]. rewrite HN. cbn [bind].
  destruct (IsAtStart_returns line find) as [found Hfound].
  rewrite Hfound. cbn [bind].
  destruct found.
  - exists line, false, None, p1. split; [reflexivity|]. split; [exact Hw1|].
    split; [exact He|]. split; [eauto|]. split; [|left; auto].
    intros i l Hr Hl. lia.
  - destruct (IsAtStart_returns line until) as [stop Hstop].
    rewrite Hstop. cbn [bind]. destruct stop.
    + assert (Hpos : 0 < pos p1).
      { unfold index_at in Hi. destruct (pos p1 - 1 <? 0) eqn:E; [discriminate|].
        apply Z.ltb_ge in E. lia. }
      destruct (Backup_wf p1 Hw1) as [_ HB].
      destruct (HB Hpos) as [line' [Hline' [HB' Hw']]].
      rewrite HB'. cbn [bind].
      destruct (Next_inside (set_pos p1 (pos p1 - 1))) as [l2 [Hl2 HN2]].
      { unfold set_pos. cbn [pos lines]. destruct Hw1 as [[? ?] _]. lia. }
      unfold set_pos in Hl2 at 1 2. cbn [pos lines] in Hl2.
      rewrite Hi in Hl2. injection Hl2 as Hl2. subst l2.
      exists (mkLine [] 0 []), true, None, (set_pos p1 (pos p1 - 1)).
      split; [reflexivity|]. split; [exact Hw'|].
      unfold set_pos at 1 2 3 4. cbn [pos lines err].
      split; [exact He|]. split; [eauto|]. split.
      * intros i l Hr Hl. lia.
      * right. left. split; [reflexivity|]. split; [reflexivity|].
        split; [reflexivity|]. eauto.
    + destruct (wf_lines_EOF p1 line Hw1 (index_at_In _ _ _ Hi)) as [atEnd Hend].
      rewrite Hend. cbn [bind]. destruct atEnd.
      * destruct (wf_at_end p1 line Hw1 Hi Hend) as [front [Hl [Hpos Hrecv]]].
        exists (mkLine [] 0 []), false, (Some (ErrEndOfFile find)), p1.
        split; [reflexivity|]. split; [exact Hw1|]. split; [exact He|].
        split; [eauto|]. split.
        { intros i l Hr Hil. lia. }
        { right. right. auto. }
      * destruct Hadv as [[Hp Hrem]|[_ [_ Hc]]]; [|congruence].
        destruct (IH p1 Hw1)
          as [line' [u [e [p' [HF [Hw' [He' [[more' Hmore'] [Hskip Hres]]]]]]]]];
          [lia|].
        exists line', u, e, p'. split; [exact HF|]. split; [exact Hw'|].
        split; [congruence|].
        split; [exists (more ++ more'); rewrite Hmore', Hmore, app_assoc; reflexivity|].
        split; [|exact Hres].
        intros i l Hr Hil.
        destruct (Z.eq_dec i (pos p)) as [E|E].
        { subst i. replace (pos p1 - 1) with (pos p) in Hi by lia.
          apply (index_at_app_l _ more') in Hi. rewrite <- Hmore' in Hi.
          rewrite Hi in Hil. injection Hil as Hil. subst l. auto. }
        { apply (Hskip i l); [lia|exact Hil]. }
Qed.

(** X5. [FindUntil] returns on every parser the calls reach, with one of
    three results. A line that begins with [find], in front of the
    cursor. Or [untilFound]: then the cursor is in front of the line
    that stopped the search, so the next [Next] returns a line that
    begins with [until] and not with [find]. Or the error, with the
    cursor behind the last line of the input. In each case no line the
    search passed over begins with [find] or with [until]. *)
Theorem FindUntil_stops_at_boundary (p : Parser) (find until : list gostring) :
  parser_wf p ->
  exists line u e p',
    FindUntil p find until = Returns (line, u, e, p') /\
    parser_wf p' /\
    (forall i l, pos p <= i < (if u then pos p' else pos p' - 1) ->
                 index_at (lines p') i = Returns l ->
                 IsAtStart l find = Returns false /\
                 IsAtStart l until = Returns false) /\
    ((u = false /\ e = None /\ IsAtStart line find = Returns true /\
      index_at (lines p') (pos p' - 1) = Returns line) \/
     (u = true /\ e = None /\ line = mkLine [] 0 [] /\
      exists l p'', Next p' = Returns (l, p'') /\
                    IsAtStart l find = Returns false /\
                    IsAtStart l until = Returns true) \/
     (u = false /\ e = Some (ErrEndOfFile find) /\ line = mkLine [] 0 [] /\
      pos p' = len (lines p') /\ recv p' = [])).
Proof.
  intros Hwf.
  destruct (FindUntil_loop_spec find until _ p Hwf (remaining_bound p Hwf))
    as [line [u [e [p' [HF [Hw [He [_ [Hskip Hres]]]]]]]]].
  exists line, u, e, p'. unfold FindUntil. auto.
Qed.

(** The witness: the search for a line that begins with [c], until one
    that begins with [b]. *)
Lemma FindUntil_stops_at_boundary_witness :
  exists line u e p',
    FindUntil twoLinesFresh [[99]] [[98]] = Returns (line, u, e, p') /\
    parser_wf p' /\
    (forall i l, pos twoLinesFresh <= i < (if u then pos p' else pos p' - 1) ->
                 index_at (lines p') i = Returns l ->
                 IsAtStart l [[99]] = Returns false /\
                 IsAtStart l [[98]] = Returns false) /\
    ((u = false /\ e = None /\ IsAtStart line [[99]] = Returns true /\
      index_at (lines p') (pos p' - 1) = Returns line) \/
     (u = true /\ e = None /\ line = mkLine [] 0 [] /\
      exists l p'', Next p' = Returns (l, p'') /\
                    IsAtStart l [[99]] = Returns false /\
                    IsAtStart l [[98]] = Returns true) \/
     (u = false /\ e = Some (ErrEndOfFile [[99]]) /\ line = mkLine [] 0 [] /\
      pos p' = len (lines p') /\ recv p' = [])).
Proof.
  apply (FindUntil_stops_at_boundary twoLinesFresh [[99]] [[98]]).
  twoLinesFresh_wf.
Defined.

(** ** The regexp forms *)

Section RegexpProps.

Variable Regexp : Type.
Variable MatchString : Regexp -> gostring -> bool.

Lemma IsREStart_loop_matches (line : Line) (find : list Regexp) :
  forall i : Z,
  0 <= i -> i + len find <= len (Items line) ->
  exists b,
    IsREStart_loop MatchString line i find = Returns b /\
    (b = true <->
     forall (k : nat) (f : Regexp), nth_error find k = Some f ->
       exists it, nth_error (Items line) (Z.to_nat i + k) = Some it /\
                  MatchString f (Val it) = true).
Proof.
  induction find as [|f find IH]; intros i Hi Hlen.
  - exists true. split; [reflexivity|]. split; [|reflexivity].
    intros _ k f H. destruct k; discriminate.
  - assert (Hlen' : len (f :: find) = 1 + len find) by (unfold len; simpl length; lia).
    pose proof (len_nonneg find) as Hf.
    destruct (IH (i + 1)) as [b [Hb Hspec]]; [lia|lia|].
    assert (Hshift : forall k, (Z.to_nat (i + 1) + k = Z.to_nat i + S k)%nat) by lia.
    cbn [IsREStart_loop].
    destruct (index_at_Returns (Items line) i) as [it [Hit Hnth]]; [lia|].
    rewrite Hit. cbn [bind].
    destruct (MatchString f (Val it)) eqn:Hval; cbn [negb].
    + exists b. split; [exact Hb|]. rewrite Hspec. split.
      * intros H k g Hk. destruct k as [|k].
        { simpl in Hk. injection Hk as Hk. subst g. exists it.
          rewrite Nat.add_0_r. auto. }
        { simpl in Hk. rewrite <- Hshift. apply H. exact Hk. }
      * intros H k g Hk. rewrite Hshift. apply H. exact Hk.
    + exists false. split; [reflexivity|]. split; [discriminate|].
      intros H. exfalso. destruct (H O f eq_refl) as [it' [Hit' Hv]].
      rewrite Nat.add_0_r in Hit'. rewrite Hnth in Hit'.
      injection Hit' as Hit'. subst it'. congruence.
Qed.

Lemma IsREStart_returns (line : Line) (find : list Regexp) :
  exists b, IsREStart MatchString line find = Returns b.
Proof.
  unfold IsREStart.
  destruct (len find =? 0); [eauto|].
  destruct (len (Items line) <? len find) eqn:H1; [eauto|].
  apply Z.ltb_ge in H1.
  destruct (IsREStart_loop_matches line find 0) as [b [Hb _]]; [lia|lia|].
  eauto.
Qed.

(** X6. [IsREStart] returns, and never reads an item the line does not
    have. It is false for the empty pattern (where [IsAtStart] is
    true) and for a pattern longer than the line; otherwise it is true
    exactly when every regexp of the pattern matches the value of the
    item of the line at its position. *)
Theorem IsREStart_matches (line : Line) (find : list Regexp) :
  exists b,
    IsREStart MatchString line find = Returns b /\
    (find = [] -> b = false /\ IsAtStart line [] = Returns true) /\
    (len (Items line) < len find -> b = false) /\
    (find <> [] -> len find <= len (Items line) ->
     (b = true <->
      forall (k : nat) (f : Regexp), nth_error find k = Some f ->
        exists it, nth_error (Items line) k = Some it /\
                   MatchString f (Val it) = true)).
Proof.
  unfold IsREStart.
  destruct (len find =? 0) eqn:H0.
  - apply Z.eqb_eq, len_nil_iff in H0. subst find. exists false.
    split; [reflexivity|]. split; [split; reflexivity|].
    split; [reflexivity|]. intros C. congruence.
  - apply Z.eqb_neq in H0.
    destruct (len (Items line) <? len find) eqn:H1.
    + apply Z.ltb_lt in H1. exists false. split; [reflexivity|].
      split; [intros C; subst find; exfalso; apply H0; reflexivity|].
      split; [reflexivity|]. intros _ C. lia.
    + apply Z.ltb_ge in H1.
      destruct (IsREStart_loop_matches line find 0) as [b [Hb Hspec]]; [lia|lia|].
      exists b. split; [exact Hb|].
      split; [intros C; subst find; exfalso; apply H0; reflexivity|].
      split; [intros C; lia|]. intros _ _. exact Hspec.
Qed.

(** What the loop of [FindREStart] does from a well-formed parser. *)
Lemma FindREStart_loop_spec (find : list Regexp) :
  forall (fuel : nat) (p : Parser),
  parser_wf p -> (remaining p < fuel)%nat ->
  exists line e p',
    FindREStart_loop MatchString fuel p find = Returns (line, e, p') /\
    parser_wf p' /\
    err p' = err p /\
    (exists more, lines p' = lines p ++ more) /\
    (forall i l, pos p <= i < pos p' - 1 ->
                 index_at (lines p') i = Returns l ->
                 IsREStart MatchString l find = Returns false) /\
    ((e = None /\ IsREStart MatchString line find = Returns true /\
      index_at (lines p') (pos p' - 1) = Returns line) \/
     (e = Some ErrREEndOfFile /\ line = mkLine [] 0 [] /\
      pos p' = len (lines p') /\ recv p' = [] /\
      exists l, index_at (lines p') (pos p' - 1) = Returns l /\
                EOF l = Returns true /\
                IsREStart MatchString l find = Returns false)).
Proof.
  induction fuel as [|fuel IH]; intros p Hwf Hfuel; [lia|].
  destruct (Next_wf p Hwf) as [line [p1 [HN [Hw1 [Hi [He [[more Hmore] Hadv]]]]]]].
  cbn [FindREStart_loop]. rewrite HN. cbn [bind].
  destruct (IsREStart_returns line find) as [found Hfound].
  rewrite Hfound. cbn [bind].
  destruct found.
  - exists line, None, p1. split; [reflexivity|]. split; [exact Hw1|].
    split; [exact He|]. split; [eauto|]. split; [|left; auto].
    intros i l Hr Hl. destruct Hadv as [[Hp _]|[Hp _]]; [lia|subst p1; lia].
  - destruct (wf_lines_EOF p1 line Hw1 (index_at_In _ _ _ Hi)) as [atEnd Hend].
    rewrite Hend. cbn [bind]. destruct atEnd.
    + destruct (wf_at_end p1 line Hw1 Hi Hend) as [front [Hl [Hpos Hrecv]]].
      exists (mkLine [] 0 []), (Some ErrREEndOfFile), p1.
      split; [reflexivity|]. split; [exact Hw1|]. split; [exact He|].
      split; [eauto|]. split.
      * intros i l Hr Hil. destruct Hadv as [[Hp _]|[Hp _]]; [|subst p1; lia].
        assert (i = pos p1 - 1) by lia. lia.
      * right. split; [reflexivity|]. split; [reflexivity|].
        split; [exact Hpos|]. split; [exact Hrecv|]. exists line. auto.
    + destruct Hadv as [[Hp Hrem]|[_ [_ Hc]]]; [|congruence].
      destruct (IH p1 Hw1) as [line' [e [p' [HF [Hw' [He' [[more' Hmore'] [Hskip Hres]]]]]]]];
        [lia|].
      exists line', e, p'. split; [exact HF|]. split; [exact Hw'|].
      split; [congruence|].
      split; [exists (more ++ more'); rewrite Hmore', Hmore, app_assoc; reflexivity|].
      split; [|exact Hres].
      intros i l Hr Hil.
      destruct (Z.eq_dec i (pos p)) as [E|E].
      * subst i. replace (pos p1 - 1) with (pos p) in Hi by lia.
        apply (index_at_app_l _ more') in Hi. rewrite <- Hmore' in Hi.
        rewrite Hi in Hil. injection Hil as Hil. subst l. exact Hfound.
      * apply (Hskip i l); [lia|exact Hil].
Qed.

(** X7. [FindREStart] returns on every parser the calls reach. With an
    empty pattern it gives its error at once and leaves the parser as
    it is, without reading a line. Otherwise it finds the first line
    from the cursor on whose items match the regexps, or gives the
    end-of-file error with the cursor behind the last line. *)
Theorem FindREStart_finds_first (p : Parser) (find : list Regexp) :
  parser_wf p ->
  exists line e p',
    FindREStart MatchString p find = Returns (line, e, p') /\
    parser_wf p' /\
    (find = [] -> e = Some ErrEmptyRegexps /\ line = mkLine [] 0 [] /\ p' = p) /\
    (find <> [] ->
     (forall i l, pos p <= i < pos p' - 1 ->
                  index_at (lines p') i = Returns l ->
                  IsREStart MatchString l find = Returns false) /\
     ((e = None /\ IsREStart MatchString line find = Returns true /\
       index_at (lines p') (pos p' - 1) = Returns line) \/
      (e = Some ErrREEndOfFile /\ line = mkLine [] 0 [] /\
       pos p' = len (lines p') /\ recv p' = [] /\
       exists l, index_at (lines p') (pos p' - 1) = Returns l /\
                 EOF l = Returns true /\
                 IsREStart MatchString l find = Returns false))).
Proof.
  intros Hwf. unfold FindREStart.
  destruct (len find =? 0) eqn:H0.
  - apply Z.eqb_eq, len_nil_iff in H0. subst find.
    exists (mkLine [] 0 []), (Some ErrEmptyRegexps), p.
    split; [reflexivity|]. split; [exact Hwf|].
    split; [auto|]. intros C. congruence.
  - apply Z.eqb_neq in H0.
    destruct (FindREStart_loop_spec find _ p Hwf (remaining_bound p Hwf))
      as [line [e [p' [HF [Hw [He [_ [Hskip Hres]]]]]]]].
    exists line, e, p'. split; [exact HF|]. split; [exact Hw|].
    split; [intros C; subst find; exfalso; apply H0; reflexivity|].
    intros _. auto.
Qed.

End RegexpProps.

(** The witness: regexps are given by the string they match in full. *)
Lemma FindREStart_finds_first_witness :
  exists line e p',
    FindREStart gostring_eqb twoLinesFresh [[98]] = Returns (line, e, p') /\
    parser_wf p' /\
    ([[98]] = [] -> e = Some ErrEmptyRegexps /\ line = mkLine [] 0 [] /\
                    p' = twoLinesFresh) /\
    ([[98]] <> [] ->
     (forall i l, pos twoLinesFresh <= i < pos p' - 1 ->
                  index_at (lines p') i = Returns l ->
                  IsREStart gostring_eqb l [[98]] = Returns false) /\
     ((e = None /\ IsREStart gostring_eqb line [[98]] = Returns true /\
       index_at (lines p') (pos p' - 1) = Returns line) \/
      (e = Some ErrREEndOfFile /\ line = mkLine [] 0 [] /\
       pos p' = len (lines p') /\ recv p' = [] /\
       exists l, index_at (lines p') (pos p' - 1) = Returns l /\
                 EOF l = Returns true /\
                 IsREStart gostring_eqb l [[98]] = Returns false))).
Proof.
  apply (FindREStart_finds_first gostring gostring_eqb twoLinesFresh [[98]]).
  twoLinesFresh_wf.
Defined.

(** ** From the input to the lines *)

Lemma Next_pulls_line (p : Parser) :
  pos p = len (lines p) ->
  ends_EOF (recv p) ->
  Forall notEnd (lines p) ->
  exists line ch',
    pull_loop (recv p) (mkLine [] 0 []) = (line, ch') /\
    Next p = Returns (line, mkParser (lines p ++ [line]) (pos p + 1) ch' (err p)) /\
    lineCount (recv p) = S (lineCount ch') /\
    ((EOF line = Returns false /\ ends_EOF ch') \/
     (EOF line = Returns true /\ ch' = [])).
Proof.
  intros Hpos Hch Hlines.
  destruct (Next_pulls p Hpos Hch Hlines) as [line [ch' [HN [Hcount Hend]]]].
  destruct (pull_loop (recv p) (mkLine [] 0 [])) as [line2 ch2] eqn:Hpull.
  destruct (Next_wf p) as [l3 [p3 [HN3 [_ [Hi3 _]]]]].
  { split; [pose proof (len_nonneg (lines p)); lia|]. left. auto. }
  assert (HN2 : Next p = Returns (line2, mkParser (lines p ++ [line2]) (pos p + 1)
                                          ch2 (err p))).
  { unfold Next, pull. rewrite Hpull.
    unfold Next, pull in HN. rewrite Hpull in HN.
    destruct (len (lines p) =? 0) eqn:E0.
    - apply Z.eqb_eq, len_nil_iff in E0. rewrite E0 in *. cbn [len length] in Hpos.
      unfold append_line, set_pos. cbn [lines pos recv err app].
      rewrite Hpos. reflexivity.
    - replace (len (lines p) <=? pos p) with true in *
        by (symmetry; apply Z.leb_le; lia).
      destruct (index_at (lines p) (len (lines p) - 1)) as [lastLine| |];
        try discriminate.
      cbn [bind] in *. destruct (EOF lastLine) as [[|]| |]; try discriminate.
      + cbn [bind] in HN. injection HN as _ HN.
        apply (f_equal pos) in HN. cbn [pos] in HN. lia.
      + cbn [bind] in *. unfold append_line, set_pos in *.
        cbn [lines pos recv err] in *.
        replace (pos p + 1 - 1) with (len (lines p)) in * by lia.
        rewrite index_at_middle in *. reflexivity. }
  rewrite HN2 in HN. injection HN as E1 E2 E3. subst line ch'.
  exists line2, ch2. auto.
Qed.

Lemma lineWords_snoc (line : Line) (it : Item) (n : Z) (r : gostring) :
  lineWords (mkLine (Items line ++ [it]) n r) = lineWords line ++ itemWords it.
Proof.
  unfold lineWords. cbn [Items]. rewrite map_app, concat_app. cbn [map concat].
  rewrite app_nil_r. reflexivity.
Qed.

(** What one [pull] takes from the channel. *)
Lemma pull_loop_content (ch : list Item) :
  forall (line line' : Line) (ch' : list Item),
  pull_loop ch line = (line', ch') ->
  (0 < lineCount ch)%nat ->
  Forall (fun it => isTerminal it = false -> raw it = []) ch ->
  Raw line' ++ raws ch' = raws ch /\
  lineWords line' ++ concat (map itemWords ch')
  = lineWords line ++ concat (map itemWords ch) /\
  Forall (fun it => isTerminal it = false -> raw it = []) ch'.
Proof.
  induction ch as [|it ch IH]; intros line line' ch' Hpull Hcount Hraw.
  - unfold lineCount in Hcount. simpl in Hcount. lia.
  - inversion Hraw as [|it' ch0 Hit Hch]; subst.
    cbn [pull_loop] in Hpull.
    assert (Hword : isTerminal it = false ->
      pull_loop ch (mkLine (Items line ++ [it]) (LineNum line) (Raw line))
      = (line', ch') ->
      Raw line' ++ raws ch' = raws (it :: ch) /\
      lineWords line' ++ concat (map itemWords ch')
      = lineWords line ++ concat (map itemWords (it :: ch)) /\
      Forall (fun it => isTerminal it = false -> raw it = []) ch').
    { intros Ht Hp.
      destruct (IH _ _ _ Hp) as [H1 [H2 H3]].
      - unfold lineCount in *. simpl in Hcount. rewrite Ht in Hcount. exact Hcount.
      - exact Hch.
      - split; [|split; [|exact H3]].
        + unfold raws in *. cbn [map concat]. rewrite (Hit Ht). exact H1.
        + rewrite H2, lineWords_snoc. cbn [map concat].
          rewrite <- app_assoc. reflexivity. }
    assert (Hterm : isTerminal it = true ->
      (mkLine (Items line ++ [mkItem (Type_ it) (Val it) 0 []])
              (lineNum it) (raw it), ch) = (line', ch') ->
      Raw line' ++ raws ch' = raws (it :: ch) /\
      lineWords line' ++ concat (map itemWords ch')
      = lineWords line ++ concat (map itemWords (it :: ch)) /\
      Forall (fun it => isTerminal it = false -> raw it = []) ch').
    { intros _ Hp. injection Hp as Hp1 Hp2. subst line' ch'.
      split; [reflexivity|]. split; [|exact Hch].
      rewrite lineWords_snoc. cbn [map concat].
      rewrite <- app_assoc. reflexivity. }
    unfold isTerminal in Hword, Hterm.
    destruct (Type_ it); auto.
Qed.

Lemma NextN_content (n : nat) : forall p : Parser,
  pos p = len (lines p) ->
  ends_EOF (recv p) ->
  Forall notEnd (lines p) ->
  n = lineCount (recv p) ->
  Forall (fun it => isTerminal it = false -> raw it = []) (recv p) ->
  exists ls p',
    NextN n p = Returns (ls, p') /\
    concat (map Raw ls) = raws (recv p) /\
    concat (map lineWords ls) = concat (map itemWords (recv p)) /\
    lines p' = lines p ++ ls /\
    parser_wf p' /\ recv p' = [].
Proof.
  induction n as [|n IH]; intros p Hpos Hch Hlines Hn Hraw.
  - destruct (Next_pulls_line p Hpos Hch Hlines) as [l0 [c0 [_ [_ [Hc _]]]]]. lia.
  - destruct (Next_pulls_line p Hpos Hch Hlines)
      as [line [ch' [Hpull [HN [Hcount Hend]]]]].
    destruct (pull_loop_content _ _ _ _ Hpull) as [H1 [H2 H3]]; [lia|exact Hraw|].
    cbn [NextN]. rewrite HN. cbn [bind].
    set (p1 := mkParser (lines p ++ [line]) (pos p + 1) ch' (err p)).
    assert (Hpos1 : pos p1 = len (lines p1)).
    { unfold p1. cbn [pos lines]. rewrite len_app. unfold len at 2. simpl. lia. }
    destruct Hend as [[Hline Hch']|[Hline Hch']].
    + destruct (IH p1 Hpos1 Hch') as [ls [p' [G1 [G2 [G3 [G4 [G5 G6]]]]]]].
      { unfold p1. cbn [lines]. apply Forall_app. split; [exact Hlines|].
        constructor; [exact Hline|constructor]. }
      { unfold p1. cbn [recv]. lia. }
      { exact H3. }
      rewrite G1. cbn [bind]. exists (line :: ls), p'.
      split; [reflexivity|]. cbn [map concat].
      unfold p1 in G2, G3, G4. cbn [recv lines] in G2, G3, G4.
      split; [rewrite G2; exact H1|].
      split; [rewrite G3; exact H2|].
      split; [rewrite G4, <- app_assoc; reflexivity|]. auto.
    + subst ch'. unfold lineCount in Hcount at 2. simpl in Hcount.
      assert (n = O) by lia. subst n. cbn [NextN bind].
      exists [line], p1. split; [reflexivity|]. cbn [map concat].
      unfold raws in H1. cbn [map concat] in H1, H2. rewrite !app_nil_r in *.
      split; [exact H1|]. split; [exact H2|].
      split; [reflexivity|]. split; [|reflexivity].
      split; [rewrite Hpos1; pose proof (len_nonneg (lines p1)); lia|].
      right. split; [reflexivity|]. exists (lines p), line. auto.
Qed.

Lemma classified_words (isInt isFloat : gostring -> bool) (new : list Item) :
  Forall (classified isInt isFloat) new ->
  concat (map itemWords new) = wordVals new /\
  Forall (fun it => isTerminal it = false -> raw it = []) new /\
  Forall (fun it => Type_ it <> ItemEOF) new.
Proof.
  induction 1 as [|it new Hit Hnew [IH1 [IH2 IH3]]].
  - split; [reflexivity|]. split; constructor.
  - assert (Hcase : (Type_ it = ItemEOL /\ Val it = [10]) \/
                    ((Type_ it = ItemInt \/ Type_ it = ItemFloat \/ Type_ it = ItemText)
                     /\ raw it = [])).
    { destruct Hit as [Hit|[Ht [_ [Hr _]]]]; [left; exact Hit|right].
      split; [|exact Hr]. rewrite Ht. unfold classifyWord.
      destruct (isInt (Val it)); [auto|]. destruct (isFloat (Val it)); auto. }
    unfold wordVals in *. cbn [map concat filter]. unfold itemWords at 1, isWordB at 1.
    assert (Hne : Type_ it <> ItemEOF).
    { destruct Hcase as [[Ht _]|[[Ht|[Ht|Ht]] _]]; rewrite Ht; discriminate. }
    assert (Hr : isTerminal it = false -> raw it = []).
    { unfold isTerminal.
      destruct Hcase as [[Ht _]|[_ Hr]]; [rewrite Ht; discriminate|auto]. }
    split; [|split; constructor; assumption].
    destruct Hcase as [[Ht _]|[[Ht|[Ht|Ht]] _]]; rewrite Ht; cbn [app map];
      rewrite IH1; reflexivity.
Qed.

Section EndToEnd.

Variables isInt isFloat : gostring -> bool.
Variable input : gostring.

Hypothesis isInt_empty : isInt [] = false.
Hypothesis isFloat_empty : isFloat [] = false.
Hypothesis no_EOF_rune : ~ In runeEOF input.

(** X12. From the input to the lines: as many calls of [Next] on the new
    parser as the input has lines return lines whose raw texts, joined,
    are the input followed by U+0001, and whose words, in order, are
    the fields of the input (the last field of an input that does not
    end in a space being the value of the [ItemEOF] item). After them
    the channel is empty. *)
Theorem lines_hold_the_input :
  exists p0 ls p',
    newParser isInt isFloat input = Returns p0 /\
    NextN (inputLines isInt isFloat input) p0 = Returns (ls, p') /\
    concat (map Raw ls) = input ++ [runeEOF] /\
    concat (map lineWords ls) = fields input /\
    lines p' = ls /\ recv p' = [].
Proof.
  destruct (LexerFacts.run_fields isInt isFloat input isInt_empty isFloat_empty
              no_EOF_rune) as [new [eof [Hrun [Heof [Hcl [Hfl Hraw]]]]]].
  destruct (classified_words isInt isFloat new Hcl) as [Hw [Hr Hne]].
  set (p0 := mkParser [] 0 (new ++ [eof]) None).
  destruct (NextN_content (inputLines isInt isFloat input) p0)
    as [ls [p' [G1 [G2 [G3 [G4 [_ G6]]]]]]].
  - reflexivity.
  - exists new, eof. auto.
  - constructor.
  - unfold inputLines. rewrite Hrun. reflexivity.
  - cbn [recv p0]. apply Forall_app. split; [exact Hr|].
    constructor; [|constructor]. unfold isTerminal. rewrite Heof. discriminate.
  - exists p0, ls, p'. unfold newParser. rewrite Hrun. cbn [bind].
    split; [reflexivity|]. split; [exact G1|].
    cbn [recv lines p0 app] in G2, G3, G4.
    split; [rewrite G2; symmetry; exact Hraw|].
    split; [|auto].
    rewrite G3, Hfl, map_app, concat_app, Hw. cbn [map concat].
    unfold itemWords. rewrite Heof, app_nil_r. reflexivity.
Qed.

End EndToEnd.

Lemma lines_hold_the_input_witness :
  exists p0 ls p',
    newParser Strconv.Atoi_ok Strconv.ParseFloat_ok [97; 32; 49; 10; 98]
    = Returns p0 /\
    NextN (inputLines Strconv.Atoi_ok Strconv.ParseFloat_ok [97; 32; 49; 10; 98]) p0
    = Returns (ls, p') /\
    concat (map Raw ls) = [97; 32; 49; 10; 98] ++ [runeEOF] /\
    concat (map lineWords ls) = fields [97; 32; 49; 10; 98] /\
    lines p' = ls /\ recv p' = [].
Proof.
  apply (lines_hold_the_input Strconv.Atoi_ok Strconv.ParseFloat_ok
           [97; 32; 49; 10; 98]).
  - reflexivity.
  - reflexivity.
  - simpl. unfold runeEOF. lia.
Defined.

End ParserProps.

(** ** Package line: joining, skipping and ranging *)

Module LineFacts.
Import Line LineSpec LineProps.

Lemma len_cons {A : Type} (a : A) (l : list A) : len (a :: l) = 1 + len l.
Proof. unfold len. simpl length. lia. Qed.

Lemma len_snoc {A : Type} (l : list A) (a : A) : len (l ++ [a]) = len l + 1.
Proof. rewrite len_app, len_cons. unfold len. simpl. lia. Qed.

(** [Next] with the index on an item: the item, and the index behind
    it unless the item is the newline. *)
Lemma Next_at (l : Lexer) (pre : list Item) (x : Item) (rest : list Item) :
  items l = pre ++ x :: rest -> index l = len pre ->
  Next l = Returns (x, mkLexer (after x (len pre)) (items l)).
Proof.
  intros Hi Hx. unfold Next. rewrite Hx, Hi.
  replace (len pre <? len (pre ++ x :: rest)) with true.
  - rewrite HalfpikeProps.index_at_middle. cbn [bind]. unfold after.
    destruct (ItemType_eqb (Type_ x) ItemEOL); cbn [negb]; [|reflexivity].
    destruct l as [i its]. cbn [index items] in *. subst. reflexivity.
  - symmetry. apply Z.ltb_lt. rewrite len_app, len_cons.
    pose proof (len_nonneg rest). lia.
Qed.

Lemma after_not_EOL (x : Item) (k : Z) :
  Type_ x <> ItemEOL -> after x k = k + 1.
Proof.
  intros H. unfold after. destruct (ItemType_eqb (Type_ x) ItemEOL) eqn:E;
    [apply ItemType_eqb_eq in E; contradiction|reflexivity].
Qed.

Lemma at_run_step (l : Lexer) (pre run : list Item) (x it : Item)
  (post : list Item) :
  at_run l pre (x :: run) it post ->
  at_run (mkLexer (len pre + 1) (items l)) (pre ++ [x]) run it post.
Proof.
  intros [Hi Hx]. unfold at_run. cbn [items index].
  rewrite Hi, <- app_assoc, len_snoc. auto.
Qed.

(** *** [SkipAllSpaces] *)

Lemma SkipAllSpaces_loop_run (it : Item) (post : list Item) :
  forall (run pre : list Item) (l : Lexer) (fuel : nat),
  at_run l pre run it post ->
  Forall (fun x => Type_ x = ItemSpace) run ->
  Type_ it <> ItemSpace ->
  (length run < fuel)%nat ->
  SkipAllSpaces_loop fuel l
  = Returns (mkLexer (after it (len pre + len run)) (items l)).
Proof.
  induction run as [|x run IH]; intros pre l fuel Hat Hrun Hit Hfuel;
    (destruct fuel as [|fuel]; [simpl in Hfuel; lia|]); cbn [SkipAllSpaces_loop].
  - destruct Hat as [Hi Hx]. cbn [app] in Hi.
    rewrite (Next_at l pre it post Hi Hx). cbn [bind].
    replace (len pre + len (@nil Item)) with (len pre) by (unfold len; simpl; lia).
    destruct (Type_ it); try reflexivity. congruence.
  - inversion Hrun as [|x' run' Hx' Hrun']; subst.
    pose proof Hat as [Hi Hx].
    rewrite (Next_at l pre x (run ++ it :: post)) by assumption. cbn [bind].
    rewrite Hx'. rewrite after_not_EOL by (rewrite Hx'; discriminate).
    rewrite (IH (pre ++ [x]) (mkLexer (len pre + 1) (items l)) fuel);
      [|apply at_run_step; exact Hat|exact Hrun'|exact Hit|simpl in Hfuel; lia].
    cbn [items]. rewrite len_snoc, len_cons.
    replace (len pre + 1 + len run) with (len pre + (1 + len run)) by lia.
    reflexivity.
Qed.

(** X16. [SkipAllSpaces] over a run of spaces in front of an item that is
    not a space. When that item is not the newline the index is left on
    it, so the next [Next] returns it. When it is the newline, which
    [Next] does not move over, the [Backup] that ends [SkipAllSpaces]
    moves the index one item back: behind a run of spaces that is not
    empty the next [Next] returns the last space of the run again. *)
Theorem SkipAllSpaces_lands (l : Lexer) (pre run : list Item) (it : Item)
  (post : list Item) (fuel : nat) :
  at_run l pre run it post ->
  Forall (fun x => Type_ x = ItemSpace) run ->
  Type_ it <> ItemSpace ->
  (length run < fuel)%nat ->
  exists l',
    SkipAllSpaces fuel l = Returns l' /\
    items l' = items l /\
    (Type_ it <> ItemEOL ->
     index l' = len pre + len run /\ exists l'', Next l' = Returns (it, l'')) /\
    (Type_ it = ItemEOL ->
     index l' = Z.max 0 (len pre + len run - 1) /\
     forall run' sp, run = run' ++ [sp] ->
       exists l'', Next l' = Returns (sp, l'')).
Proof.
  intros Hat Hrun Hit Hfuel. unfold SkipAllSpaces.
  rewrite (SkipAllSpaces_loop_run it post run pre l fuel Hat Hrun Hit Hfuel).
  cbn [bind]. pose proof (len_nonneg pre). pose proof (len_nonneg run).
  destruct Hat as [Hi Hx].
  unfold after, Backup. cbn [index items].
  destruct (ItemType_eqb (Type_ it) ItemEOL) eqn:E.
  - apply ItemType_eqb_eq in E.
    destruct (0 <=? len pre + len run - 1) eqn:E0.
    + apply Z.leb_le in E0. eexists. split; [reflexivity|]. cbn [items index].
      split; [reflexivity|]. split; [congruence|]. intros _.
      split; [lia|]. intros run' sp Hr. subst run.
      eexists. apply (Next_at _ (pre ++ run') sp (it :: post)).
      * cbn [items]. rewrite Hi, <- !app_assoc. reflexivity.
      * cbn [index]. rewrite len_snoc, len_app. lia.
    + apply Z.leb_gt in E0. eexists. split; [reflexivity|]. cbn [items index].
      split; [reflexivity|]. split; [congruence|]. intros _.
      split; [lia|]. intros run' sp Hr. subst run. rewrite len_snoc in E0.
      pose proof (len_nonneg run'). lia.
  - replace (0 <=? len pre + len run + 1 - 1) with true
      by (symmetry; apply Z.leb_le; lia).
    eexists. split; [reflexivity|]. cbn [items index].
    split; [reflexivity|]. split.
    + intros _. split; [lia|]. eexists.
      apply (Next_at _ (pre ++ run) it post).
      * cbn [items]. rewrite Hi, <- app_assoc. reflexivity.
      * cbn [index]. rewrite len_app. lia.
    + intros C. rewrite C in E. discriminate.
Qed.

(** The witness: the lexer of the line a, two spaces, newline, with the
    index on the first space. *)
Lemma SkipAllSpaces_lands_witness :
  exists l',
    SkipAllSpaces 3 (mkLexer 1 [mkItem ItemText [97]; mkItem ItemSpace [32];
                                mkItem ItemSpace [32]; mkItem ItemEOL [10]])
    = Returns l' /\
    items l' = items (mkLexer 1 [mkItem ItemText [97]; mkItem ItemSpace [32];
                                 mkItem ItemSpace [32]; mkItem ItemEOL [10]]) /\
    (Type_ (mkItem ItemEOL [10]) <> ItemEOL ->
     index l' = len [mkItem ItemText [97]]
                + len [mkItem ItemSpace [32]; mkItem ItemSpace [32]] /\
     exists l'', Next l' = Returns (mkItem ItemEOL [10], l'')) /\
    (Type_ (mkItem ItemEOL [10]) = ItemEOL ->
     index l' = Z.max 0 (len [mkItem ItemText [97]]
                         + len [mkItem ItemSpace [32]; mkItem ItemSpace [32]] - 1) /\
     forall run' sp,
       [mkItem ItemSpace [32]; mkItem ItemSpace [32]] = run' ++ [sp] ->
       exists l'', Next l' = Returns (sp, l'')).
Proof.
  apply (SkipAllSpaces_lands
           (mkLexer 1 [mkItem ItemText [97]; mkItem ItemSpace [32];
                       mkItem ItemSpace [32]; mkItem ItemEOL [10]])
           [mkItem ItemText [97]]
           [mkItem ItemSpace [32]; mkItem ItemSpace [32]]
           (mkItem ItemEOL [10]) [] 3).
  - split; reflexivity.
  - repeat constructor.
  - discriminate.
  - simpl. lia.
Defined.

(** *** [Skip] *)

Lemma Skip_loop_run (strs : list gostring) (it : Item) (post : list Item) :
  forall (run pre : list Item) (l : Lexer) (fuel : nat),
  at_run l pre run it post ->
  Forall (fun x => matchesAny strs x = true /\ Type_ x <> ItemEOL) run ->
  matchesAny strs it = false ->
  (length run < fuel)%nat ->
  Skip_loop fuel strs l
  = Returns (mkLexer (after it (len pre + len run)) (items l)).
Proof.
  induction run as [|x run IH]; intros pre l fuel Hat Hrun Hit Hfuel;
    (destruct fuel as [|fuel]; [simpl in Hfuel; lia|]); cbn [Skip_loop].
  - destruct Hat as [Hi Hx]. cbn [app] in Hi.
    rewrite (Next_at l pre it post Hi Hx). cbn [bind].
    replace (len pre + len (@nil Item)) with (len pre) by (unfold len; simpl; lia).
    rewrite Hit. reflexivity.
  - inversion Hrun as [|x' run' [Hx1 Hx2] Hrun']; subst.
    pose proof Hat as [Hi Hx].
    rewrite (Next_at l pre x (run ++ it :: post)) by assumption. cbn [bind].
    rewrite Hx1. cbn [negb]. rewrite after_not_EOL by exact Hx2.
    rewrite (IH (pre ++ [x]) (mkLexer (len pre + 1) (items l)) fuel);
      [|apply at_run_step; exact Hat|exact Hrun'|exact Hit|simpl in Hfuel; lia].
    cbn [items]. rewrite len_snoc, len_cons.
    replace (len pre + 1 + len run) with (len pre + (1 + len run)) by lia.
    reflexivity.
Qed.

(** X17. [Skip] over a run of items whose values are in [strs], none of
    them the newline, in front of an item whose value is not: the
    index is left on that item, unless it is the newline: then one
    item in front of it. *)
Theorem Skip_lands (strs : list gostring) (l : Lexer) (pre run : list Item)
  (it : Item) (post : list Item) (fuel : nat) :
  at_run l pre run it post ->
  Forall (fun x => matchesAny strs x = true /\ Type_ x <> ItemEOL) run ->
  matchesAny strs it = false ->
  (length run < fuel)%nat ->
  exists l',
    Skip fuel strs l = Returns l' /\
    items l' = items l /\
    (Type_ it <> ItemEOL ->
     index l' = len pre + len run /\ exists l'', Next l' = Returns (it, l'')) /\
    (Type_ it = ItemEOL -> index l' = Z.max 0 (len pre + len run - 1)).
Proof.
  intros Hat Hrun Hit Hfuel. unfold Skip.
  rewrite (Skip_loop_run strs it post run pre l fuel Hat Hrun Hit Hfuel).
  cbn [bind]. pose proof (len_nonneg pre). pose proof (len_nonneg run).
  destruct Hat as [Hi Hx].
  unfold after, Backup. cbn [index items].
  destruct (ItemType_eqb (Type_ it) ItemEOL) eqn:E.
  - apply ItemType_eqb_eq in E.
    destruct (0 <=? len pre + len run - 1) eqn:E0;
      [apply Z.leb_le in E0|apply Z.leb_gt in E0];
      (eexists; split; [reflexivity|]; cbn [items index];
       split; [reflexivity|]; split; [congruence|]; intros _; lia).
  - replace (0 <=? len pre + len run + 1 - 1) with true
      by (symmetry; apply Z.leb_le; lia).
    eexists. split; [reflexivity|]. cbn [items index].
    split; [reflexivity|]. split.
    + intros _. split; [lia|]. eexists.
      apply (Next_at _ (pre ++ run) it post).
      * cbn [items]. rewrite Hi, <- app_assoc. reflexivity.
      * cbn [index]. rewrite len_app. lia.
    + intros C. rewrite C in E. discriminate.
Qed.

(** The witness: skipping the words a and b in front of c. *)
Lemma Skip_lands_witness :
  exists l',
    Skip 3 [[97]; [98]]
         (mkLexer 0 [mkItem ItemText [97]; mkItem ItemText [98];
                     mkItem ItemText [99]; mkItem ItemEOF []])
    = Returns l' /\
    items l' = items (mkLexer 0 [mkItem ItemText [97]; mkItem ItemText [98];
                                 mkItem ItemText [99]; mkItem ItemEOF []]) /\
    (Type_ (mkItem ItemText [99]) <> ItemEOL ->
     index l' = len (@nil Item)
                + len [mkItem ItemText [97]; mkItem ItemText [98]] /\
     exists l'', Next l' = Returns (mkItem ItemText [99], l'')) /\
    (Type_ (mkItem ItemText [99]) = ItemEOL ->
     index l' = Z.max 0 (len (@nil Item)
                         + len [mkItem ItemText [97]; mkItem ItemText [98]] - 1)).
Proof.
  apply (Skip_lands [[97]; [98]]
           (mkLexer 0 [mkItem ItemText [97]; mkItem ItemText [98];
                       mkItem ItemText [99]; mkItem ItemEOF []])
           [] [mkItem ItemText [97]; mkItem ItemText [98]]
           (mkItem ItemText [99]) [mkItem ItemEOF []] 3).
  - split; reflexivity.
  - repeat constructor; discriminate.
  - reflexivity.
  - simpl. lia.
Defined.

(** X18. [Skip] does not return when the index is on a newline item whose
    value is in [strs]: [Next] does not move over the newline, so every
    round of the loop reads it again, whatever the number of rounds
    allowed. *)
Theorem Skip_loops_on_newline (strs : list gostring) (l : Lexer)
  (pre : list Item) (it : Item) (post : list Item) (fuel : nat) :
  items l = pre ++ it :: post -> index l = len pre ->
  Type_ it = ItemEOL -> matchesAny strs it = true ->
  Skip fuel strs l = OutOfFuel.
Proof.
  intros Hi Hx Ht Hm. unfold Skip.
  assert (HN : Next l = Returns (it, l)).
  { rewrite (Next_at l pre it post Hi Hx). unfold after. rewrite Ht.
    cbn [ItemType_eqb]. destruct l as [i its]. cbn [index items] in *.
    subst. reflexivity. }
  assert (Hloop : Skip_loop fuel strs l = OutOfFuel).
  { induction fuel as [|fuel IH]; [reflexivity|].
    cbn [Skip_loop]. rewrite HN. cbn [bind]. rewrite Hm. exact IH. }
  rewrite Hloop. reflexivity.
Qed.

Lemma Skip_loops_on_newline_witness :
  Skip 1000 [[10]] (mkLexer 1 [mkItem ItemText [97]; mkItem ItemEOL [10]])
  = OutOfFuel.
Proof.
  apply (Skip_loops_on_newline [[10]]
           (mkLexer 1 [mkItem ItemText [97]; mkItem ItemEOL [10]])
           [mkItem ItemText [97]] (mkItem ItemEOL [10]) [] 1000).
  - reflexivity.
  - reflexivity.
  - reflexivity.
  - reflexivity.
Defined.

(** *** [Range] *)

Lemma Range_run (it : Item) (post : list Item) :
  forall (run pre : list Item) (l : Lexer) (fuel : nat),
  at_run l pre run it post ->
  Forall (fun x => ~ isTerminalType (Type_ x)) run ->
  isTerminalType (Type_ it) ->
  (length run < fuel)%nat ->
  Range fuel l
  = Returns (run ++ [it], mkLexer (after it (len pre + len run)) (items l)).
Proof.
  induction run as [|x run IH]; intros pre l fuel Hat Hrun Hit Hfuel;
    (destruct fuel as [|fuel]; [simpl in Hfuel; lia|]); cbn [Range].
  - destruct Hat as [Hi Hx]. cbn [app] in Hi.
    rewrite (Next_at l pre it post Hi Hx). cbn [bind].
    replace (len pre + len (@nil Item)) with (len pre) by (unfold len; simpl; lia).
    destruct Hit as [Hit|Hit]; rewrite Hit; reflexivity.
  - inversion Hrun as [|x' run' Hx' Hrun']; subst.
    pose proof Hat as [Hi Hx].
    rewrite (Next_at l pre x (run ++ it :: post)) by assumption. cbn [bind].
    rewrite after_not_EOL by (intros C; apply Hx'; left; exact C).
    rewrite (IH (pre ++ [x]) (mkLexer (len pre + 1) (items l)) fuel);
      [|apply at_run_step; exact Hat|exact Hrun'|exact Hit|simpl in Hfuel; lia].
    cbn [items bind]. rewrite len_snoc, len_cons.
    replace (len pre + 1 + len run) with (len pre + (1 + len run)) by lia.
    unfold isTerminalType in Hx'.
    destruct (Type_ x); try reflexivity; exfalso; apply Hx'; auto.
Qed.

(** X19. [Range], read to its end and never cancelled, carries the items
    from the index up to the first item that ends the line, that item
    included and nothing behind it; the index is left behind that item,
    or on it when it is the newline. *)
Theorem Range_yields_to_terminal (l : Lexer) (pre run : list Item) (it : Item)
  (post : list Item) (fuel : nat) :
  at_run l pre run it post ->
  Forall (fun x => ~ isTerminalType (Type_ x)) run ->
  isTerminalType (Type_ it) ->
  (length run < fuel)%nat ->
  exists l',
    Range fuel l = Returns (run ++ [it], l') /\
    items l' = items l /\
    index l' = after it (len pre + len run).
Proof.
  intros Hat Hrun Hit Hfuel.
  rewrite (Range_run it post run pre l fuel Hat Hrun Hit Hfuel).
  eexists. split; [reflexivity|]. split; reflexivity.
Qed.

Lemma Range_yields_to_terminal_witness :
  exists l',
    Range 3 (mkLexer 1 [mkItem ItemText [97]; mkItem ItemSpace [32];
                        mkItem ItemInt [49]; mkItem ItemEOL [10];
                        mkItem ItemText [98]; mkItem ItemEOF []])
    = Returns ([mkItem ItemSpace [32]; mkItem ItemInt [49]]
               ++ [mkItem ItemEOL [10]], l') /\
    items l' = items (mkLexer 1 [mkItem ItemText [97]; mkItem ItemSpace [32];
                                 mkItem ItemInt [49]; mkItem ItemEOL [10];
                                 mkItem ItemText [98]; mkItem ItemEOF []]) /\
    index l' = after (mkItem ItemEOL [10])
                 (len [mkItem ItemText [97]]
                  + len [mkItem ItemSpace [32]; mkItem ItemInt [49]]).
Proof.
  apply (Range_yields_to_terminal
           (mkLexer 1 [mkItem ItemText [97]; mkItem ItemSpace [32];
                       mkItem ItemInt [49]; mkItem ItemEOL [10];
                       mkItem ItemText [98]; mkItem ItemEOF []])
           [mkItem ItemText [97]]
           [mkItem ItemSpace [32]; mkItem ItemInt [49]]
           (mkItem ItemEOL [10])
           [mkItem ItemText [98]; mkItem ItemEOF []] 3).
  - split; reflexivity.
  - repeat constructor; intros [H|H]; discriminate.
  - left. reflexivity.
  - simpl. lia.
Defined.

(** *** [Peek] and the items that end a line *)

(** X15. [Peek] with the index on an item returns the item. It leaves the
    lexer as it was unless the item is the newline: [Next] does not
    move over the newline and the [Backup] of [Peek] still moves the
    index back, so behind an item [x] the next [Next] returns [x], not
    the newline. *)
Theorem Peek_moves_back_at_newline (l : Lexer) (pre : list Item) (it : Item)
  (post : list Item) :
  items l = pre ++ it :: post -> index l = len pre ->
  exists l',
    Peek l = Returns (it, l') /\
    items l' = items l /\
    (Type_ it <> ItemEOL -> l' = l) /\
    (Type_ it = ItemEOL ->
     index l' = Z.max 0 (index l - 1) /\
     forall pre' x, pre = pre' ++ [x] ->
       exists l'', Next l' = Returns (x, l'')).
Proof.
  intros Hi Hx. unfold Peek. rewrite (Next_at l pre it post Hi Hx). cbn [bind].
  pose proof (len_nonneg pre). unfold after, Backup. cbn [index items].
  destruct (ItemType_eqb (Type_ it) ItemEOL) eqn:E.
  - apply ItemType_eqb_eq in E.
    destruct (0 <=? len pre - 1) eqn:E0;
      [apply Z.leb_le in E0|apply Z.leb_gt in E0];
      (eexists; split; [reflexivity|]; cbn [items index];
       split; [reflexivity|]; split; [congruence|]; intros _;
       split; [lia|]); intros pre' x Hp; subst pre.
    + eexists. apply (Next_at _ pre' x (it :: post)).
      * cbn [items]. rewrite Hi, <- app_assoc. reflexivity.
      * cbn [index]. rewrite len_snoc. lia.
    + rewrite len_snoc in E0. pose proof (len_nonneg pre'). lia.
  - replace (0 <=? len pre + 1 - 1) with true by (symmetry; apply Z.leb_le; lia).
    eexists. split; [reflexivity|]. cbn [items index].
    split; [reflexivity|]. split.
    + intros _. destruct l as [i its]. cbn [index items] in *.
      subst i. f_equal. lia.
    + intros C. rewrite C in E. discriminate.
Qed.

(** The witness: the lexer of the line a, newline, with the index on
    the newline. *)
Lemma Peek_moves_back_at_newline_witness :
  exists l',
    Peek (mkLexer 1 [mkItem ItemText [97]; mkItem ItemEOL [10]])
    = Returns (mkItem ItemEOL [10], l') /\
    items l' = items (mkLexer 1 [mkItem ItemText [97]; mkItem ItemEOL [10]]) /\
    (Type_ (mkItem ItemEOL [10]) <> ItemEOL ->
     l' = mkLexer 1 [mkItem ItemText [97]; mkItem ItemEOL [10]]) /\
    (Type_ (mkItem ItemEOL [10]) = ItemEOL ->
     index l' = Z.max 0 (index (mkLexer 1 [mkItem ItemText [97];
                                           mkItem ItemEOL [10]]) - 1) /\
     forall pre' x, [mkItem ItemText [97]] = pre' ++ [x] ->
       exists l'', Next l' = Returns (x, l'')).
Proof.
  apply (Peek_moves_back_at_newline
           (mkLexer 1 [mkItem ItemText [97]; mkItem ItemEOL [10]])
           [mkItem ItemText [97]] (mkItem ItemEOL [10]) []).
  - reflexivity.
  - reflexivity.
Defined.

(** *** The lexers of [New] *)

Section NewFacts.

Variable IsNumber : rune -> bool.

Lemma ItemJoin_acc (its : list Item) : forall b : gostring,
  fold_left (fun b i => b ++ Val i) its b = b ++ concat (map Val its).
Proof.
  induction its as [|i its IH]; intros b; cbn [fold_left map concat].
  - rewrite app_nil_r. reflexivity.
  - rewrite IH, <- app_assoc. reflexivity.
Qed.

Lemma ItemJoin_app (a b : list Item) : ItemJoin (a ++ b) = ItemJoin a ++ ItemJoin b.
Proof.
  unfold ItemJoin. rewrite !ItemJoin_acc, map_app, concat_app. reflexivity.
Qed.

Lemma ItemJoin_one (i : Item) : ItemJoin [i] = Val i.
Proof. unfold ItemJoin. cbn [fold_left app]. reflexivity. Qed.

Lemma buffItem_Val (s : scan) : Val (buffItem s) = buff s.
Proof.
  unfold buffItem. destruct (isNumber s && isFloat s); [reflexivity|].
  destruct (isNumber s); reflexivity.
Qed.

Lemma buffItem_Type (s : scan) : Type_ (buffItem s) <> ItemEOF.
Proof.
  unfold buffItem. destruct (isNumber s && isFloat s); [discriminate|].
  destruct (isNumber s); discriminate.
Qed.

Lemma buff_empty (s : scan) : (0 <? len (buff s)) = false -> buff s = [].
Proof.
  intros H. apply Z.ltb_ge in H. pose proof (len_nonneg (buff s)).
  apply len_nil_iff. lia.
Qed.

(** Every rune the loop reads goes to the buffer or to an item, and no
    item of the loop is an [ItemEOF]. *)
Lemma New_step_join (s : scan) (r : rune) :
  ItemJoin (s_items (New_step IsNumber s r)) ++ buff (New_step IsNumber s r)
  = (ItemJoin (s_items s) ++ buff s) ++ [r] /\
  (Forall (fun it => Type_ it <> ItemEOF) (s_items s) ->
   Forall (fun it => Type_ it <> ItemEOF) (s_items (New_step IsNumber s r))).
Proof.
  unfold New_step.
  destruct (Unicode.IsSpace r).
  - destruct (0 <? len (buff s)) eqn:Eb.
    + destruct (r =? 10); cbn [s_items buff]; rewrite !ItemJoin_app, !ItemJoin_one,
        buffItem_Val, app_nil_r; cbn [Val];
        (split; [reflexivity|]); intros H;
        (apply Forall_app; split; [apply Forall_app; split; [exact H|]|]);
        constructor; try constructor; try apply buffItem_Type; discriminate.
    + rewrite (buff_empty s Eb).
      destruct (r =? 10); cbn [s_items buff]; rewrite !ItemJoin_app, !ItemJoin_one,
        !app_nil_r; cbn [Val];
        (split; [reflexivity|]); intros H;
        (apply Forall_app; split; [exact H|]);
        constructor; try constructor; discriminate.
  - destruct (IsNumber r); [|destruct (r =? 46)]; cbn [s_items buff];
      rewrite app_assoc; auto.
Qed.

Lemma fold_New_step_join (line : gostring) : forall s : scan,
  ItemJoin (s_items (fold_left (New_step IsNumber) line s))
  ++ buff (fold_left (New_step IsNumber) line s)
  = (ItemJoin (s_items s) ++ buff s) ++ line /\
  (Forall (fun it => Type_ it <> ItemEOF) (s_items s) ->
   Forall (fun it => Type_ it <> ItemEOF)
          (s_items (fold_left (New_step IsNumber) line s))).
Proof.
  induction line as [|r line IH]; intros s; cbn [fold_left].
  - rewrite app_nil_r. auto.
  - destruct (IH (New_step IsNumber s r)) as [H1 H2].
    destruct (New_step_join s r) as [G1 G2].
    rewrite H1, G1, <- app_assoc. split; [reflexivity|]. auto.
Qed.

Lemma closed_items_join (line : gostring) :
  ItemJoin (closed_items IsNumber line) = line /\
  Forall (fun it => Type_ it <> ItemEOF) (closed_items IsNumber line).
Proof.
  destruct (fold_New_step_join line (mkScan [] [] false false)) as [H1 H2].
  fold (New_loop IsNumber line) in H1, H2. cbn [s_items buff app] in H1, H2.
  change (ItemJoin []) with (@nil rune) in H1. cbn [app] in H1.
  unfold closed_items.
  destruct (0 <? len (buff (New_loop IsNumber line))) eqn:Eb.
  - rewrite ItemJoin_app, ItemJoin_one, buffItem_Val. split; [exact H1|].
    apply Forall_app. split; [apply H2; constructor|].
    constructor; [apply buffItem_Type|constructor].
  - rewrite (buff_empty _ Eb), app_nil_r in H1. split; [exact H1|].
    apply H2. constructor.
Qed.

(** The lexer of a line: its items, joined, are the line; the last
    item ends the line and no other item is an [ItemEOF]. *)
Lemma New_lexer (line : gostring) :
  line <> [] ->
  exists l,
    New IsNumber line = Returns l /\ index l = 0 /\
    ItemJoin (items l) = line /\ ends_line l.
Proof.
  intros Hne.
  destruct (New_Returns IsNumber line Hne) as [its [it [Hc HN]]].
  destruct (closed_items_join line) as [Hj Hf].
  rewrite Hc in Hj, Hf. apply Forall_app in Hf. destruct Hf as [Hf1 Hf2].
  eexists. split; [exact HN|]. cbn [index items]. split; [reflexivity|].
  destruct (ItemType_eqb (Type_ it) ItemEOL) eqn:E.
  - split; [exact Hj|]. exists its, it. split; [reflexivity|].
    split; [left; apply ItemType_eqb_eq; exact E|exact Hf1].
  - split.
    + rewrite app_assoc, ItemJoin_app, Hj, ItemJoin_one. cbn [Val].
      apply app_nil_r.
    + exists (its ++ [it]), (mkItem ItemEOF []).
      split; [rewrite <- app_assoc; reflexivity|].
      split; [right; reflexivity|]. apply Forall_app. auto.
Qed.

(** X13. [ItemJoin] undoes [New]: the values of the items of a line that is
    not empty, joined, are the line, rune for rune. *)
Theorem ItemJoin_New (line : gostring) :
  line <> [] ->
  exists l, New IsNumber line = Returns l /\ ItemJoin (items l) = line.
Proof.
  intros Hne. destruct (New_lexer line Hne) as [l [HN [_ [Hj _]]]]. eauto.
Qed.

Lemma index_at_EOF_last (its : list Item) (t it : Item) (i : Z) :
  Forall (fun x => Type_ x <> ItemEOF) its ->
  index_at (its ++ [t]) i = Returns it -> Type_ it = ItemEOF ->
  i = len its /\ it = t.
Proof.
  intros Hf Hi Ht. unfold index_at in Hi.
  destruct (i <? 0) eqn:E; [discriminate|]. apply Z.ltb_ge in E.
  destruct (nth_error (its ++ [t]) (Z.to_nat i)) as [x|] eqn:Hn; [|discriminate].
  injection Hi as Hi. subst x.
  destruct (Nat.lt_ge_cases (Z.to_nat i) (length its)) as [Hlt|Hge].
  - rewrite nth_error_app1 in Hn by exact Hlt. apply nth_error_In in Hn.
    rewrite Forall_forall in Hf. exfalso. apply (Hf it Hn Ht).
  - rewrite nth_error_app2 in Hn by exact Hge.
    destruct (Z.to_nat i - length its)%nat as [|k] eqn:Ek.
    + injection Hn as Hn. unfold len. split; [lia|congruence].
    + destruct k; discriminate.
Qed.

(** Once [Next] has returned an item that ends the line, it returns
    that item again and leaves the lexer as it is. *)
Lemma Next_terminal_repeats (l l1 : Lexer) (it : Item) :
  cursor_ok l -> ends_line l ->
  Next l = Returns (it, l1) -> isTerminalType (Type_ it) ->
  Next l1 = Returns (it, l1).
Proof.
  intros [Hne [H0 H1]] [its [t [Hi [Ht Hf]]]] HN Hterm.
  pose proof HN as HN0. unfold Next in HN.
  destruct (index l <? len (items l)) eqn:E.
  - destruct (index_at (items l) (index l)) as [x| |] eqn:Hx; try discriminate.
    cbn [bind] in HN.
    destruct (ItemType_eqb (Type_ x) ItemEOL) eqn:Ex; cbn [negb] in HN;
      injection HN as HN1 HN2; subst x l1; [exact HN0|].
    destruct Hterm as [C|Hterm];
      [apply ItemType_eqb_eq in C; congruence|].
    rewrite Hi in Hx.
    destruct (index_at_EOF_last its t it (index l) Hf Hx Hterm) as [Hidx Heq].
    subst it. unfold Next. cbn [index items]. rewrite Hi, Hidx, len_snoc.
    rewrite Z.ltb_irrefl. rewrite <- (len_snoc its t), index_at_last. reflexivity.
  - destruct (index_at (items l) (len (items l) - 1)) as [x| |]; try discriminate.
    cbn [bind] in HN. injection HN as HN1 HN2. subst x l1. exact HN0.
Qed.

(** X14. The contract of [Next] holds on the lexers of [New], whatever
    calls were made on them: once [Next] has returned an [ItemEOL] or
    an [ItemEOF] item, every further [Next] returns that same item. *)
Theorem Next_repeats_terminal (line : gostring) (l0 : Lexer) (cs : list call) :
  New IsNumber line = Returns l0 ->
  Forall (in_range l0) cs ->
  exists l,
    do_calls cs l0 = Returns l /\
    exists it l1,
      Next l = Returns (it, l1) /\
      (isTerminalType (Type_ it) ->
       forall n : nat, do_calls (repeat CallNext n) l1 = Returns l1 /\
                       Next l1 = Returns (it, l1)).
Proof.
  intros HN Hr.
  assert (Hne : line <> []).
  { intros C. subst line. discriminate. }
  destruct (New_lexer line Hne) as [l0' [HN' [Hi0 [_ Hend]]]].
  rewrite HN in HN'. injection HN' as HN'. subst l0'.
  assert (Hok : cursor_ok l0).
  { destruct Hend as [its [t [Hi _]]]. split.
    - rewrite Hi. intros C. apply app_eq_nil in C. destruct C; discriminate.
    - rewrite Hi0. pose proof (len_nonneg (items l0)). lia. }
  destruct (do_calls_cursor_ok cs l0 Hok Hr) as [l [Hl [Hil Hokl]]].
  assert (Hendl : ends_line l).
  { unfold ends_line. rewrite Hil. exact Hend. }
  destruct (Next_cursor_ok l Hokl) as [it [l1 [HNl [Hil1 [Hok1 _]]]]].
  exists l. split; [exact Hl|]. exists it, l1. split; [exact HNl|].
  intros Hterm.
  pose proof (Next_terminal_repeats l l1 it Hokl Hendl HNl Hterm) as Hrep.
  intros n. split; [|exact Hrep].
  induction n as [|n IH]; [reflexivity|].
  cbn [repeat do_calls do_call]. rewrite Hrep. cbn [bind]. exact IH.
Qed.

End NewFacts.

Lemma ItemJoin_New_witness :
  exists l, New Unicode.IsNumberLatin1 [97; 32; 49; 46; 53; 10] = Returns l /\
            ItemJoin (items l) = [97; 32; 49; 46; 53; 10].
Proof.
  apply (ItemJoin_New Unicode.IsNumberLatin1 [97; 32; 49; 46; 53; 10]).
  discriminate.
Defined.

Lemma Next_repeats_terminal_witness :
  exists l,
    do_calls [CallNext; CallPeek; CallNext; CallNext]
             (mkLexer 0 [mkItem ItemText [97]; mkItem ItemSpace [32];
                         mkItem ItemInt [49]; mkItem ItemEOF []])
    = Returns l /\
    exists it l1,
      Next l = Returns (it, l1) /\
      (isTerminalType (Type_ it) ->
       forall n : nat, do_calls (repeat CallNext n) l1 = Returns l1 /\
                       Next l1 = Returns (it, l1)).
Proof.
  apply (Next_repeats_terminal Unicode.IsNumberLatin1 [97; 32; 49]
           (mkLexer 0 [mkItem ItemText [97]; mkItem ItemSpace [32];
                       mkItem ItemInt [49]; mkItem ItemEOF []])
           [CallNext; CallPeek; CallNext; CallNext]).
  - reflexivity.
  - repeat constructor.
Defined.

End LineFacts.

(** ** Package line: decoding lists *)

Module DecodeFacts.
Import Line LineSpec LineProps LineFacts.

(** The right delimiter is found by its rune only, as the last rune of
    an item. *)
Lemma decode_rune_right_only (c : chars) (r : rune) (rest : gostring)
  (s s' : dstate) :
  decode_rune c r rest s = (s', None) ->
  foundRightConstraint s = false -> foundRightConstraint s' = true ->
  r = rc c /\ rest = [].
Proof.
  unfold decode_rune.
  destruct (decode_switch c r rest s) as [s1 e] eqn:E.
  intros H Hs Hs'. injection H as H1 H2. subst s' e.
  cbn [deferred foundRightConstraint] in Hs'.
  unfold decode_switch in E.
  repeat match type of E with
         | context [if ?b then _ else _] => destruct b eqn:?
         end;
    try (destruct rest);
    try discriminate E;
    injection E as E1; subst s1;
    cbn [entry_WriteRune set_foundLeftConstraint toggleQuote incr_read
         set_foundRightConstraint foundRightConstraint] in Hs';
    try congruence;
    try (unfold toggleQuote in Hs'; simpl in Hs';
         destruct (inQuote s); simpl in Hs'; congruence).
  split; [|reflexivity].
  match goal with H : (r =? rc c) = true |- _ => apply Z.eqb_eq in H; exact H end.
Qed.

Lemma decode_reader_right_only (c : chars) (rs : gostring) :
  forall s s' : dstate,
  decode_reader c rs s = (s', None) ->
  foundRightConstraint s = false -> foundRightConstraint s' = true ->
  exists pre, rs = pre ++ [rc c].
Proof.
  induction rs as [|r rest IH]; intros s s' H Hs Hs'.
  - cbn [decode_reader] in H. injection H as H. subst s'. congruence.
  - cbn [decode_reader] in H.
    destruct (decode_rune c r rest s) as [s1 [e|]] eqn:E; [discriminate|].
    destruct (foundRightConstraint s1) eqn:F1.
    + destruct (decode_rune_right_only c r rest s s1 E Hs F1) as [Hr Hrest].
      subst r rest. exists []. reflexivity.
    + destruct (IH s1 s' H F1 Hs') as [pre Hpre].
      exists (r :: pre). rewrite Hpre. reflexivity.
Qed.

Lemma byteLen_nonneg (s : gostring) : 0 <= byteLen s.
Proof.
  induction s as [|r s IH]; [simpl; lia|].
  cbn [byteLen fold_right]. fold (byteLen s). unfold RuneLen.
  destruct (r <? 128); [lia|]. destruct (r <? 2048); [lia|].
  destruct (r <? 65536); lia.
Qed.

Lemma firstRune_cons (r : rune) (s : gostring) : firstRune (r :: s) = Returns r.
Proof. reflexivity. Qed.

(** [setup] returns, and behind a [setup] without an error the runes
    of the configuration are there to be read. *)
Lemma setup_returns (d : DecodeList) :
  exists e, setup d = Returns e /\
            (e = None -> exists c, decodeChars d = Returns c).
Proof.
  unfold setup, decodeChars.
  destruct (LeftConstraint d) as [|l0 lt]; [cbn; eexists; split; [reflexivity|discriminate]|].
  destruct (RightConstraint d) as [|r0 rt]; [cbn; eexists; split; [reflexivity|discriminate]|].
  replace (gostring_eqb (l0 :: lt) []) with false
    by (symmetry; destruct (gostring_eqb (l0 :: lt) []) eqn:E;
        [apply gostring_eqb_eq in E; discriminate|reflexivity]).
  replace (gostring_eqb (r0 :: rt) []) with false
    by (symmetry; destruct (gostring_eqb (r0 :: rt) []) eqn:E;
        [apply gostring_eqb_eq in E; discriminate|reflexivity]).
  destruct (negb (byteLen (Separator d) =? 1)) eqn:Eb;
    [eexists; split; [reflexivity|discriminate]|].
  destruct (Separator d) as [|s0 st]; [discriminate|].
  rewrite !firstRune_cons. cbn [bind].
  destruct (Unicode.IsSpace s0); [eexists; split; [reflexivity|discriminate]|].
  destruct (gostring_eqb (EntryQuote d) []) eqn:Eq0;
    [eexists; split; [reflexivity|discriminate]|].
  destruct (negb (gostring_eqb (EntryQuote d) [34])
            && negb (gostring_eqb (EntryQuote d) [39])) eqn:Eq;
    [eexists; split; [reflexivity|discriminate]|].
  eexists. split; [reflexivity|]. intros _.
  destruct (EntryQuote d) as [|q0 qt];
    [exfalso; destruct (gostring_eqb [] []) eqn:C; [discriminate|];
     assert (gostring_eqb (@nil rune) [] = true) by (apply gostring_eqb_eq; reflexivity);
     congruence|].
  rewrite firstRune_cons. cbn [bind].
  destruct (EscapeCharacter d) as [|e0 et].
  - replace (gostring_eqb [] []) with true
      by (symmetry; apply gostring_eqb_eq; reflexivity).
    cbn [negb bind]. eauto.
  - replace (gostring_eqb (e0 :: et) []) with false
      by (symmetry; destruct (gostring_eqb (e0 :: et) []) eqn:E;
          [apply gostring_eqb_eq in E; discriminate|reflexivity]).
    cbn [negb]. rewrite firstRune_cons. cbn [bind]. eauto.
Qed.

(** The outer loop on a lexer whose last item ends the line. *)
Lemma decode_loop_returns (c : chars) (its : list Item) (t : Item) :
  isTerminalType (Type_ t) ->
  forall (fuel : nat) (i : Z) (s : dstate),
  0 <= i ->
  len (its ++ [t]) - i < Z.of_nat fuel ->
  (0 < fuel)%nat ->
  (foundRightConstraint s = true ->
   exists it pre, index_at (its ++ [t]) (i - 1) = Returns it /\
                  Val it = pre ++ [rc c]) ->
  exists l' r,
    decode_loop fuel c (mkLexer i (its ++ [t])) s = Returns (l', r) /\
    items l' = its ++ [t] /\
    i <= index l' /\
    (forall res, r = inl res ->
       exists it pre, index_at (items l') (index l' - 1) = Returns it /\
                      Val it = pre ++ [rc c]).
Proof.
  intros Ht. induction fuel as [|fuel IH]; intros i s Hi Hf Hpos Hinv; [lia|].
  cbn [decode_loop]. destruct (foundRightConstraint s) eqn:F.
  - eexists. eexists. split; [reflexivity|]. cbn [items index].
    split; [reflexivity|]. split; [lia|]. intros res _. apply Hinv. reflexivity.
  - unfold Next. cbn [index items].
    destruct (i <? len (its ++ [t])) eqn:E.
    + apply Z.ltb_lt in E.
      destruct (index_at_Returns (its ++ [t]) i) as [it [Hit _]]; [lia|].
      rewrite Hit. cbn [bind].
      assert (Hstep : Type_ it <> ItemEOL -> Type_ it <> ItemEOF ->
        exists l' r,
          match decode_reader c (Val it) s with
          | (_, Some e) => Returns (mkLexer (i + 1) (its ++ [t]), inr e)
          | (s1, None) => decode_loop fuel c (mkLexer (i + 1) (its ++ [t])) s1
          end = Returns (l', r) /\
          items l' = its ++ [t] /\ i <= index l' /\
          (forall res, r = inl res ->
             exists it pre, index_at (items l') (index l' - 1) = Returns it /\
                            Val it = pre ++ [rc c])).
      { intros _ _.
        destruct (decode_reader c (Val it) s) as [s1 [e|]] eqn:Ed.
        - eexists. eexists. split; [reflexivity|]. cbn [items index].
          split; [reflexivity|]. split; [lia|]. intros res C. discriminate.
        - destruct (IH (i + 1) s1) as [l' [r [H1 [H2 [H3 H4]]]]]; [lia|lia| | |].
          + destruct fuel; [|lia]. simpl in Hf. lia.
          + intros F1. replace (i + 1 - 1) with i by lia.
            destruct (decode_reader_right_only c (Val it) s s1 Ed F F1) as [pre Hp].
            eauto.
          + exists l', r. split; [exact H1|]. split; [exact H2|].
            split; [lia|exact H4]. }
      destruct (ItemType_eqb (Type_ it) ItemEOL) eqn:T; cbn [negb bind].
      * apply ItemType_eqb_eq in T. rewrite T.
        eexists. eexists. split; [reflexivity|]. cbn [items index].
        split; [reflexivity|]. split; [lia|]. intros res C. discriminate.
      * assert (Hnl : Type_ it <> ItemEOL).
        { intros C. apply ItemType_eqb_eq in C. congruence. }
        destruct (Type_ it) eqn:Ty; try (apply Hstep; [exact Hnl|discriminate]).
        { eexists. eexists. split; [reflexivity|]. cbn [items index].
          split; [reflexivity|]. split; [lia|]. intros res C. discriminate. }
        { congruence. }
    + rewrite index_at_last. cbn [bind].
      destruct Ht as [Ht|Ht]; rewrite Ht;
        (eexists; eexists; split; [reflexivity|]; cbn [items index];
         split; [reflexivity|]; split; [lia|]; intros res C; discriminate).
Qed.

(** X20. [Decode] returns on the lexers of [New], whatever the
    configuration and whatever calls were made on the lexer: it does
    not panic and the loop ends. It does not move the index back, and
    when it gives a list, the item in front of the index is the one
    whose last rune is the right delimiter. *)
Theorem Decode_returns (IsNumber : rune -> bool) (line : gostring)
  (d : DecodeList) (l0 : Lexer) (cs : list call) :
  New IsNumber line = Returns l0 ->
  Forall (in_range l0) cs ->
  exists l,
    do_calls cs l0 = Returns l /\
    exists l' r,
      Decode d l = Returns (l', r) /\
      items l' = items l /\
      index l <= index l' /\
      (forall res, r = inl res ->
         exists c it pre,
           decodeChars d = Returns c /\
           index_at (items l') (index l' - 1) = Returns it /\
           Val it = pre ++ [rc c]).
Proof.
  intros HN Hr.
  assert (Hne : line <> []).
  { intros C. subst line. discriminate. }
  destruct (New_lexer IsNumber line Hne) as [l0' [HN' [Hi0 [_ Hend]]]].
  rewrite HN in HN'. injection HN' as HN'. subst l0'.
  assert (Hok : cursor_ok l0).
  { destruct Hend as [its [t [Hi _]]]. split.
    - rewrite Hi. intros C. apply app_eq_nil in C. destruct C; discriminate.
    - rewrite Hi0. pose proof (len_nonneg (items l0)). lia. }
  destruct (do_calls_cursor_ok cs l0 Hok Hr) as [l [Hl [Hil [_ [Hlo Hhi]]]]].
  exists l. split; [exact Hl|].
  destruct Hend as [its [t [Hi [Ht _]]]]. rewrite <- Hil in Hi.
  unfold Decode.
  destruct (setup_returns d) as [e [He Hc]]. rewrite He. cbn [bind].
  destruct e as [err|].
  - exists l, (inr err). split; [reflexivity|]. split; [reflexivity|].
    split; [lia|]. intros res C. discriminate.
  - destruct (Hc eq_refl) as [c Hchars]. rewrite Hchars. cbn [bind].
    destruct l as [i its0]. cbn [items index] in *. subst its0.
    destruct (decode_loop_returns c its t Ht
                (S (S (length (its ++ [t])))) i dstate0)
      as [l' [r [H1 [H2 [H3 H4]]]]].
    + exact Hlo.
    + unfold len. lia.
    + lia.
    + cbn [dstate0 foundRightConstraint]. discriminate.
    + exists l', r. split; [exact H1|]. split; [exact H2|].
      split; [exact H3|]. intros res Hres.
      destruct (H4 res Hres) as [it [pre [G1 G2]]]. eauto 6.
Qed.

Lemma Decode_returns_witness :
  exists l,
    do_calls [CallNext; CallNext]
             (mkLexer 0 [mkItem ItemText [97]; mkItem ItemSpace [32];
                         mkItem ItemText [91; 34; 98; 34; 93];
                         mkItem ItemEOF []])
    = Returns l /\
    exists l' r,
      Decode escapedList l = Returns (l', r) /\
      items l' = items l /\
      index l <= index l' /\
      (forall res, r = inl res ->
         exists c it pre,
           decodeChars escapedList = Returns c /\
           index_at (items l') (index l' - 1) = Returns it /\
           Val it = pre ++ [rc c]).
Proof.
  apply (Decode_returns Unicode.IsNumberLatin1
           [97; 32; 91; 34; 98; 34; 93] escapedList
           (mkLexer 0 [mkItem ItemText [97]; mkItem ItemSpace [32];
                       mkItem ItemText [91; 34; 98; 34; 93];
                       mkItem ItemEOF []])
           [CallNext; CallNext]).
  - reflexivity.
  - repeat constructor.
Defined.

(** *** Decoding a written list *)

Section ListProps.

Variable c : chars.

Hypothesis Hd : distinct_chars c.
Hypothesis Hsep : separator_ok c.

(** The quote that opens an entry. *)
Lemma decode_rune_open_quote (rest : gostring) (s : dstate) :
  inQuote s = false -> foundLeftConstraint s = true -> last s <> escape c ->
  exists s', decode_rune c (q c) rest s = (s', None) /\
    inQuote s' = true /\ foundLeftConstraint s' = true /\
    foundRightConstraint s' = foundRightConstraint s /\
    results s' = results s /\ entry s' = entry s /\
    last s' = q c /\ read s' = read s + 1.
Proof.
  destruct Hd as [He [_ [_ [Hqs [Hql _]]]]].
  intros HQ HL Hlast.
  unfold decode_rune, decode_switch.
  cbn [incr_read foundLeftConstraint read inQuote last].
  rewrite HL, Hqs. cbn [negb]. rewrite andb_false_r.
  apply Z.eqb_neq in Hql, Hlast. rewrite Hql, Hlast, Z.eqb_refl, andb_false_r.
  unfold toggleQuote. cbn [inQuote incr_read]. rewrite HQ.
  eexists. split; [reflexivity|]. simpl. rewrite HL. auto 10.
Qed.

(** The quote that closes an entry. *)
Lemma decode_rune_close_entry (rest : gostring) (s : dstate) :
  inQuote s = true -> foundLeftConstraint s = true -> last s <> escape c ->
  exists s', decode_rune c (q c) rest s = (s', None) /\
    inQuote s' = false /\ foundLeftConstraint s' = true /\
    foundRightConstraint s' = foundRightConstraint s /\
    results s' = results s ++ [entry s] /\ entry s' = [] /\
    last s' = q c /\ lastNonSpace s' = q c /\ read s' = read s + 1.
Proof.
  destruct Hd as [He [_ [_ [Hqs [Hql _]]]]].
  intros HQ HL Hlast.
  unfold decode_rune, decode_switch.
  cbn [incr_read foundLeftConstraint read inQuote last].
  rewrite HL, Hqs. cbn [negb]. rewrite andb_false_r.
  apply Z.eqb_neq in Hql, Hlast. rewrite Hql, Hlast, Z.eqb_refl, andb_false_r.
  unfold toggleQuote. cbn [inQuote incr_read]. rewrite HQ.
  eexists. split; [reflexivity|]. simpl. rewrite HL, Hqs. simpl. auto 10.
Qed.

(** The separator behind a closed entry. *)
Lemma decode_rune_separator (rest : gostring) (s : dstate) :
  inQuote s = false -> foundLeftConstraint s = true -> lastNonSpace s = q c ->
  exists s', decode_rune c (sep c) rest s = (s', None) /\
    inQuote s' = false /\ foundLeftConstraint s' = true /\
    foundRightConstraint s' = foundRightConstraint s /\
    results s' = results s /\ entry s' = entry s /\
    last s' = sep c /\ read s' = read s + 1.
Proof.
  destruct Hsep as [Hss [Hsl Hsq]].
  intros HQ HL Hlns.
  unfold decode_rune, decode_switch.
  cbn [incr_read foundLeftConstraint read inQuote last lastNonSpace].
  rewrite HL, HQ, Hss, Hlns. cbn [negb]. rewrite andb_false_r.
  apply Z.eqb_neq in Hsl, Hsq. rewrite Hsl, Hsq, !Z.eqb_refl.
  eexists. split; [reflexivity|]. simpl. rewrite HL, HQ. auto 10.
Qed.

(** One entry in its quotes. *)
Lemma decode_reader_entry (w rest : gostring) (s : dstate) :
  plainEntry c w ->
  inQuote s = false -> foundLeftConstraint s = true -> entry s = [] ->
  last s <> escape c ->
  exists s',
    decode_reader c (q c :: w ++ q c :: rest) s = decode_reader c rest s' /\
    inQuote s' = false /\ foundLeftConstraint s' = true /\
    foundRightConstraint s' = foundRightConstraint s /\
    results s' = results s ++ [w] /\ entry s' = [] /\
    last s' = q c /\ lastNonSpace s' = q c /\ read s <= read s'.
Proof.
  intros [Hw Hwl] HQ HL Hen Hlast.
  destruct (decode_rune_open_quote (w ++ q c :: rest) s HQ HL Hlast)
    as [s1 [E1 [Q1 [L1 [R1 [Res1 [En1 [La1 Rd1]]]]]]]].
  cbn [decode_reader]. rewrite E1.
  rewrite (decode_reader_ordinary c w (q c :: rest) s1 Hw Q1 L1).
  destruct (fold_write_fields w s1) as [Q2 [L2 [R2 [Res2 [En2 [La2 Rd2]]]]]].
  destruct (decode_rune_close_entry rest (fold_left write w s1))
    as [s3 [E3 [Q3 [L3 [R3 [Res3 [En3 [La3 [Ln3 Rd3]]]]]]]]].
  - congruence.
  - congruence.
  - rewrite La2, La1. exact Hwl.
  - cbn [decode_reader]. rewrite E3. exists s3.
    split; [reflexivity|]. split; [exact Q3|]. split; [exact L3|].
    split; [congruence|].
    split; [rewrite Res3, Res2, Res1, En2, En1, Hen; reflexivity|].
    split; [exact En3|]. split; [exact La3|]. split; [exact Ln3|].
    pose proof (len_nonneg w). lia.
Qed.

(** The entries of a list, in their quotes and with their separators. *)
Lemma decode_reader_entries (ws : list gostring) : forall (rest : gostring)
  (s : dstate),
  Forall (plainEntry c) ws ->
  inQuote s = false -> foundLeftConstraint s = true -> entry s = [] ->
  last s <> escape c ->
  exists s',
    decode_reader c (quotedEntries c ws ++ rest) s = decode_reader c rest s' /\
    inQuote s' = false /\ foundLeftConstraint s' = true /\
    foundRightConstraint s' = foundRightConstraint s /\
    results s' = results s ++ ws /\ read s <= read s'.
Proof.
  induction ws as [|w ws IH]; intros rest s Hws HQ HL Hen Hlast.
  - exists s. cbn [quotedEntries app]. rewrite app_nil_r.
    split; [reflexivity|]. split; [exact HQ|]. split; [exact HL|].
    split; [reflexivity|]. split; [reflexivity|lia].
  - inversion Hws as [|w' ws' Hw Hws']; subst.
    cbn [quotedEntries].
    destruct ws as [|w2 ws].
    + cbn [app]. rewrite <- app_assoc. cbn [app].
      destruct (decode_reader_entry w rest s Hw HQ HL Hen Hlast)
        as [s' [E [Q' [L' [R' [Res' [En' [La' [Ln' Rd']]]]]]]]].
      exists s'. auto 10.
    + cbn [app]. rewrite <- app_assoc. cbn [app].
      destruct (decode_reader_entry w
                  (sep c :: quotedEntries c (w2 :: ws) ++ rest) s
                  Hw HQ HL Hen Hlast)
        as [s1 [E1 [Q1 [L1 [R1 [Res1 [En1 [La1 [Ln1 Rd1]]]]]]]]].
      rewrite E1.
      destruct (decode_rune_separator (quotedEntries c (w2 :: ws) ++ rest) s1
                  Q1 L1 Ln1)
        as [s2 [E2 [Q2 [L2 [R2 [Res2 [En2 [La2 Rd2]]]]]]]].
      cbn [decode_reader]. rewrite E2.
      destruct (IH rest s2 Hws' Q2 L2) as [s' [E' [Q' [L' [R' [Res' Rd']]]]]].
      * congruence.
      * rewrite La2. destruct Hd as [_ [[_ [_ [_ [Hes _]]]] _]].
        intros C. apply Hes. symmetry. exact C.
      * exists s'. split; [exact E'|]. split; [exact Q'|]. split; [exact L'|].
        split; [congruence|].
        split; [rewrite Res', Res2, Res1, <- app_assoc; reflexivity|lia].
Qed.

(** The runes of a written list, read from the start. *)
Lemma decode_reader_list (ws : list gostring) :
  Forall (plainEntry c) ws ->
  exists s,
    decode_reader c (formatList c ws) dstate0 = (s, None) /\
    foundRightConstraint s = true /\ results s = ws.
Proof.
  intros Hws. unfold formatList.
  assert (Hlc : exists s1,
    decode_rune c (lc c) (quotedEntries c ws ++ [rc c]) dstate0 = (s1, None) /\
    inQuote s1 = false /\ foundLeftConstraint s1 = true /\
    foundRightConstraint s1 = false /\ results s1 = [] /\ entry s1 = [] /\
    last s1 = lc c /\ read s1 = 1).
  { unfold decode_rune, decode_switch, dstate0.
    cbn [incr_read foundLeftConstraint read inQuote last].
    rewrite Z.eqb_refl. cbn.
    eexists. split; [reflexivity|]. cbn. auto 10. }
  destruct Hlc as [s1 [E1 [Q1 [L1 [R1 [Res1 [En1 [La1 Rd1]]]]]]]].
  cbn [decode_reader]. rewrite E1.
  destruct (decode_reader_entries ws [rc c] s1 Hws Q1 L1 En1)
    as [s2 [E2 [Q2 [L2 [R2 [Res2 Rd2]]]]]].
  - rewrite La1. destruct Hd as [_ [[_ [Hel _]] _]].
    intros C. apply Hel. symmetry. exact C.
  - rewrite E2.
    destruct (decode_rune_right c s2 Hd Q2 L2) as [s3 [E3 [R3 Res3]]]; [lia|].
    cbn [decode_reader]. rewrite E3. exists s3.
    split; [reflexivity|]. split; [exact R3|].
    rewrite Res3, Res2, Res1. reflexivity.
Qed.

Lemma formatList_no_space (ws : list gostring) :
  Forall (plainEntry c) ws ->
  Forall (fun r => Unicode.IsSpace r = false) (formatList c ws).
Proof.
  intros Hws. destruct Hd as [_ [_ [Hls [Hqs [_ [Hrs _]]]]]].
  destruct Hsep as [Hss _].
  unfold formatList. constructor; [exact Hls|].
  apply Forall_app. split; [|constructor; [exact Hrs|constructor]].
  induction Hws as [|w ws [Hw _] Hws IH]; [constructor|].
  cbn [quotedEntries]. constructor; [exact Hqs|].
  apply Forall_app. split.
  - eapply Forall_impl; [|exact Hw]. intros r Hr. apply Hr.
  - constructor; [exact Hqs|].
    destruct ws; [constructor|]. constructor; [exact Hss|exact IH].
Qed.

End ListProps.

(** X21. [Decode] undoes the writing of a list: for a configuration whose
    runes the switch tells apart, the line made of the left delimiter,
    the entries in quotes with the separator between them and the
    right delimiter decodes to the entries, in their order, and leaves
    the index behind the item of the list. The entries are runs of
    ordinary runes that do not end with the escape character; the list
    may be empty, and so may an entry. *)
Theorem Decode_formatList (IsNumber : rune -> bool) (d : DecodeList)
  (c : chars) (ws : list gostring) :
  setup d = Returns None ->
  decodeChars d = Returns c ->
  distinct_chars c -> separator_ok c ->
  Forall (plainEntry c) ws ->
  exists l l',
    New IsNumber (formatList c ws) = Returns l /\
    Decode d l = Returns (l', inl ws) /\
    Index l' = 1 /\ items l' = items l.
Proof.
  intros Hsetup Hchars Hd Hsep Hws.
  destruct (New_single_run IsNumber (formatList c ws) ltac:(discriminate)
              (formatList_no_space c Hd Hsep ws Hws)) as [t [Ht HN]].
  destruct (decode_reader_list c Hd Hsep ws Hws) as [s [Hs [HR Hres]]].
  exists (mkLexer 0 [mkItem t (formatList c ws); mkItem ItemEOF []]).
  exists (mkLexer 1 [mkItem t (formatList c ws); mkItem ItemEOF []]).
  split; [exact HN|]. split; [|split; reflexivity].
  unfold Decode. rewrite Hsetup, Hchars.
  cbn [bind items length decode_loop].
  change (foundRightConstraint dstate0) with false. cbv iota.
  assert (HNext : Next (mkLexer 0 [mkItem t (formatList c ws); mkItem ItemEOF []])
                  = Returns (mkItem t (formatList c ws),
                             mkLexer 1 [mkItem t (formatList c ws);
                                        mkItem ItemEOF []])).
  { unfold Next. simpl.
    destruct Ht as [Ht|[Ht|Ht]]; rewrite Ht; reflexivity. }
  rewrite HNext. cbn [bind Type_ Val]. rewrite Hs.
  destruct Ht as [Ht|[Ht|Ht]]; rewrite Ht; cbn [decode_loop];
    rewrite HR, Hres; reflexivity.
Qed.

(** The witness: the list of the entries a and bc. *)
Lemma Decode_formatList_witness :
  exists l l',
    New Unicode.IsNumberLatin1
        (formatList (mkChars 91 93 44 34 92) [[97]; [98; 99]]) = Returns l /\
    Decode escapedList l = Returns (l', inl [[97]; [98; 99]]) /\
    Index l' = 1 /\ items l' = items l.
Proof.
  apply (Decode_formatList Unicode.IsNumberLatin1 escapedList
           (mkChars 91 93 44 34 92) [[97]; [98; 99]]).
  - reflexivity.
  - reflexivity.
  - unfold distinct_chars, ordinary. simpl.
    repeat split; try reflexivity; discriminate.
  - unfold separator_ok. simpl. repeat split; try reflexivity; discriminate.
  - unfold plainEntry, ordinary. simpl.
    repeat constructor; try reflexivity; discriminate.
Defined.

End DecodeFacts.
